(** * Guarded query subsystem and bounded agent loop

    A shallow embedding of [sql_tools.py] (query validator, rate limiter,
    secure executor, [query_database] tool) and of [execute_agent] from
    [agent_chatbot.py], with the properties of the specification stated and
    proved, or refuted, over it.

    Conventions of the embedding.
    - A Python [str] is a Stdlib string holding its UTF-8 encoding, so that
      an ASCII text is the string of its characters.  A character of a
      text is a code point: a byte that starts a UTF-8 sequence with the
      continuation bytes that follow it.  [len] counts characters;
      [upper], [strip], [split()] and the word boundaries of [re] work on
      characters.  The blank characters of Unicode are written out, and
      so are the upper-case mapping and the alphanumeric test on ASCII;
      beyond ASCII these two tables of the Unicode database are the
      parameters of the class [UnicodeData].
    - [time.time()] is an input of every call that reads the clock, as an
      integer number of clock ticks.
    - The third-party parts are parameters: [sqlparse] and the SQLAlchemy
      engine are the classes [SqlParse] and [Database], the language model
      and the tools handed to the agent are arguments of the loop.
    - A Python exception is a value of [py_result]; only the classes that
      the program distinguishes are kept. *)

From Stdlib Require Import ZArith Ascii String List Bool Lia DecimalString.
From stdpp Require Import gmap strings list fin_maps sorting.

Local Open Scope string_scope.
Local Open Scope list_scope.
Local Open Scope Z_scope.

(* ===================================================================== *)
(** * Python string primitives *)
(* ===================================================================== *)

Module PyStr.

(** [c] as a number, for range tests. *)
Definition code (c : ascii) : nat := nat_of_ascii c.

Definition in_range (lo hi : nat) (c : ascii) : bool :=
  (lo <=? code c)%nat && (code c <=? hi)%nat.

(** ** Characters

    A byte of the form [10xxxxxx] continues a UTF-8 sequence; every other
    byte starts one.  A character of a text is a byte that starts a
    sequence together with the continuation bytes that follow it. *)
Definition is_continuation (c : ascii) : bool := in_range 128 191 c.

Definition starts_with_continuation (s : string) : bool :=
  match s with
  | EmptyString => false
  | String c _ => is_continuation c
  end.

(** The characters of [s], in order: [list(s)]. *)
Fixpoint chars (s : string) : list string :=
  match s with
  | EmptyString => []
  | String c s' =>
      match chars s' with
      | x :: rest =>
          if starts_with_continuation s' then String c x :: rest
          else String c EmptyString :: x :: rest
      | [] => [String c EmptyString]
      end
  end.

(** The text made of the characters [cs]: [''.join(cs)]. *)
Fixpoint text_of (cs : list string) : string :=
  match cs with
  | [] => EmptyString
  | x :: cs' => x +:+ text_of cs'
  end.

(** The code point of a character, [ord(x)]: the payload bits of its first
    byte followed by six bits of every continuation byte. *)
Definition lead_payload (c : ascii) : N :=
  let n := N_of_ascii c in
  (if n <? 128 then n
   else if n <? 224 then n - 192
   else if n <? 240 then n - 224
   else n - 240)%N.

Fixpoint continue_payload (acc : N) (s : string) : N :=
  match s with
  | EmptyString => acc
  | String c s' => continue_payload (acc * 64 + (N_of_ascii c - 128))%N s'
  end.

Definition code_point (x : string) : N :=
  match x with
  | EmptyString => 0%N
  | String c s => continue_payload (lead_payload c) s
  end.

(** The character with code point [n], [chr(n)]; a code point is below
    [0x110000], so that the first of four bytes is at most [0xF4]. *)
Definition utf8 (n : N) : string :=
  let byte (k : N) := ascii_of_N k in
  (if n <? 0x80 then
     String (byte n) EmptyString
   else if n <? 0x800 then
     String (byte (192 + n / 64)) (String (byte (128 + n mod 64)) EmptyString)
   else if n <? 0x10000 then
     String (byte (224 + n / 4096))
       (String (byte (128 + (n / 64) mod 64)) (String (byte (128 + n mod 64)) EmptyString))
   else
     String (byte (240 + (n / 262144) mod 8))
       (String (byte (128 + (n / 4096) mod 64))
          (String (byte (128 + (n / 64) mod 64))
             (String (byte (128 + n mod 64)) EmptyString))))%N.

(** ** Character classes *)

(** [str.isspace] on one character, which is what [strip()] and [split()]
    without argument remove: TAB, LF, VT, FF, CR, the separators
    U+001C-U+001F, the blank, NEL, the no-break blank, and the blanks of
    the general category [Zs] and the line and paragraph separators. *)
Definition isspace (x : string) : bool :=
  let n := code_point x in
  ((0x09 <=? n) && (n <=? 0x0D) || (0x1C <=? n) && (n <=? 0x1F) || (n =? 0x20)
   || (n =? 0x85) || (n =? 0xA0) || (n =? 0x1680)
   || (0x2000 <=? n) && (n <=? 0x200A)
   || (n =? 0x2028) || (n =? 0x2029) || (n =? 0x202F) || (n =? 0x205F)
   || (n =? 0x3000))%N.

(** The case mapping and the letter-or-digit test on ASCII. *)
Definition ascii_toupper (n : N) : N :=
  (if (97 <=? n) && (n <=? 122) then n - 32 else n)%N.

Definition ascii_isalnum (n : N) : bool :=
  ((48 <=? n) && (n <=? 57) || (65 <=? n) && (n <=? 90) || (97 <=? n) && (n <=? 122))%N.

(** What the program uses of the Unicode database of the Python runtime
    beyond ASCII, as parameters: [upper_beyond_ascii n] is [chr(n).upper()]
    as a list of code points (one, two or three of them) and
    [isalnum_beyond_ascii n] is [chr(n).isalnum()], for [n >= 128]. *)
Class UnicodeData := {
  upper_beyond_ascii : N -> list N;
  isalnum_beyond_ascii : N -> bool
}.

Section Unicode.
Context `{UnicodeData}.

(** [chr(n).upper()] as a list of code points, and [chr(n).isalnum()]. *)
Definition toupper (n : N) : list N :=
  if (n <? 128)%N then [ascii_toupper n] else upper_beyond_ascii n.

Definition isalnum (n : N) : bool :=
  if (n <? 128)%N then ascii_isalnum n else isalnum_beyond_ascii n.

(** [x.upper()] for a character [x]. *)
Definition upper_char (x : string) : string :=
  text_of (map utf8 (toupper (code_point x))).

(** [s.upper()]: every character is mapped on its own. *)
Definition upper (s : string) : string := text_of (map upper_char (chars s)).

(** [\w] of the [re] module on a [str] pattern: a character that is
    alphanumeric, or the underscore. *)
Definition is_word (x : string) : bool :=
  isalnum (code_point x) || (code_point x =? 95)%N.

End Unicode.

(** [len(s)]: the number of code points, that is of bytes that do not
    continue a UTF-8 sequence. *)
Fixpoint count_code_points (s : string) : nat :=
  match s with
  | EmptyString => O
  | String c s' =>
      if is_continuation c then count_code_points s' else S (count_code_points s')
  end.

Definition len (s : string) : Z := Z.of_nat (count_code_points s).

(** [s.startswith(p)] *)
Fixpoint startswith (p s : string) : bool :=
  match p, s with
  | EmptyString, _ => true
  | String a p', String b s' => Ascii.eqb a b && startswith p' s'
  | String _ _, EmptyString => false
  end.

(** [sub in s] *)
Fixpoint contains (sub s : string) : bool :=
  startswith sub s ||
  match s with
  | EmptyString => false
  | String _ s' => contains sub s'
  end.

(** [s.rstrip(c)] for a one-character argument. *)
Fixpoint rstrip_char (c : ascii) (s : string) : string :=
  match s with
  | EmptyString => EmptyString
  | String a s' =>
      match rstrip_char c s' with
      | EmptyString => if Ascii.eqb a c then EmptyString else String a EmptyString
      | r => String a r
      end
  end.

(** [s.lstrip()], [s.rstrip()] and [s.strip()] without argument: the
    blank characters at the start, at the end, at both ends are dropped. *)
Fixpoint lstrip_chars (cs : list string) : list string :=
  match cs with
  | [] => []
  | x :: cs' => if isspace x then lstrip_chars cs' else cs
  end.

Definition rstrip_chars (cs : list string) : list string :=
  rev (lstrip_chars (rev cs)).

Definition lstrip (s : string) : string := text_of (lstrip_chars (chars s)).
Definition rstrip (s : string) : string := text_of (rstrip_chars (chars s)).
Definition strip (s : string) : string :=
  text_of (rstrip_chars (lstrip_chars (chars s))).

(** Truth value of a string: [bool(s)]. *)
Definition truthy (s : string) : bool :=
  match s with EmptyString => false | _ => true end.

(** [s.split(sep)] for a non-empty [sep]: the pieces between the
    non-overlapping occurrences of [sep], found from the left.  [skip]
    counts the bytes of a separator still to be passed over and [cur]
    holds the current piece, reversed. *)
Fixpoint split_go (sep : string) (skip : nat) (cur : list ascii) (s : string)
  : list string :=
  match s with
  | EmptyString => [string_of_list_ascii (rev cur)]
  | String c s' =>
      match skip with
      | S k => split_go sep k cur s'
      | O =>
          if startswith sep s
          then string_of_list_ascii (rev cur)
                 :: split_go sep (String.length sep - 1) [] s'
          else split_go sep O (c :: cur) s'
      end
  end.

Definition split (sep s : string) : list string := split_go sep 0 [] s.

(** [sep.join(parts)] *)
Fixpoint join (sep : string) (parts : list string) : string :=
  match parts with
  | [] => EmptyString
  | [p] => p
  | p :: rest => p +:+ sep +:+ join sep rest
  end.

(** [l[-1]], [l[0]] and [l[1]] on the result of a [split]; an index out of
    range is the [IndexError] of Python, [None] here. *)
Definition item_last (l : list string) : option string := last l.
Definition item (i : nat) (l : list string) : option string := l !! i.

(** [str(n)] and the [{n}] of an f-string, for an [int]. *)
Definition str_of_int (n : Z) : string := NilZero.string_of_int (Z.to_int n).

(** [s * n]: the string repeated, empty when [n <= 0]. *)
Definition repeat_str (s : string) (n : Z) : string :=
  Nat.iter (Z.to_nat n) (fun acc => s +:+ acc) EmptyString.

(** ** Word-bounded search

    [re.search(r'\b' + re.escape(kw) + r'\b', s)] and
    [re.findall(r'\bKW\b', s)].  [re.escape] makes the keyword match
    literally, so the pattern is: a word boundary, the characters of [kw],
    a word boundary.  The search runs over the characters of the text. *)

Section WordSearch.
Context `{UnicodeData}.

Definition is_word_opt (x : option string) : bool :=
  match x with Some a => is_word a | None => false end.

(** [\b] between the characters [before] and [after] ([None] at either end
    of the text). *)
Definition boundary (before after : option string) : bool :=
  xorb (is_word_opt before) (is_word_opt after).

(** The characters [kw] stand at the start of [cs]. *)
Fixpoint starts_with_chars (kw cs : list string) : bool :=
  match kw, cs with
  | [], _ => true
  | a :: kw', b :: cs' => String.eqb a b && starts_with_chars kw' cs'
  | _ :: _, [] => false
  end.

(** After a successful [starts_with_chars kw cs]: the last character
    matched (or [prev] when [kw] is empty) and the characters that follow
    the match. *)
Fixpoint after_match (kw : list string) (prev : option string) (cs : list string)
  : option string * list string :=
  match kw, cs with
  | _ :: kw', x :: cs' => after_match kw' (Some x) cs'
  | _, _ => (prev, cs)
  end.

(** Does the pattern match at the start of [cs], [prev] being the
    character just before? *)
Definition word_match_here (kw : list string) (prev : option string) (cs : list string)
  : bool :=
  boundary prev (head cs) && starts_with_chars kw cs &&
  (let '(lastc, rest) := after_match kw prev cs in boundary lastc (head rest)).

Fixpoint search_from (kw : list string) (prev : option string) (cs : list string) : bool :=
  word_match_here kw prev cs ||
  match cs with
  | [] => false
  | x :: cs' => search_from kw (Some x) cs'
  end.

(** [bool(re.search(r'\bKW\b', s))] *)
Definition re_search_word (kw s : string) : bool :=
  search_from (chars kw) None (chars s).

(** [len(re.findall(r'\bKW\b', s))] for a non-empty keyword: matches are
    counted from the left and do not overlap. *)
Fixpoint findall_from (kw : list string) (skip : nat) (prev : option string)
    (cs : list string) : nat :=
  match cs with
  | [] => 0
  | x :: cs' =>
      match skip with
      | S k => findall_from kw k (Some x) cs'
      | O =>
          if word_match_here kw prev cs
          then S (findall_from kw (length kw - 1) (Some x) cs')
          else findall_from kw O (Some x) cs'
      end
  end.

Definition re_findall_word_count (kw s : string) : Z :=
  Z.of_nat (findall_from (chars kw) 0 None (chars s)).

End WordSearch.

End PyStr.

Import PyStr.


(* ===================================================================== *)
(** * Exceptions and dictionaries *)
(* ===================================================================== *)

(** The two classes told apart by the handlers of [execute_query]:
    [sqlalchemy.exc.SQLAlchemyError] and any other [Exception]. *)
Inductive exn_class := SQLAlchemyError | OtherException.

(** An exception with its [str(e)]. *)
Record exn := mk_exn { exn_kind : exn_class; exn_str : string }.

(** The outcome of a Python call. *)
Inductive py_result (A : Type) :=
| Returns (a : A)
| Raises (e : exn).
Arguments Returns {A} a.
Arguments Raises {A} e.

Definition py_bind {A B} (r : py_result A) (k : A -> py_result B) : py_result B :=
  match r with
  | Returns a => k a
  | Raises e => Raises e
  end.

(** [try: body  except Exception as e: handler(e)] *)
Definition try_except {A} (body : py_result A) (handler : exn -> py_result A)
  : py_result A :=
  match body with
  | Returns a => Returns a
  | Raises e => handler e
  end.

(** [py_result] is a monad: [x ← r; k] runs [k] when [r] returns. *)
#[global] Instance py_result_ret : MRet py_result := fun A a => Returns a.
#[global] Instance py_result_bind : MBind py_result := fun A B k r => py_bind r k.

Definition returned {A} (r : py_result A) : Prop := exists a, r = Returns a.

Definition KeyError (k : string) : exn := mk_exn OtherException ("'" +:+ k +:+ "'").
Definition IndexError : exn := mk_exn OtherException "list index out of range".

(** A [dict] with string keys, in insertion order: assigning to a key that
    is present replaces its value in place. *)
Fixpoint dict_set {V} (k : string) (v : V) (d : list (string * V)) : list (string * V) :=
  match d with
  | [] => [(k, v)]
  | (k', v') :: d' =>
      if String.eqb k k' then (k, v) :: d' else (k', v') :: dict_set k v d'
  end.

Fixpoint dict_get {V} (k : string) (d : list (string * V)) : option V :=
  match d with
  | [] => None
  | (k', v') :: d' => if String.eqb k k' then Some v' else dict_get k d'
  end.

(** [dict(pairs)] *)
Definition dict_of {V} (pairs : list (string * V)) : list (string * V) :=
  fold_left (fun d kv => dict_set (fst kv) (snd kv) d) pairs [].

Definition dict_keys {V} (d : list (string * V)) : list string := map fst d.

(* ===================================================================== *)
(** * Rate limiter *)
(* ===================================================================== *)

(** [class RateLimiter]: the two settings and the [defaultdict(list)] of
    request times per identity.  The lock makes a call atomic; a call is
    one function application here. *)
Record RateLimiter := mk_RateLimiter {
  max_requests : Z;
  time_window : Z;
  requests : gmap string (list Z)
}.

(** [RateLimiter(max_requests, time_window)] *)
Definition new_RateLimiter (max_requests time_window : Z) : RateLimiter :=
  mk_RateLimiter max_requests time_window ∅.

(** [self.requests[user_id]] on a [defaultdict(list)]. *)
Definition requests_of (rl : RateLimiter) (user_id : string) : list Z :=
  default [] (requests rl !! user_id).

Definition set_requests (rl : RateLimiter) (user_id : string) (l : list Z) : RateLimiter :=
  mk_RateLimiter (max_requests rl) (time_window rl) (<[user_id := l]> (requests rl)).

(** The "clean old requests" comprehension. *)
Definition clean_old (current_time window : Z) (l : list Z) : list Z :=
  filter (fun req_time => current_time - req_time < window) l.

(** [allow_request], [current_time] being the value of [time.time()]. *)
Definition allow_request (current_time : Z) (user_id : string) (rl : RateLimiter)
  : bool * RateLimiter :=
  let kept := clean_old current_time (time_window rl) (requests_of rl user_id) in
  let rl := set_requests rl user_id kept in
  if Z.of_nat (length (requests_of rl user_id)) >=? max_requests rl
  then (false, rl)
  else (true, set_requests rl user_id (requests_of rl user_id ++ [current_time])).

(** A sequence of calls, each with the clock reading it sees and the
    identity it is made for, served in order; the log pairs every call with
    the answer it got. *)
Fixpoint serve (calls : list (Z * string)) (rl : RateLimiter)
  : list (Z * string * bool) * RateLimiter :=
  match calls with
  | [] => ([], rl)
  | (current_time, user_id) :: calls =>
      let '(allowed, rl) := allow_request current_time user_id rl in
      let '(log, rl) := serve calls rl in
      ((current_time, user_id, allowed) :: log, rl)
  end.

(** The calls of a log made for [user_id], and the clock readings of those
    that were admitted. *)
Definition calls_of (user_id : string) (log : list (Z * string * bool))
  : list (Z * string * bool) :=
  filter (fun entry => entry.1.2 = user_id) log.

Definition admitted_times (user_id : string) (log : list (Z * string * bool)) : list Z :=
  map (fun entry => entry.1.1)
      (filter (fun entry => entry.2 = true) (calls_of user_id log)).

(** The admissions that fall in the window of length [window] ending at
    [t]: later than [t - window] and not later than [t]. *)
Definition in_window (window t : Z) (times : list Z) : list Z :=
  filter (fun a => t - window < a /\ a <= t) times.

(* ===================================================================== *)
(** * Query validator *)
(* ===================================================================== *)

(** What [validate] uses of [sqlparse]: [sqlparse.parse], giving the
    statements of a text, and [Statement.get_type]. *)
Class SqlParse := {
  statement : Type;
  sqlparse_parse : string -> py_result (list statement);
  get_type : statement -> py_result string
}.

Definition BLOCKED_KEYWORDS : list string :=
  [ "DROP"; "DELETE"; "UPDATE"; "INSERT"; "ALTER"; "CREATE";
    "TRUNCATE"; "GRANT"; "REVOKE"; "EXEC"; "EXECUTE";
    "INTO OUTFILE"; "LOAD_FILE"; "LOAD DATA"; "BACKUP" ].

Definition MAX_QUERY_LENGTH : Z := 2000.
Definition MAX_TABLES : Z := 5.

(** The dictionary returned by [validate]: ['valid'] and, when the text is
    refused, ['error']. *)
Record Verdict := mk_Verdict { valid : bool; error : option string }.

Definition accept : Verdict := mk_Verdict true None.
Definition reject (reason : string) : Verdict := mk_Verdict false (Some reason).

(** [class SQLQueryValidator]: its limiter is [RateLimiter(10, 60)]. *)
Record SQLQueryValidator := mk_SQLQueryValidator { rate_limiter : RateLimiter }.

Definition new_SQLQueryValidator : SQLQueryValidator :=
  mk_SQLQueryValidator (new_RateLimiter 10 60).

(** [_count_tables] *)
Definition _count_tables `{UnicodeData} (query : string) : Z :=
  let query_upper := upper query in
  let from_count := re_findall_word_count "FROM" query_upper in
  let join_count := re_findall_word_count "JOIN" query_upper in
  from_count + join_count.

(** Truth value of [user_id : Optional[str]]. *)
Definition truthy_id (user_id : option string) : option string :=
  match user_id with
  | Some u => if truthy u then Some u else None
  | None => None
  end.

(** Step 1: [user_id and not self.rate_limiter.allow_request(user_id)].
    The limiter is consulted only for a truthy identity. *)
Definition rate_limited (current_time : Z) (user_id : option string) (v : SQLQueryValidator)
  : bool * SQLQueryValidator :=
  match truthy_id user_id with
  | Some u =>
      let '(allowed, rl) := allow_request current_time u (rate_limiter v) in
      (negb allowed, mk_SQLQueryValidator rl)
  | None => (false, v)
  end.

Section Validator.
Context `{UnicodeData} `{SqlParse}.

(** Steps 4 and 5, the [try] block: [Some] verdict when the block returns,
    [None] when control falls through to step 6. *)
Definition parse_check (query : string) : option Verdict :=
  let body : py_result (option Verdict) :=
    parsed ← sqlparse_parse query;
    match parsed with
    | [] => Returns (Some (reject "Invalid SQL syntax."))
    | statement :: _ =>
        query_type ← get_type statement;
        if negb (String.eqb query_type "SELECT")
        then Returns (Some (reject ("Only SELECT queries are allowed. Found: " +:+ query_type)))
        else Returns None
    end in
  match body with
  | Returns r => r
  | Raises e => Some (reject ("SQL parsing error: " +:+ exn_str e))
  end.

(** Step 6: the first blocked keyword, in the order of the list, found in
    the upper-cased text. *)
Definition blocked_keyword (query : string) : option string :=
  let query_upper := upper query in
  find (fun keyword => re_search_word keyword query_upper) BLOCKED_KEYWORDS.

(** Steps 2 to 9, which do not touch the limiter. *)
Definition validate_text (query : string) : Verdict :=
  if len query >? MAX_QUERY_LENGTH then
    reject ("Query too long. Maximum length is " +:+ str_of_int MAX_QUERY_LENGTH
            +:+ " characters.")
  else if negb (truthy query) || negb (truthy (strip query)) then
    reject "Query cannot be empty."
  else
    match parse_check query with
    | Some v => v
    | None =>
        match blocked_keyword query with
        | Some keyword => reject ("Blocked keyword detected: " +:+ keyword)
        | None =>
            if contains "--" query || contains "/*" query || contains "*/" query then
              reject "SQL comments are not allowed."
            else if contains ";" (rstrip_char ";" query) then
              reject "Multiple SQL statements are not allowed."
            else if _count_tables query >? MAX_TABLES then
              reject ("Too many tables in query. Maximum is " +:+ str_of_int MAX_TABLES +:+ ".")
            else accept
        end
    end.

(** [SQLQueryValidator.validate] *)
Definition validate (current_time : Z) (query : string) (user_id : option string)
    (v : SQLQueryValidator) : Verdict * SQLQueryValidator :=
  let '(limited, v) := rate_limited current_time user_id v in
  if limited then
    (reject "Rate limit exceeded. Please wait before making more queries.", v)
  else (validate_text query, v).

(** The text parses, and its first statement is of kind [SELECT]. *)
Definition parses_as_select (query : string) : Prop :=
  exists statement rest,
    sqlparse_parse query = Returns (statement :: rest) /\
    get_type statement = Returns "SELECT".

End Validator.

(** ** The words of the specification

    These follow the specification, not the code; the theorems relate them
    to the tests made by [validate]. *)

(** [text] contains [kw] as a whole word: the characters of [kw] stand
    somewhere in [text], neither preceded nor followed by a word
    character. *)
Definition occurs_as_word `{UnicodeData} (kw text : string) : Prop :=
  exists pre post : list string,
    chars text = pre ++ chars kw ++ post /\
    is_word_opt (last pre) = false /\ is_word_opt (head post) = false.

(** [x] is no character at all (an end of the text) or an ASCII character
    other than a letter, a digit or the underscore. *)
Definition ascii_separator (x : option string) : Prop :=
  match x with
  | None => True
  | Some x =>
      exists c, x = String c EmptyString /\ (N_of_ascii c < 128)%N /\
                ascii_isalnum (N_of_ascii c) = false /\ N_of_ascii c <> 95%N
  end.

(** [text] contains [kw] in some letter case, between ASCII separators or
    ends of the text: [text] is [pre], then a piece [w] that reads [kw]
    once upper-cased, then [post]. *)
Definition occurs_in_any_case `{UnicodeData} (kw text : string) : Prop :=
  exists pre w post : string,
    text = pre +:+ w +:+ post /\
    starts_with_continuation w = false /\ upper w = kw /\
    ascii_separator (last (chars pre)) /\ ascii_separator (head (chars post)).

(** [text] contains [sub]. *)
Definition occurs (sub text : string) : Prop :=
  exists pre post, text = pre +:+ sub +:+ post.

(** [s] is made of the character [c] only. *)
Fixpoint consists_of (c : ascii) (s : string) : bool :=
  match s with
  | EmptyString => true
  | String a s' => Ascii.eqb a c && consists_of c s'
  end.

(** A statement terminator occurs only at the very end of [text]: [text]
    is a body without terminator followed by terminators only. *)
Definition terminator_only_at_end (text : string) : Prop :=
  exists body tail,
    text = body +:+ tail /\ ~ occurs ";" body /\ consists_of ";" tail = true.

(** ** Notions used in the proofs *)

(** The last of the characters [cs], or [prev] when there is none. *)
Definition last_or (prev : option string) (cs : list string) : option string :=
  match last cs with Some x => Some x | None => prev end.

(** A keyword that starts and ends with a word character. *)
Definition word_delimited `{UnicodeData} (kw : string) : Prop :=
  is_word_opt (head (chars kw)) = true /\ is_word_opt (last (chars kw)) = true.

(** What the window of identity [u] keeps of the admissions [A] made so
    far, [T] being the latest clock reading: after any later cleaning the
    stored window is the cleaned list of admissions, and no window of
    length [time_window] holds more than [max_requests] admissions. *)
Definition window_inv (rl : RateLimiter) (u : string) (A : list Z) (T : Z) : Prop :=
  (forall t, T <= t ->
     clean_old t (time_window rl) (requests_of rl u) = clean_old t (time_window rl) A) /\
  (forall t, Z.of_nat (length (in_window (time_window rl) t A)) <= max_requests rl).

(* ===================================================================== *)
(** * Secure executor and the [query_database] tool *)
(* ===================================================================== *)

(** What [execute_query] uses of the SQLAlchemy engine: opening a
    connection, executing a text and fetching, as one call that gives the
    column names and the rows or raises; [str_value] is [str] on a cell. *)
Class Database := {
  value : Type;
  str_value : value -> string;
  db_execute : string -> py_result (list string * list (list value))
}.

Definition nl : string := String (ascii_of_nat 10) EmptyString.

Section Executor.
Context `{UnicodeData} `{SqlParse} `{Database}.

(** A row of the result: [dict(zip(columns, row))]. *)
Definition Row : Type := list (string * value).

(** The dictionary returned by [execute_query]. *)
Inductive ExecutionResult :=
| Success (data : list Row) (row_count : Z)
| Failure (error_message : string).

(** [class SecureSQLExecutor]: its validator, and the texts handed to the
    engine so far, oldest first. *)
Record SecureSQLExecutor := mk_SecureSQLExecutor {
  validator : SQLQueryValidator;
  executed : list string
}.

Definition new_SecureSQLExecutor : SecureSQLExecutor :=
  mk_SecureSQLExecutor new_SQLQueryValidator [].

(** The "add LIMIT clause if not present" rewrite. *)
Definition add_limit (query : string) (max_rows : Z) : string :=
  let query_upper := upper query in
  if negb (contains "LIMIT" query_upper)
  then rstrip_char ";" query +:+ " LIMIT " +:+ str_of_int max_rows
  else query.

(** The two [except] clauses of [execute_query]. *)
Definition on_error (e : exn) : py_result ExecutionResult :=
  match exn_kind e with
  | SQLAlchemyError => Returns (Failure ("Database error: " +:+ exn_str e))
  | OtherException => Returns (Failure ("Unexpected error: " +:+ exn_str e))
  end.

(** [SecureSQLExecutor.execute_query] *)
Definition execute_query (current_time : Z) (query : string) (user_id : option string)
    (max_rows : Z) (ex : SecureSQLExecutor)
  : py_result ExecutionResult * SecureSQLExecutor :=
  let '(validation_result, v) := validate current_time query user_id (validator ex) in
  let ex := mk_SecureSQLExecutor v (executed ex) in
  if negb (valid validation_result) then
    (match error validation_result with
     | Some reason => Returns (Failure reason)
     | None => Raises (KeyError "error")
     end, ex)
  else
    let query := add_limit query max_rows in
    let body :=
      '(columns, rows) ← db_execute query;
      let data := map (fun row => dict_of (zip columns row)) rows in
      Returns (Success data (Z.of_nat (length data))) in
    (try_except body on_error,
     mk_SecureSQLExecutor (validator ex) (executed ex ++ [query])).

Definition default_max_rows : Z := 100.

(** The formatting of a non-empty result in [run_query]. *)
Definition format_rows (data : list Row) (row_count : Z) (first : Row) : string :=
  let output := "✓ Query returned " +:+ str_of_int row_count +:+ " row(s):" +:+ nl +:+ nl in
  let headers := dict_keys first in
  let output := output +:+ join " | " headers +:+ nl in
  let output := output +:+ repeat_str "-" (len output - 2) +:+ nl in
  let output :=
    fold_left
      (fun output row =>
         output +:+
         join " | "
           (map (fun h => match dict_get h row with
                          | Some x => str_value x
                          | None => EmptyString
                          end) headers) +:+ nl)
      (take 10 data) output in
  if row_count >? 10
  then output +:+ nl +:+ "... and " +:+ str_of_int (row_count - 10) +:+ " more rows"
  else output.

(** [run_query], the function behind the [query_database] tool. *)
Definition run_query (current_time : Z) (query : string) (executor : SecureSQLExecutor)
  : py_result string * SecureSQLExecutor :=
  let '(r, executor) :=
    execute_query current_time query (Some "default_user") default_max_rows executor in
  (result ← r;
   match result with
   | Failure error_message => Returns ("❌ Query failed: " +:+ error_message)
   | Success data row_count =>
       match data with
       | [] => Returns "✓ Query executed successfully but returned no results."
       | first :: _ => Returns (format_rows data row_count first)
       end
   end, executor).

End Executor.

(* ===================================================================== *)
(** * Agent loop controller *)
(* ===================================================================== *)

(** [l[i]] and [l[-1]], raising [IndexError]. *)
Definition getitem (i : nat) (l : list string) : py_result string :=
  match item i l with
  | Some x => Returns x
  | None => Raises IndexError
  end.

Definition getitem_last (l : list string) : py_result string :=
  match item_last l with
  | Some x => Returns x
  | None => Raises IndexError
  end.

(** The dictionary passed to [agent.invoke]. *)
Record AgentInput := mk_AgentInput {
  input : string;
  chat_history : string;
  agent_scratchpad : string;
  tools_text : string;
  tool_names : string
}.

Section Agent.
(** [World] is whatever the model and the tools read and change (the
    conversation with the model provider, the limiter, the database). *)
Context {World : Type}.

(** A LangChain [Tool]. *)
Record Tool := mk_Tool {
  name : string;
  description : string;
  func : string -> World -> py_result string * World
}.

(** [agent.invoke], already reduced to the text of the reply
    ([result.content] or [str(result)]). *)
Context (agent_invoke : AgentInput -> World -> py_result string * World).

(** What one pass through the body of the [for] loop ends with: a [return]
    or the state for the next pass. *)
Inductive Outcome :=
| Return (answer : string)
| Next (agent_scratchpad : string) (intermediate_steps : list (string * string * string)).

Definition rephrase_message : string :=
  "I've reached my thinking limit. Could you rephrase your question or break it into smaller parts?".

(** [{tool.name: tool for tool in tools}] *)
Definition make_tool_map (tools : list Tool) : list (string * Tool) :=
  dict_of (map (fun tool => (name tool, tool)) tools).

Definition make_input (tools : list Tool) (input_text chat_history agent_scratchpad : string)
  : AgentInput :=
  mk_AgentInput input_text chat_history agent_scratchpad
    (join nl (map (fun tool => name tool +:+ ": " +:+ description tool) tools))
    (join ", " (map name tools)).

(** The two pieces cut out of a reply that carries both action markers. *)
Definition parse_action (response : string) : py_result (string * string) :=
  a1 ← getitem 1 (split "Action:" response);
  a0 ← getitem 0 (split "Action Input:" a1);
  i1 ← getitem 1 (split "Action Input:" response);
  i0 ← getitem 0 (split nl i1);
  Returns (strip a0, strip i0).

Definition unknown_tool_observation (action_part : string) (tool_map : list (string * Tool))
  : string :=
  "Error - Tool '" +:+ action_part +:+ "' not found. Available tools: "
  +:+ join ", " (dict_keys tool_map).

(** What follows the model's reply inside the [try] block. *)
Definition handle_response (tool_map : list (string * Tool)) (response : string)
    (agent_scratchpad : string) (intermediate_steps : list (string * string * string))
    (w : World) : py_result Outcome * World :=
  if contains "Final Answer:" response then
    (final ← getitem_last (split "Final Answer:" response);
     Returns (Return (strip final)), w)
  else if contains "Action:" response && contains "Action Input:" response then
    match parse_action response with
    | Raises e => (Raises e, w)
    | Returns (action_part, action_input_part) =>
        match dict_get action_part tool_map with
        | Some tool =>
            let '(r, w) := func tool action_input_part w in
            match r with
            | Raises e => (Raises e, w)
            | Returns observation =>
                (Returns (Next
                   (agent_scratchpad +:+ nl +:+ response +:+ nl +:+ "Observation: "
                    +:+ observation +:+ nl +:+ "Thought: ")
                   (intermediate_steps ++ [(action_part, action_input_part, observation)])),
                 w)
            end
        | None =>
            (Returns (Next
               (agent_scratchpad +:+ nl +:+ response +:+ nl +:+ "Observation: "
                +:+ unknown_tool_observation action_part tool_map +:+ nl +:+ "Thought: ")
               intermediate_steps),
             w)
        end
    end
  else
    (final ← getitem_last (split "Thought:" response);
     Returns (Return (strip final)), w).

(** The body of the [for] loop with its [try]/[except]. *)
Definition iteration (tools : list Tool) (tool_map : list (string * Tool))
    (input_text chat_history : string)
    (agent_scratchpad : string) (intermediate_steps : list (string * string * string))
    (w : World) : Outcome * World :=
  let '(r, w) :=
    let '(invoked, w) :=
      agent_invoke (make_input tools input_text chat_history agent_scratchpad) w in
    match invoked with
    | Raises e => (Raises e, w)
    | Returns response =>
        handle_response tool_map response agent_scratchpad intermediate_steps w
    end in
  match r with
  | Returns o => (o, w)
  | Raises e =>
      (Return ("I encountered an error while processing your request: " +:+ exn_str e), w)
  end.

(** One run of [execute_agent]: the value returned, the number of passes
    through the loop body (each invokes the model once), and the scratchpad
    and the world at the end. *)
Record Episode := mk_Episode {
  answer : string;
  iterations : nat;
  last_scratchpad : string;
  last_world : World
}.

(** [for iteration in range(max_iterations)], [remaining] passes being
    left and [done] passes made. *)
Fixpoint agent_loop (tools : list Tool) (tool_map : list (string * Tool))
    (input_text chat_history : string) (remaining done : nat)
    (agent_scratchpad : string) (intermediate_steps : list (string * string * string))
    (w : World) : Episode :=
  match remaining with
  | O => mk_Episode rephrase_message done agent_scratchpad w
  | S remaining =>
      match iteration tools tool_map input_text chat_history
              agent_scratchpad intermediate_steps w with
      | (Return answer, w) => mk_Episode answer (S done) agent_scratchpad w
      | (Next agent_scratchpad intermediate_steps, w) =>
          agent_loop tools tool_map input_text chat_history remaining (S done)
            agent_scratchpad intermediate_steps w
      end
  end.

Definition run_episode (tools : list Tool) (input_text chat_history : string)
    (max_iterations : Z) (w : World) : Episode :=
  agent_loop tools (make_tool_map tools) input_text chat_history
    (Z.to_nat max_iterations) 0 EmptyString [] w.

(** [execute_agent(agent, tools, input_text, chat_history, max_iterations)] *)
Definition execute_agent (tools : list Tool) (input_text chat_history : string)
    (max_iterations : Z) (w : World) : string :=
  answer (run_episode tools input_text chat_history max_iterations w).

Definition default_max_iterations : Z := 5.

(** [response] carries no final-answer marker and both action markers, and
    the tool it names is in [tool_map]. *)
Definition action_on_known_tool (tool_map : list (string * Tool)) (response : string) : Prop :=
  contains "Final Answer:" response = false /\
  contains "Action:" response = true /\
  contains "Action Input:" response = true /\
  exists action_part action_input_part tool,
    parse_action response = Returns (action_part, action_input_part) /\
    dict_get action_part tool_map = Some tool.

End Agent.
Arguments Tool World : clear implicits.
Arguments Episode World : clear implicits.

(* ===================================================================== *)
(** * Stand-ins for the third-party parts, used by the examples *)
(* ===================================================================== *)

Module Examples.

(** Tables for the examples: the entries of the Unicode database for the
    few characters beyond ASCII that the examples use; any other character
    is taken to be caseless and not alphanumeric. *)
Definition sample_upper (n : N) : list N :=
  (if n =? 0xDF then [0x53; 0x53]             (* ß gives SS *)
   else if n =? 0xE9 then [0xC9]              (* é gives É *)
   else if n =? 0x131 then [0x49]             (* dotless i gives I *)
   else if n =? 0x17F then [0x53]             (* long s gives S *)
   else if n =? 0x345 then [0x399]            (* the iota subscript gives Ι *)
   else if n =? 0xFB01 then [0x46; 0x49]      (* the ligature fi gives FI *)
   else [n])%N.

Definition sample_isalnum (n : N) : bool :=
  existsb (N.eqb n) [0xC9; 0xDF; 0xE9; 0x131; 0x17F; 0x399; 0xFB01]%N.

#[local] Instance sample_tables : UnicodeData := {|
  upper_beyond_ascii := sample_upper;
  isalnum_beyond_ascii := sample_isalnum
|}.

(** A parser for the examples: the text is one statement, whose kind is
    read off its first word, ["SELECT"] or else ["UNKNOWN"]; this is what
    [sqlparse] answers on the [SELECT] texts of the examples. *)
#[local] Instance first_word_parser : SqlParse := {|
  statement := string;
  sqlparse_parse := fun query => Returns [query];
  get_type := fun st =>
    Returns (if startswith "SELECT" (upper (lstrip st)) then "SELECT" else "UNKNOWN")
|}.

(** The number of a trailing [" LIMIT n"] clause, if the text ends so. *)
Definition trailing_limit (text : string) : option nat :=
  match split " LIMIT " text with
  | (_ :: _ :: _) as pieces =>
      tail ← item_last pieces;
      Nat.of_uint <$> NilZero.uint_of_string tail
  | _ => None
  end.

(** A database holding one table of 150 rows with the single column
    ["id"]; it answers every text with the rows of that table, cut down to
    [n] rows when the text ends in [" LIMIT n"]. *)
Definition table_rows : list (list Z) := map (fun i => [Z.of_nat i]) (seq 1 150).

#[local] Instance table_db : Database := {|
  value := Z;
  str_value := str_of_int;
  db_execute := fun text =>
    Returns (["id"],
             match trailing_limit text with
             | Some n => take n table_rows
             | None => table_rows
             end)
|}.

(** A validator whose limiter has already admitted ten calls of the
    identity ["analyst"] at clock reading 0. *)
Definition busy_validator : SQLQueryValidator :=
  mk_SQLQueryValidator (serve (repeat (0, "analyst") 10) (new_RateLimiter 10 60)).2.

(** A model that asks for the tool ["echo"] at every invocation, a model
    that asks for a tool nobody registered, and a model that only muses.
    The world counts the invocations of the model. *)
Definition echo_tool : Tool nat :=
  mk_Tool "echo" "Repeat the input." (fun arg w => (Returns arg, w)).

(** A tool that raises whenever it is invoked. *)
Definition broken_tool : Tool nat :=
  mk_Tool "echo" "Repeat the input."
    (fun _ w => (Raises (mk_exn OtherException "connection reset"), w)).

Definition acting_reply : string :=
  "I should look." +:+ nl +:+ "Action: echo" +:+ nl +:+ "Action Input: hello".

Definition acting_model (_ : AgentInput) (w : nat) : py_result string * nat :=
  (Returns acting_reply, S w).

Definition stray_reply : string :=
  "I should look." +:+ nl +:+ "Action: search_web" +:+ nl +:+ "Action Input: hello".

Definition stray_model (_ : AgentInput) (w : nat) : py_result string * nat :=
  (Returns stray_reply, S w).

Definition musing_reply : string := "Thought: The table holds 42 rows. ".

Definition musing_model (_ : AgentInput) (w : nat) : py_result string * nat :=
  (Returns musing_reply, S w).

(** A database on which every statement fails with a driver error that
    names a column of the schema. *)
Definition driver_text : string :=
  "(psycopg2.errors.UndefinedColumn) column salary of relation payroll does not exist".

#[local] Instance failing_db : Database := {|
  value := Z;
  str_value := str_of_int;
  db_execute := fun _ => Raises (mk_exn SQLAlchemyError driver_text)
|}.

End Examples.

(* ===================================================================== *)
(** * Schema inspector *)
(* ===================================================================== *)

(** What the schema tool uses of [SQLDatabase]: [get_table_info] and
    [get_usable_table_names]. *)
Class SchemaReflection := {
  db_get_table_info : py_result string;
  db_get_usable_table_names : py_result (list string)
}.

Section SchemaInspector.
Context `{SchemaReflection}.

(** [SecureSQLExecutor.get_table_info] *)
Definition get_table_info : py_result string :=
  try_except db_get_table_info
    (fun e => Returns ("Error fetching table info: " +:+ exn_str e)).

(** [SecureSQLExecutor.get_table_names] *)
Definition get_table_names : py_result (list string) :=
  try_except db_get_usable_table_names (fun _ => Returns []).

(** [get_schema_info], the function behind the [get_database_schema]
    tool. *)
Definition get_schema_info (query : string) : py_result string :=
  table_info ← get_table_info;
  table_names ← get_table_names;
  let output := "📊 Database Schema Information:" +:+ nl +:+ nl in
  let output := output +:+ "Available tables: " +:+ join ", " table_names +:+ nl +:+ nl in
  let output := output +:+ table_info in
  Returns output.

End SchemaInspector.

(* ===================================================================== *)
(** * A sequence of invocations of the [query_database] tool *)
(* ===================================================================== *)

Section ToolCalls.
Context `{UnicodeData} `{SqlParse} `{Database}.

(** Invocations of [run_query] on one executor, each with the clock
    reading it sees and its text, made in order.  The log keeps, for every
    invocation, the reading, what the tool answered, and whether a text was
    handed to the engine. *)
Fixpoint run_queries (calls : list (Z * string)) (executor : SecureSQLExecutor)
  : list (Z * py_result string * bool) * SecureSQLExecutor :=
  match calls with
  | [] => ([], executor)
  | (current_time, query) :: calls =>
      let '(r, executor') := run_query current_time query executor in
      let handed := negb (length (executed executor') =? length (executed executor))%nat in
      let '(log, executor'') := run_queries calls executor' in
      ((current_time, r, handed) :: log, executor'')
  end.

(** The readings of the invocations that reached the engine. *)
Definition engine_times (log : list (Z * py_result string * bool)) : list Z :=
  map (fun entry => entry.1.1) (filter (fun entry => entry.2 = true) log).

End ToolCalls.

(* ===================================================================== *)
(** * Chat history and streaming *)
(* ===================================================================== *)

(** A row of the table [messages], as far as the history uses it. *)
Record Message := mk_Message { role : string; content : string }.

(** The query of [load_chat_history]: the messages of a session, newest
    first, at most [limit] of them. *)
Class ChatStore := {
  select_messages : Z -> Z -> py_result (list Message)
}.

(** The lines made of the messages, in the order given. *)
Fixpoint history_parts (db_messages : list Message) : list string :=
  match db_messages with
  | [] => []
  | msg :: rest =>
      if String.eqb (role msg) "user"
      then ("Human: " +:+ content msg) :: history_parts rest
      else if String.eqb (role msg) "ai"
      then ("Assistant: " +:+ content msg) :: history_parts rest
      else history_parts rest
  end.

(** [load_chat_history] *)
Definition load_chat_history `{ChatStore} (session_id limit : Z) : py_result string :=
  db_messages ← select_messages session_id limit;
  let db_messages := rev db_messages in
  let parts := history_parts db_messages in
  Returns (match parts with
           | [] => "No previous conversation."
           | _ => join nl parts
           end).

(** The filter of [stream_agent_response] that takes the current message
    out of the history. *)
Definition filter_history (user_message chat_history : string) : string :=
  if contains user_message chat_history then
    let history_lines := split nl chat_history in
    let history_lines :=
      List.filter
        (fun line => negb (contains user_message line) || contains "Assistant:" line)
        history_lines in
    join nl history_lines
  else chat_history.

(** [s.split()] without argument: the maximal runs of non-blank
    characters.  [cur] holds the characters of the current run,
    reversed. *)
Fixpoint words_go (cur : list string) (cs : list string) : list string :=
  match cs with
  | [] =>
      match cur with
      | [] => []
      | _ => [text_of (rev cur)]
      end
  | x :: cs' =>
      if isspace x then
        match cur with
        | [] => words_go [] cs'
        | _ => text_of (rev cur) :: words_go [] cs'
        end
      else words_go (x :: cur) cs'
  end.

Definition words (s : string) : list string := words_go [] (chars s).

(** [range(0, stop, step)] for a positive [step]. *)
Definition range_step (stop step : nat) : list nat :=
  map (fun k => (k * step)%nat) (seq 0 ((stop + step - 1) / step)).

(** [l[i:j]] for [0 <= i <= j]. *)
Definition slice {A} (i j : nat) (l : list A) : list A := take (j - i) (drop i l).

Definition chunk_size : nat := 10.

(** The loop over [range(0, len(words), chunk_size)]. *)
Definition chunks_of (words : list string) : list string :=
  map (fun i =>
         let chunk := join " " (slice i (i + chunk_size) words) in
         if (i + chunk_size <? length words)%nat then chunk +:+ " " else chunk)
      (range_step (length words) chunk_size).

(** The chunks yielded by [stream_agent_response] for the answer
    [output]. *)
Definition stream_chunks (output : string) : list string :=
  let words := words output in
  chunks_of words.

(** What [chat_stream] makes of the chunks: [full_reply]. *)
Definition full_reply (chunks : list string) : string :=
  fold_left (fun reply chunk => reply +:+ chunk) chunks EmptyString.

Section Streaming.
Context {World : Type} `{ChatStore}.

(** [stream_agent_response], [create_agent] being the outcome of
    [create_agent()]: the model and its tools, or an exception.  The
    result is the list of the chunks yielded. *)
Definition stream_agent_response
    (create_agent :
       py_result ((AgentInput -> World -> py_result string * World) * list (Tool World)))
    (session_id : Z) (user_message : string) (w : World) : list string * World :=
  let body : py_result (list string) * World :=
    match create_agent with
    | Raises e => (Raises e, w)
    | Returns (agent, tools) =>
        match load_chat_history session_id 10 with
        | Raises e => (Raises e, w)
        | Returns chat_history =>
            let chat_history := filter_history user_message chat_history in
            let episode := run_episode agent tools user_message chat_history 5 w in
            (Returns (stream_chunks (answer episode)), last_world episode)
        end
    end in
  match body with
  | (Returns chunks, w) => (chunks, w)
  | (Raises e, w) => (["I apologize, but I encountered an error: " +:+ exn_str e], w)
  end.

(** [stream_chat_response]: [yield from stream_agent_response(...)]. *)
Definition stream_chat_response
    (create_agent :
       py_result ((AgentInput -> World -> py_result string * World) * list (Tool World)))
    (session_id : Z) (user_message : string) (w : World) : list string * World :=
  stream_agent_response create_agent session_id user_message w.

End Streaming.

(* ===================================================================== *)
(** * Session title *)
(* ===================================================================== *)

(** [s[:n]]: the first [n] code points of [s]. *)
Fixpoint take_code_points (n : nat) (s : string) : string :=
  match s with
  | EmptyString => EmptyString
  | String c s' =>
      if is_continuation c then String c (take_code_points n s')
      else match n with
           | O => EmptyString
           | S k => String c (take_code_points k s')
           end
  end.

(** The title [chat_stream] gives a new session. *)
Definition session_title (user_message : string) : string :=
  if len user_message >? 50
  then take_code_points 50 user_message +:+ "..."
  else user_message.

(* ===================================================================== *)
(** * More stand-ins for the examples *)
(* ===================================================================== *)

Module MoreExamples.

(** A reflection that knows two tables, and one that fails. *)
#[local] Instance two_tables : SchemaReflection := {|
  db_get_table_info := Returns "CREATE TABLE users (id INTEGER)";
  db_get_usable_table_names := Returns ["users"; "orders"]
|}.

#[local] Instance no_reflection : SchemaReflection := {|
  db_get_table_info := Raises (mk_exn SQLAlchemyError "connection refused");
  db_get_usable_table_names := Raises (mk_exn SQLAlchemyError "connection refused")
|}.

(** A session with three stored messages, newest first. *)
#[local] Instance small_store : ChatStore := {|
  select_messages := fun _ limit =>
    Returns (take (Z.to_nat limit)
               [ mk_Message "ai" "42 rows.";
                 mk_Message "system" "ignored";
                 mk_Message "user" "How many rows?" ])
|}.

End MoreExamples.

(* ===================================================================== *)
(** * The primitives on examples *)
(* ===================================================================== *)

Section PrimitiveExamples.
#[local] Existing Instance Examples.sample_tables.

Example upper_ex : upper "Select * from T_1;" = "SELECT * FROM T_1;".
Proof. by vm_compute. Qed.
Example split_ex1 : split "Action:" "Thought: x
Action: foo
Action Input: bar" = ["Thought: x
"; " foo
Action Input: bar"].
Proof. reflexivity. Qed.
Example split_ex2 : split "ab" "abxababy" = [""; "x"; ""; "y"].
Proof. reflexivity. Qed.
Example search_ex1 : re_search_word "DROP" "SELECT DROP, x" = true.
Proof. by vm_compute. Qed.
Example search_ex2 : re_search_word "DROP" "SELECT DROPS, x" = false.
Proof. by vm_compute. Qed.
Example search_ex3 : re_search_word "DROP" "SELECT 'DROP'" = true.
Proof. by vm_compute. Qed.
Example search_ex4 : re_search_word "DROP" "SELECT A_DROP" = false.
Proof. by vm_compute. Qed.
Example findall_ex : re_findall_word_count "FROM" "FROM A JOIN (SELECT 1 FROM B) FROMAGE FROM" = 3.
Proof. by vm_compute. Qed.
Example rstrip_ex : rstrip_char ";" "SELECT 1;;" = "SELECT 1".
Proof. reflexivity. Qed.
Example strip_ex : strip "  a b
 " = "a b".
Proof. by vm_compute. Qed.
Example str_ex : str_of_int 100 = "100" /\ str_of_int (-5) = "-5" /\ str_of_int 0 = "0".
Proof. repeat split; reflexivity. Qed.
Example split_ex3 : split "aa" "aaa" = [EmptyString; "a"] /\ split "x" EmptyString = [EmptyString].
Proof. split; reflexivity. Qed.
Example len_ex : len "✓ Q" = 3 /\ len "SELECT 1" = 8.
Proof. split; reflexivity. Qed.
Example dict_ex : dict_of [("a", 1); ("b", 2); ("a", 3)] = [("a", 3); ("b", 2)].
Proof. reflexivity. Qed.
Example join_ex : join ", " ["query_database"; "get_database_schema"]
                  = "query_database, get_database_schema" /\ join ", " [] = EmptyString.
Proof. split; reflexivity. Qed.
Example count_tables_ex :
  _count_tables "select u.name from users u left join messages m on u.id = m.user_id" = 2.
Proof. by vm_compute. Qed.

(** Characters are code points, whatever the number of their bytes. *)
Example chars_ex :
  chars "né ✓" = ["n"; "é"; " "; "✓"] /\
  map code_point (chars "né ✓") = [0x6E; 0xE9; 0x20; 0x2713]%N /\
  text_of (map utf8 [0x6E; 0xE9; 0x20; 0x2713]%N) = "né ✓".
Proof. repeat split; by vm_compute. Qed.

(** Upper-casing is not confined to ASCII: the dotless i becomes [I], the
    long s becomes [S], a ligature becomes two letters, and the iota
    subscript, which is no word character, becomes a letter. *)
Example upper_beyond_ascii :
  upper "lımıt" = "LIMIT" /\ upper "ınſert" = "INSERT" /\ upper "ﬁx" = "FIX" /\
  is_word "ͅ" = false /\ is_word (upper "ͅ") = true.
Proof. repeat split; by vm_compute. Qed.

(** Blanks are not confined to ASCII either: the no-break blank (U+00A0),
    the em blank (U+2003) and the ideographic blank (U+3000) are dropped by
    [strip] and separate words. *)
Example blanks_beyond_ascii :
  map isspace (map utf8 [0xA0; 0x2003; 0x3000; 0x200B]%N) = [true; true; true; false] /\
  strip (utf8 0xA0 +:+ "done" +:+ utf8 0x3000) = "done" /\
  strip ("  a" +:+ utf8 0x2003 +:+ "b" +:+ nl) = "a" +:+ utf8 0x2003 +:+ "b".
Proof. repeat split; by vm_compute. Qed.

(** A letter beyond ASCII is a word character: [drop] right after [é] is
    not a whole word. *)
Example search_beyond_ascii :
  re_search_word "DROP" (upper "SELECT 'édrop'") = false /\
  re_search_word "DROP" (upper "SELECT 'é drop'") = true /\
  re_search_word "INSERT" (upper "SELECT ınsert FROM t") = true.
Proof. repeat split; by vm_compute. Qed.

End PrimitiveExamples.

(* ===================================================================== *)
(** * Facts about the string primitives *)
(* ===================================================================== *)

#[local] Arguments String.append !_ _ : simpl nomatch.

Section StringFacts.
Implicit Types (s p kw : string) (c : ascii).

Lemma app_empty_r s : s +:+ EmptyString = s.
Proof. induction s; simpl; congruence. Qed.

Lemma app_assoc_str s1 s2 s3 : (s1 +:+ s2) +:+ s3 = s1 +:+ s2 +:+ s3.
Proof. induction s1; simpl; congruence. Qed.

Lemma startswith_app p s : startswith p (p +:+ s) = true.
Proof. induction p as [|a p IH]; simpl; [done|]. by rewrite Ascii.eqb_refl. Qed.

Lemma startswith_inv p : forall s, startswith p s = true -> exists rest, s = p +:+ rest.
Proof.
  induction p as [|a p IH]; intros s Hs; simpl in *.
  - by exists s.
  - destruct s as [|b s]; [done|].
    apply andb_true_iff in Hs as [Hab Hs]. apply Ascii.eqb_eq in Hab as ->.
    destruct (IH _ Hs) as [rest ->]. by exists rest.
Qed.

Lemma contains_startswith sub s : startswith sub s = true -> contains sub s = true.
Proof. intros Hs. destruct s; simpl; rewrite Hs; done. Qed.

(** [contains] is the substring test. *)
Lemma contains_occurs sub s : contains sub s = true <-> occurs sub s.
Proof.
  split.
  - induction s as [|c s IH]; simpl; intros Hc.
    + rewrite orb_false_r in Hc. destruct (startswith_inv _ _ Hc) as [rest Hrest].
      exists EmptyString, rest. done.
    + apply orb_true_iff in Hc as [Hc|Hc].
      * destruct (startswith_inv _ _ Hc) as [rest Hrest]. exists EmptyString, rest. done.
      * destruct (IH Hc) as (pre & post & ->). exists (String c pre), post. done.
  - intros (pre & post & ->). induction pre as [|c pre IH]; simpl.
    + apply contains_startswith, startswith_app.
    + rewrite IH. apply orb_true_r.
Qed.

Lemma contains_app_r sub s : contains sub (s +:+ sub) = true.
Proof.
  apply contains_occurs. exists s, EmptyString. by rewrite app_empty_r.
Qed.

Lemma length_app_str s1 s2 :
  String.length (s1 +:+ s2) = (String.length s1 + String.length s2)%nat.
Proof. induction s1; simpl; congruence. Qed.

End StringFacts.

(** ** Characters of a text *)

Section CharFacts.
Implicit Types (s : string) (c : ascii) (cs : list string).

Lemma text_of_app cs1 cs2 : text_of (cs1 ++ cs2) = text_of cs1 +:+ text_of cs2.
Proof. induction cs1 as [|x cs1 IH]; simpl; [done|]. by rewrite IH, app_assoc_str. Qed.

Lemma chars_cons c s :
  chars (String c s) =
  match chars s with
  | x :: rest =>
      if starts_with_continuation s then String c x :: rest
      else String c EmptyString :: x :: rest
  | [] => [String c EmptyString]
  end.
Proof. done. Qed.

Lemma chars_cons_nonempty c s : chars (String c s) <> [].
Proof.
  rewrite chars_cons. destruct (chars s); [done|].
  by destruct (starts_with_continuation s).
Qed.

(** Cutting a text into its characters loses nothing. *)
Lemma text_of_chars s : text_of (chars s) = s.
Proof.
  induction s as [|c s IH]; [done|]. rewrite chars_cons.
  destruct (chars s) as [|x rest]; simpl in *.
  - by rewrite <- IH.
  - destruct (starts_with_continuation s); simpl; by rewrite IH.
Qed.

(** The characters of two texts put together, when the second starts with
    a character of its own. *)
Lemma chars_app s1 s2 :
  starts_with_continuation s2 = false -> chars (s1 +:+ s2) = chars s1 ++ chars s2.
Proof.
  intros Hs2. induction s1 as [|c s1 IH]; [done|].
  change (String c s1 +:+ s2) with (String c (s1 +:+ s2)).
  rewrite !chars_cons, IH.
  destruct s1 as [|d s1].
  - simpl. rewrite Hs2. by destruct (chars s2).
  - change (String d s1 +:+ s2) with (String d (s1 +:+ s2)).
    pose proof (chars_cons_nonempty d s1) as Hne.
    destruct (chars (String d s1)) as [|x rest]; [done|].
    cbn [starts_with_continuation app]. by destruct (is_continuation d).
Qed.

End CharFacts.

(** Cuts a text given in full into its characters. *)
Ltac cut_into_chars :=
  repeat match goal with
         | |- context [chars ?s] =>
             let cs := eval vm_compute in (chars s) in progress change (chars s) with cs
         end.

Section UpperFacts.
Context `{UnicodeData}.
Implicit Types (s : string) (c : ascii).

Lemma upper_app s1 s2 :
  starts_with_continuation s2 = false -> upper (s1 +:+ s2) = upper s1 +:+ upper s2.
Proof.
  intros Hs2. unfold upper. by rewrite chars_app, map_app, text_of_app.
Qed.

Lemma code_point_ascii c :
  (N_of_ascii c < 128)%N -> code_point (String c EmptyString) = N_of_ascii c.
Proof.
  intros Hc. unfold code_point, lead_payload. cbn [continue_payload].
  apply N.ltb_lt in Hc. by rewrite Hc.
Qed.

Lemma toupper_ascii (n : N) : (n < 128)%N -> toupper n = [ascii_toupper n].
Proof. intros Hn. unfold toupper. apply N.ltb_lt in Hn. by rewrite Hn. Qed.

Lemma isalnum_ascii (n : N) : (n < 128)%N -> isalnum n = ascii_isalnum n.
Proof. intros Hn. unfold isalnum. apply N.ltb_lt in Hn. by rewrite Hn. Qed.

(** On an ASCII character the two tables are the ASCII ones. *)
Lemma upper_char_ascii c :
  (N_of_ascii c < 128)%N ->
  upper_char (String c EmptyString) = utf8 (ascii_toupper (N_of_ascii c)).
Proof.
  intros Hc. unfold upper_char. rewrite (code_point_ascii c Hc), (toupper_ascii _ Hc).
  simpl. apply app_empty_r.
Qed.

Lemma is_word_ascii c :
  (N_of_ascii c < 128)%N ->
  is_word (String c EmptyString)
  = ascii_isalnum (N_of_ascii c) || (N_of_ascii c =? 95)%N.
Proof.
  intros Hc. unfold is_word. by rewrite (code_point_ascii c Hc), (isalnum_ascii _ Hc).
Qed.

(** The clause that [execute_query] appends reads the same in upper
    case. *)
Lemma upper_limit_clause : upper " LIMIT" = " LIMIT".
Proof.
  unfold upper. cut_into_chars. cbn [map text_of].
  rewrite !upper_char_ascii by done. done.
Qed.

End UpperFacts.

(** ** The word-bounded search finds whole words *)

Section WordSearch.
Context `{UnicodeData}.
Implicit Types (s : string) (x : string) (kw cs : list string) (prev : option string).

Lemma last_or_cons prev x cs : last_or prev (x :: cs) = last_or (Some x) cs.
Proof.
  unfold last_or. rewrite last_cons. by destruct (last cs).
Qed.

Lemma starts_with_chars_app kw cs : starts_with_chars kw (kw ++ cs) = true.
Proof. induction kw as [|a kw IH]; simpl; [done|]. by rewrite String.eqb_refl. Qed.

Lemma starts_with_chars_inv kw : forall cs,
  starts_with_chars kw cs = true -> exists rest, cs = kw ++ rest.
Proof.
  induction kw as [|a kw IH]; intros cs Hs; simpl in *.
  - by exists cs.
  - destruct cs as [|b cs]; [done|].
    apply andb_true_iff in Hs as [Hab Hs]. apply String.eqb_eq in Hab as ->.
    destruct (IH _ Hs) as [rest ->]. by exists rest.
Qed.

Lemma search_from_spec kw : forall cs prev,
  search_from kw prev cs = true <->
  exists c1 c2, cs = c1 ++ c2 /\ word_match_here kw (last_or prev c1) c2 = true.
Proof.
  induction cs as [|x cs IH]; intros prev; simpl.
  - rewrite orb_false_r. split.
    + intros Hm. exists [], []. done.
    + intros (c1 & c2 & Hs & Hm). symmetry in Hs. apply app_eq_nil in Hs as [-> ->].
      exact Hm.
  - rewrite orb_true_iff, IH. split.
    + intros [Hm|(c1 & c2 & -> & Hm)].
      * exists [], (x :: cs). done.
      * exists (x :: c1), c2. by rewrite last_or_cons.
    + intros (c1 & c2 & Hs & Hm). destruct c1 as [|x1 c1].
      * simpl in Hs. subst c2. by left.
      * simpl in Hs. injection Hs as -> ->. right. exists c1, c2.
        by rewrite last_or_cons in Hm.
Qed.

Lemma after_match_app kw : forall prev post,
  after_match kw prev (kw ++ post) = (last_or prev kw, post).
Proof.
  induction kw as [|x kw IH]; intros prev post; simpl; [done|].
  by rewrite IH, last_or_cons.
Qed.

Lemma word_match_here_spec kw prev cs :
  is_word_opt (head kw) = true -> is_word_opt (last kw) = true ->
  word_match_here kw prev cs = true <->
  exists post, cs = kw ++ post /\
    is_word_opt prev = false /\ is_word_opt (head post) = false.
Proof.
  intros Hhead Hlast. unfold word_match_here.
  assert (Hlo : forall q, is_word_opt (last_or q kw) = true).
  { intros q. unfold last_or. destruct (last kw); [done|discriminate]. }
  assert (Hhd : forall post, head (kw ++ post) = head kw).
  { intros post. destruct kw; [discriminate|done]. }
  split.
  - intros Hm. apply andb_true_iff in Hm as [Hm Hend].
    apply andb_true_iff in Hm as [Hstart Hsw].
    destruct (starts_with_chars_inv _ _ Hsw) as [post ->]. exists post.
    rewrite after_match_app in Hend. rewrite Hhd in Hstart.
    unfold boundary in *. rewrite Hhead in Hstart. rewrite Hlo in Hend.
    split; [done|]. split.
    + by destruct (is_word_opt prev).
    + by destruct (is_word_opt (head post)).
  - intros (post & -> & Hp & Hn).
    rewrite after_match_app, starts_with_chars_app, Hhd. unfold boundary.
    by rewrite Hhead, Hp, Hlo, Hn.
Qed.

(** The pattern is found in a text exactly when the text contains the
    keyword as a whole word. *)
Lemma re_search_word_spec (kw text : string) :
  word_delimited kw ->
  re_search_word kw text = true <-> occurs_as_word kw text.
Proof.
  intros [Hhead Hlast]. unfold re_search_word, occurs_as_word.
  rewrite search_from_spec. split.
  - intros (c1 & c2 & Hs & Hm).
    apply (word_match_here_spec _ _ _ Hhead Hlast) in Hm as (post & -> & Hp & Hn).
    exists c1, post. split; [done|]. split; [|done].
    unfold last_or in Hp. by destruct (last c1).
  - intros (pre & post & Hs & Hp & Hn).
    exists pre, (chars kw ++ post). split; [done|].
    apply (word_match_here_spec _ _ _ Hhead Hlast). exists post.
    split; [done|]. split; [|done].
    unfold last_or. by destruct (last pre).
Qed.

Lemma blocked_keywords_word_delimited (kw : string) :
  In kw BLOCKED_KEYWORDS -> word_delimited kw.
Proof.
  unfold BLOCKED_KEYWORDS. simpl.
  intros Hin.
  repeat (destruct Hin as [<-|Hin];
          [split; cut_into_chars; cbn [head last is_word_opt];
           rewrite is_word_ascii by done; done|]).
  done.
Qed.

End WordSearch.

(** ** Keywords in any letter case *)

Section AnyCase.
Context `{UnicodeData}.
Implicit Types (s kw text : string) (c : ascii) (cs : list string).

Lemma lead_byte_starts_character (k : N) :
  (k < 128 \/ 192 <= k < 256)%N -> is_continuation (ascii_of_N k) = false.
Proof.
  intros Hk. unfold is_continuation, in_range, code, nat_of_ascii.
  rewrite N_ascii_embedding by lia. apply andb_false_iff.
  destruct Hk as [Hk|Hk]; [left|right]; apply Nat.leb_gt; lia.
Qed.

Lemma ascii_byte_starts_character c :
  (N_of_ascii c < 128)%N -> is_continuation c = false.
Proof.
  intros Hc. unfold is_continuation, in_range, code, nat_of_ascii.
  apply andb_false_iff. left. apply Nat.leb_gt. lia.
Qed.

(** The encoding of a code point starts a character. *)
Lemma utf8_starts_character (n : N) : starts_with_continuation (utf8 n) = false.
Proof.
  unfold utf8.
  destruct (N.ltb_spec n 128) as [H1|H1];
    [|destruct (N.ltb_spec n 2048) as [H2|H2];
      [|destruct (N.ltb_spec n 65536) as [H3|H3]]];
    cbn [starts_with_continuation]; apply lead_byte_starts_character.
  - by left.
  - right. assert (n / 64 < 32)%N as Hq by (apply N.Div0.div_lt_upper_bound; lia).
    revert Hq. generalize (n / 64)%N. intros q Hq. lia.
  - right. assert (n / 4096 < 16)%N as Hq by (apply N.Div0.div_lt_upper_bound; lia).
    revert Hq. generalize (n / 4096)%N. intros q Hq. lia.
  - right. assert ((n / 262144) mod 8 < 8)%N as Hq by (by apply N.mod_lt).
    revert Hq. generalize ((n / 262144) mod 8)%N. intros q Hq. lia.
Qed.

Lemma utf8_nonempty (n : N) : utf8 n <> EmptyString.
Proof.
  unfold utf8. destruct (n <? 128)%N; [done|]. destruct (n <? 2048)%N; [done|].
  by destruct (n <? 65536)%N.
Qed.

Lemma starts_with_continuation_app s1 s2 :
  s1 <> EmptyString ->
  starts_with_continuation (s1 +:+ s2) = starts_with_continuation s1.
Proof. by destruct s1. Qed.

Lemma code_points_start_character (l : list N) :
  starts_with_continuation (text_of (map utf8 l)) = false.
Proof.
  destruct l as [|n l]; [done|]. cbn [map text_of].
  rewrite starts_with_continuation_app by apply utf8_nonempty.
  apply utf8_starts_character.
Qed.

Lemma upper_chars_start_character cs :
  starts_with_continuation (text_of (map upper_char cs)) = false.
Proof.
  induction cs as [|x cs IH]; [done|]. cbn [map text_of].
  destruct (upper_char x) as [|b r] eqn:Hx; [exact IH|].
  rewrite starts_with_continuation_app by done. rewrite <- Hx.
  apply code_points_start_character.
Qed.

(** An upper-cased text starts with a character of its own. *)
Lemma upper_starts_character s : starts_with_continuation (upper s) = false.
Proof. apply upper_chars_start_character. Qed.

Lemma ascii_separator_keeps_case (n : N) :
  ascii_isalnum n = false -> ascii_toupper n = n.
Proof.
  unfold ascii_isalnum, ascii_toupper. intros Hn.
  apply orb_false_iff in Hn as [_ Hn]. by rewrite Hn.
Qed.

(** The upper-case form of an ASCII separator is the separator itself. *)
Lemma upper_char_separator c :
  (N_of_ascii c < 128)%N -> ascii_isalnum (N_of_ascii c) = false ->
  upper_char (String c EmptyString) = String c EmptyString.
Proof.
  intros Hc Hn. rewrite (upper_char_ascii c Hc), (ascii_separator_keeps_case _ Hn).
  unfold utf8. apply N.ltb_lt in Hc. rewrite Hc. by rewrite ascii_N_embedding.
Qed.

Lemma is_word_separator c :
  (N_of_ascii c < 128)%N -> ascii_isalnum (N_of_ascii c) = false ->
  N_of_ascii c <> 95%N -> is_word (String c EmptyString) = false.
Proof.
  intros Hc Hn Hu. rewrite (is_word_ascii c Hc), Hn. by apply N.eqb_neq.
Qed.

Lemma separator_after post :
  ascii_separator (head (chars post)) ->
  starts_with_continuation post = false /\
  is_word_opt (head (chars (upper post))) = false.
Proof.
  intros Hsep. unfold upper.
  pose proof (text_of_chars post) as Hpost.
  destruct (chars post) as [|x rest]; cbn [head] in Hsep.
  - by rewrite <- Hpost.
  - destruct Hsep as (c & -> & Hc & Hn & Hu). rewrite <- Hpost. split.
    + cbn [text_of]. by apply ascii_byte_starts_character.
    + cbn [map text_of]. rewrite (upper_char_separator c Hc Hn).
      rewrite chars_app by apply upper_chars_start_character.
      cbn [chars app head is_word_opt]. by apply is_word_separator.
Qed.

Lemma separator_before pre :
  ascii_separator (last (chars pre)) ->
  is_word_opt (last (chars (upper pre))) = false.
Proof.
  intros Hsep. unfold upper.
  destruct (last (chars pre)) as [x|] eqn:Hlast.
  - destruct Hsep as (c & -> & Hc & Hn & Hu).
    apply last_Some in Hlast as [init ->].
    rewrite map_app, text_of_app. cbn [map text_of].
    rewrite (upper_char_separator c Hc Hn), app_empty_r.
    rewrite chars_app by (by apply ascii_byte_starts_character).
    cbn [chars]. rewrite last_snoc. cbn [is_word_opt]. by apply is_word_separator.
  - apply last_None in Hlast. by rewrite Hlast.
Qed.

(** A keyword that stands in a text in some letter case, between ASCII
    separators or ends of the text, is a whole word of the upper-cased
    text. *)
Lemma any_case_is_found kw text :
  kw <> EmptyString -> starts_with_continuation kw = false ->
  occurs_in_any_case kw text -> occurs_as_word kw (upper text).
Proof.
  intros Hne Hkw (pre & w & post & -> & Hw & Hup & Hpre & Hpost).
  destruct (separator_after post Hpost) as [Hsp Hhead].
  assert (Hwne : w <> EmptyString) by (intros ->; by subst kw).
  rewrite (upper_app pre), (upper_app w), Hup;
    [|done|by rewrite starts_with_continuation_app].
  exists (chars (upper pre)), (chars (upper post)).
  rewrite !chars_app;
    [|apply upper_starts_character|by rewrite starts_with_continuation_app].
  split; [done|]. split; [by apply separator_before|done].
Qed.

End AnyCase.

(* ===================================================================== *)
(** * Rate limiter *)
(* ===================================================================== *)

Section RateLimiterFacts.
Implicit Types (rl : RateLimiter) (u : string) (t : Z).

Lemma requests_of_set_eq rl u l : requests_of (set_requests rl u l) u = l.
Proof. unfold requests_of, set_requests; simpl. by rewrite lookup_insert_eq. Qed.

Lemma requests_of_set_ne rl u u' l :
  u <> u' -> requests_of (set_requests rl u l) u' = requests_of rl u'.
Proof. intros Hne. unfold requests_of, set_requests; simpl. by rewrite lookup_insert_ne. Qed.

Lemma requests_of_new N W u : requests_of (new_RateLimiter N W) u = [].
Proof. unfold requests_of, new_RateLimiter; simpl. by rewrite lookup_empty. Qed.

(** One call, read off the code: the decision, the new window of the
    caller, and the settings and the other windows left alone. *)
Lemma allow_request_spec t u rl :
  let kept := clean_old t (time_window rl) (requests_of rl u) in
  let allowed := bool_decide (Z.of_nat (length kept) < max_requests rl) in
  (allow_request t u rl).1 = allowed /\
  requests_of (allow_request t u rl).2 u = (if allowed then kept ++ [t] else kept) /\
  (forall u', u <> u' -> requests_of (allow_request t u rl).2 u' = requests_of rl u') /\
  max_requests (allow_request t u rl).2 = max_requests rl /\
  time_window (allow_request t u rl).2 = time_window rl.
Proof.
  intros kept allowed. unfold allow_request. fold kept.
  rewrite requests_of_set_eq.
  subst allowed. case_bool_decide as Hlt.
  - destruct (Z.geb_spec (Z.of_nat (length kept)) (max_requests (set_requests rl u kept)))
      as [Hge|_]; [simpl in Hge; lia|].
    simpl. rewrite requests_of_set_eq. repeat split; auto.
    intros u' Hne. by rewrite !requests_of_set_ne.
  - destruct (Z.geb_spec (Z.of_nat (length kept)) (max_requests (set_requests rl u kept)))
      as [_|Hlt']; [|simpl in Hlt'; lia].
    simpl. rewrite requests_of_set_eq. repeat split; auto.
    intros u' Hne. by rewrite !requests_of_set_ne.
Qed.

End RateLimiterFacts.

Section Windows.
Implicit Types (rl : RateLimiter) (u : string) (t : Z).

Lemma filter_length_mono {A} (P Q : A -> Prop)
    `{!forall x, Decision (P x)} `{!forall x, Decision (Q x)} (l : list A) :
  (forall x, P x -> Q x) -> (length (filter P l) <= length (filter Q l))%nat.
Proof.
  intros HPQ. induction l as [|x l IH]; [done|].
  rewrite !filter_cons.
  destruct (decide (P x)) as [HP|HP]; destruct (decide (Q x)) as [HQ|HQ]; simpl; try lia.
  exfalso. auto.
Qed.

(** Cleaning at a later reading absorbs an earlier cleaning. *)
Lemma clean_old_later t0 t W (l : list Z) :
  t0 <= t -> clean_old t W (clean_old t0 W l) = clean_old t W l.
Proof.
  intros Hle. unfold clean_old. induction l as [|x l IH]; [done|].
  rewrite !filter_cons.
  destruct (decide (t0 - x < W)) as [H0|H0]; destruct (decide (t - x < W)) as [H1|H1];
    rewrite ?filter_cons; try destruct (decide (t - x < W)); try lia; by rewrite ?IH.
Qed.

Lemma clean_old_app t W (l1 l2 : list Z) :
  clean_old t W (l1 ++ l2) = clean_old t W l1 ++ clean_old t W l2.
Proof. unfold clean_old. by rewrite filter_app. Qed.

Lemma admitted_times_cons_same u t (b : bool) log :
  admitted_times u ((t, u, b) :: log) = (if b then [t] else []) ++ admitted_times u log.
Proof.
  unfold admitted_times, calls_of. rewrite filter_cons. simpl.
  destruct (decide (u = u)) as [_|Hne]; [|done].
  rewrite filter_cons. simpl. destruct b; simpl.
  - destruct (decide (true = true)); done.
  - destruct (decide (false = true)); done.
Qed.

Lemma admitted_times_cons_other u u' t (b : bool) log :
  u' <> u -> admitted_times u ((t, u', b) :: log) = admitted_times u log.
Proof.
  intros Hne. unfold admitted_times, calls_of. rewrite filter_cons. simpl.
  destruct (decide (u' = u)); done.
Qed.

Lemma serve_cons t u calls rl :
  serve ((t, u) :: calls) rl =
  ((t, u, (allow_request t u rl).1) :: (serve calls (allow_request t u rl).2).1,
   (serve calls (allow_request t u rl).2).2).
Proof.
  simpl. destruct (allow_request t u rl) as [b rl1]. simpl.
  by destruct (serve calls rl1).
Qed.

Lemma window_inv_step rl u A T t0 u0 :
  T <= t0 ->
  window_inv rl u A T ->
  window_inv (allow_request t0 u0 rl).2 u
    (A ++ admitted_times u [(t0, u0, (allow_request t0 u0 rl).1)]) t0.
Proof.
  intros HT [Hclean Hbound].
  destruct (allow_request_spec t0 u0 rl) as (Hdec & Hsame & Hother & HN & HW).
  destruct (decide (u0 = u)) as [->|Hne].
  - rewrite admitted_times_cons_same. unfold window_inv. rewrite HN, HW, Hsame, Hdec.
    assert (Hkept : clean_old t0 (time_window rl) (requests_of rl u)
                    = clean_old t0 (time_window rl) A) by (by apply Hclean).
    case_bool_decide as Hlt; simpl; rewrite ?app_nil_r.
    + split.
      * intros t Ht. rewrite !clean_old_app. f_equal.
        rewrite clean_old_later by done. apply Hclean; lia.
      * intros t. unfold in_window. rewrite filter_app, length_app.
        rewrite filter_cons.
        destruct (decide (t - time_window rl < t0 /\ t0 <= t)) as [[Hin1 Hin2]|Hout]; simpl.
        -- rewrite Hkept in Hlt.
           pose proof (filter_length_mono
             (fun a => t - time_window rl < a /\ a <= t)
             (fun a => t0 - a < time_window rl) A) as Hmono.
           unfold clean_old in Hlt. specialize (Hmono ltac:(intros x [? ?]; lia)). lia.
        -- specialize (Hbound t). unfold in_window in Hbound. lia.
    + split; [|done].
      intros t Ht. rewrite clean_old_later by done. apply Hclean; lia.
  - rewrite admitted_times_cons_other by done. rewrite app_nil_r.
    unfold window_inv. rewrite HN, HW, Hother by done.
    split; [|done]. intros t Ht. apply Hclean. lia.
Qed.

Lemma admitted_times_app u log1 log2 :
  admitted_times u (log1 ++ log2) = admitted_times u log1 ++ admitted_times u log2.
Proof. unfold admitted_times, calls_of. by rewrite !filter_app, map_app. Qed.

Lemma serve_window_inv u calls : forall rl A T,
  StronglySorted Z.le (T :: calls.*1) ->
  window_inv rl u A T ->
  exists T', window_inv (serve calls rl).2 u (A ++ admitted_times u (serve calls rl).1) T'.
Proof.
  induction calls as [|[t0 u0] calls IH]; intros rl A T Hsorted Hinv.
  - simpl. rewrite app_nil_r. by exists T.
  - rewrite serve_cons. simpl.
    apply StronglySorted_inv in Hsorted as [Hsorted Hall].
    simpl in Hsorted, Hall. apply Forall_cons in Hall as [HT _].
    pose proof (window_inv_step rl u A T t0 u0 HT Hinv) as Hstep.
    destruct (IH _ _ _ Hsorted Hstep) as [T' HT'].
    exists T'. rewrite <- app_assoc in HT'.
    change ((t0, u0, (allow_request t0 u0 rl).1) :: (serve calls (allow_request t0 u0 rl).2).1)
      with ([(t0, u0, (allow_request t0 u0 rl).1)] ++ (serve calls (allow_request t0 u0 rl).2).1).
    by rewrite admitted_times_app.
Qed.

Lemma serve_limits calls : forall rl,
  max_requests (serve calls rl).2 = max_requests rl /\
  time_window (serve calls rl).2 = time_window rl.
Proof.
  induction calls as [|[t0 u0] calls IH]; intros rl; [done|].
  rewrite serve_cons. simpl.
  destruct (allow_request_spec t0 u0 rl) as (_ & _ & _ & HN & HW).
  destruct (IH (allow_request t0 u0 rl).2) as [HN' HW']. split; congruence.
Qed.

End Windows.

Section Independence.
Implicit Types (rl : RateLimiter) (u : string) (t : Z).

(** Two limiters with the same settings and the same window for [u] give
    the same answer to a call for [u] and stay so related. *)
Lemma allow_request_same_view rl1 rl2 u t :
  max_requests rl1 = max_requests rl2 ->
  time_window rl1 = time_window rl2 ->
  requests_of rl1 u = requests_of rl2 u ->
  (allow_request t u rl1).1 = (allow_request t u rl2).1 /\
  requests_of (allow_request t u rl1).2 u = requests_of (allow_request t u rl2).2 u.
Proof.
  intros HN HW Hreq.
  destruct (allow_request_spec t u rl1) as (Hd1 & Hs1 & _).
  destruct (allow_request_spec t u rl2) as (Hd2 & Hs2 & _).
  rewrite Hd1, Hd2, Hs1, Hs2, HN, HW, Hreq. done.
Qed.

Lemma serve_independent u calls : forall rl1 rl2,
  max_requests rl1 = max_requests rl2 ->
  time_window rl1 = time_window rl2 ->
  requests_of rl1 u = requests_of rl2 u ->
  calls_of u (serve calls rl1).1 = (serve (filter (fun c => c.2 = u) calls) rl2).1.
Proof.
  induction calls as [|[t0 u0] calls IH]; intros rl1 rl2 HN HW Hreq; [done|].
  rewrite serve_cons, filter_cons. simpl.
  destruct (allow_request_spec t0 u0 rl1) as (_ & _ & Hother & HN1 & HW1).
  unfold calls_of. rewrite filter_cons. simpl.
  destruct (decide (u0 = u)) as [->|Hne].
  - rewrite serve_cons. simpl.
    destruct (allow_request_spec t0 u rl2) as (_ & _ & _ & HN2 & HW2).
    destruct (allow_request_same_view rl1 rl2 u t0 HN HW Hreq) as [Hd Hr].
    rewrite Hd. f_equal. apply IH; congruence.
  - apply IH; [congruence..|]. by rewrite Hother.
Qed.

End Independence.

(** ** C4 *)

(** C4.  A limiter created with a limit [N >= 0] and a window [W] serves
    calls whose clock readings do not decrease.  For every identity [u]:
    any window of length [W] holds at most [N] admitted calls of [u]; the
    answers given to [u] are those [u] would get if no other identity
    called; and a call for [u] at reading [t] first drops from the window
    of [u] every time [r] with [t - r >= W], admits when fewer than [N]
    times are left, appends [t] when it admits, appends nothing when it
    denies, and leaves the windows of the other identities as they are. *)
Theorem rate_limiter_rolling_window (N W : Z) (calls : list (Z * string)) (u : string) :
  0 <= N ->
  StronglySorted Z.le calls.*1 ->
  let log := (serve calls (new_RateLimiter N W)).1 in
  (forall t, Z.of_nat (length (in_window W t (admitted_times u log))) <= N) /\
  calls_of u log = (serve (filter (fun c => c.2 = u) calls) (new_RateLimiter N W)).1 /\
  (forall (rl : RateLimiter) (t : Z),
     let kept := clean_old t (time_window rl) (requests_of rl u) in
     let allowed := (allow_request t u rl).1 in
     (forall r, r ∈ kept <-> r ∈ requests_of rl u /\ t - time_window rl < r) /\
     allowed = bool_decide (Z.of_nat (length kept) < max_requests rl) /\
     requests_of (allow_request t u rl).2 u = (if allowed then kept ++ [t] else kept) /\
     (forall u', u <> u' -> requests_of (allow_request t u rl).2 u' = requests_of rl u')).
Proof.
  intros HN Hsorted log. split; [|split].
  - intros t.
    assert (Hinv : window_inv (new_RateLimiter N W) u [] (hd 0 calls.*1)).
    { split; simpl.
      - intros t' _. by rewrite requests_of_new.
      - intros t'. unfold in_window. simpl. lia. }
    assert (Hs : StronglySorted Z.le (hd 0 calls.*1 :: calls.*1)).
    { constructor; [done|].
      destruct calls as [|[t0 u0] calls']; simpl; [constructor|].
      simpl in Hsorted. apply StronglySorted_inv in Hsorted as [_ Hall].
      constructor; [lia|]. done. }
    destruct (serve_window_inv u calls _ _ _ Hs Hinv) as [T' [_ Hbound]].
    specialize (Hbound t). rewrite app_nil_l in Hbound.
    pose proof (serve_limits calls (new_RateLimiter N W)) as [HN' HW'].
    rewrite HN', HW' in Hbound. exact Hbound.
  - by apply serve_independent.
  - intros rl t kept allowed.
    destruct (allow_request_spec t u rl) as (Hd & Hs & Ho & _).
    subst allowed. rewrite Hd. split; [|split; [|split]]; auto.
    intros r. subst kept. unfold clean_old. rewrite list_elem_of_filter.
    split; intros [? ?]; split; (done || lia).
Qed.

(* ===================================================================== *)
(** * Query validator *)
(* ===================================================================== *)

Section StackedStatements.
Implicit Types (s body tail : string) (c : ascii).

Lemma rstrip_char_all c tail : consists_of c tail = true -> rstrip_char c tail = EmptyString.
Proof.
  induction tail as [|a tail IH]; simpl; [done|].
  intros Hall. apply andb_true_iff in Hall as [Ha Hall].
  by rewrite (IH Hall), Ha.
Qed.

Lemma rstrip_char_app_tail c body tail :
  consists_of c tail = true -> rstrip_char c (body +:+ tail) = rstrip_char c body.
Proof.
  intros Hall. induction body as [|a body IH]; simpl.
  - by apply rstrip_char_all.
  - by rewrite IH.
Qed.

Lemma rstrip_char_id c s :
  contains (String c EmptyString) s = false -> rstrip_char c s = s.
Proof.
  induction s as [|a s IH]; simpl; [done|].
  intros Hc. apply orb_false_iff in Hc as [Hac Hc].
  rewrite andb_true_r in Hac. rewrite (IH Hc).
  destruct s; [|done]. rewrite Ascii.eqb_sym. by rewrite Hac.
Qed.

Lemma rstrip_char_decomp c s :
  exists tail, s = rstrip_char c s +:+ tail /\ consists_of c tail = true.
Proof.
  induction s as [|a s (tail & Hs & Hall)]; simpl.
  - by exists EmptyString.
  - destruct (rstrip_char c s) as [|b r] eqn:Hr.
    + simpl in Hs. subst s. destruct (Ascii.eqb a c) eqn:Hac.
      * exists (String a tail). simpl. by rewrite Hac, Hall.
      * exists tail. done.
    + exists tail. simpl. split; [|done]. f_equal. exact Hs.
Qed.

(** The test of step 8 holds exactly when a terminator occurs before the
    trailing run of terminators. *)
Lemma stacked_test_spec s :
  contains ";" (rstrip_char ";" s) = false <-> terminator_only_at_end s.
Proof.
  split.
  - intros Hc. destruct (rstrip_char_decomp ";" s) as (tail & Hs & Hall).
    exists (rstrip_char ";" s), tail. split; [done|]. split; [|done].
    rewrite <- contains_occurs. by rewrite Hc.
  - intros (body & tail & -> & Hno & Hall).
    rewrite <- contains_occurs in Hno. apply not_true_is_false in Hno.
    rewrite rstrip_char_app_tail by done. by rewrite rstrip_char_id.
Qed.

End StackedStatements.


Lemma find_is_Some {A} (f : A -> bool) (l : list A) (x : A) :
  In x l -> f x = true -> is_Some (find f l).
Proof.
  induction l as [|a l IH]; simpl; [done|].
  intros [->|Hin] Hfx.
  - rewrite Hfx. by eexists.
  - destruct (f a); [by eexists|]. by apply IH.
Qed.

Section ValidatorFacts.
Context `{UnicodeData} `{SqlParse}.
Implicit Types (q : string) (v : SQLQueryValidator) (uid : option string).

(** Whatever the [try] block returns is a refusal. *)
Lemma parse_check_rejects q r : parse_check q = Some r -> exists reason, r = reject reason.
Proof.
  unfold parse_check. destruct (sqlparse_parse q) as [[|st rest]|e]; simpl.
  - intros [= <-]. by eexists.
  - destruct (get_type st) as [ty|e]; simpl.
    + destruct (negb (String.eqb ty "SELECT")); [|done]. intros [= <-]. by eexists.
    + intros [= <-]. by eexists.
  - intros [= <-]. by eexists.
Qed.

(** Control reaches step 6 exactly for a text that parses as a [SELECT]. *)
Lemma parse_check_None q : parse_check q = None <-> parses_as_select q.
Proof.
  unfold parse_check, parses_as_select. split.
  - destruct (sqlparse_parse q) as [[|st rest]|e]; simpl; [done| |done].
    destruct (get_type st) as [ty|e] eqn:Hty; simpl; [|done].
    destruct (String.eqb_spec ty "SELECT") as [->|Hne]; simpl; [|done].
    intros _. by exists st, rest.
  - intros (st & rest & -> & Hty). simpl. rewrite Hty. done.
Qed.


Lemma blocked_keyword_None q :
  blocked_keyword q = None <->
  (forall kw, In kw BLOCKED_KEYWORDS -> ~ occurs_as_word kw (upper q)).
Proof.
  unfold blocked_keyword. split.
  - intros Hf kw Hin Hocc.
    apply re_search_word_spec in Hocc; [|by apply blocked_keywords_word_delimited].
    pose proof (find_none _ _ Hf kw Hin) as Hno. simpl in Hno. congruence.
  - intros Hno. destruct (find _ _) as [k|] eqn:Hf; [|done].
    apply find_some in Hf as [Hin Hk].
    apply re_search_word_spec in Hk; [|by apply blocked_keywords_word_delimited].
    by destruct (Hno k Hin).
Qed.

End ValidatorFacts.

Section ValidatorTheorems.
Context `{UnicodeData} `{SqlParse}.
Implicit Types (q : string) (v : SQLQueryValidator) (uid : option string).

Lemma truthy_strip q : truthy (strip q) = true -> truthy q = true.
Proof. by destruct q. Qed.

(** Steps 2 to 5 passed: what [validate_text] does from step 6 on. *)
Lemma validate_text_from_scan q :
  len q <= MAX_QUERY_LENGTH -> truthy (strip q) = true -> parses_as_select q ->
  validate_text q =
  match blocked_keyword q with
  | Some keyword => reject ("Blocked keyword detected: " +:+ keyword)
  | None =>
      if contains "--" q || contains "/*" q || contains "*/" q then
        reject "SQL comments are not allowed."
      else if contains ";" (rstrip_char ";" q) then
        reject "Multiple SQL statements are not allowed."
      else if _count_tables q >? MAX_TABLES then
        reject ("Too many tables in query. Maximum is " +:+ str_of_int MAX_TABLES +:+ ".")
      else accept
  end.
Proof.
  intros Hlen Hstrip Hparse. unfold validate_text.
  destruct (Z.gtb_spec (len q) MAX_QUERY_LENGTH) as [Hgt|_]; [lia|].
  rewrite Hstrip, (truthy_strip _ Hstrip). simpl.
  apply parse_check_None in Hparse. by rewrite Hparse.
Qed.

(** A text with a blocked keyword never gets through [validate_text]. *)
Lemma validate_text_blocked q kw :
  In kw BLOCKED_KEYWORDS -> occurs_as_word kw (upper q) ->
  exists reason, validate_text q = reject reason.
Proof.
  intros Hin Hocc. unfold validate_text.
  destruct (len q >? MAX_QUERY_LENGTH); [by eexists|].
  destruct (negb (truthy q) || negb (truthy (strip q))); [by eexists|].
  destruct (parse_check q) as [r|] eqn:Hp; [by apply parse_check_rejects in Hp|].
  destruct (blocked_keyword q) as [k|] eqn:Hk; [by eexists|].
  exfalso. by apply (proj1 (blocked_keyword_None q) Hk kw).
Qed.


(** ** C2 *)


(** ** C3 *)

(** C3, as the code has it.  With no identity given, so that the limiter
    is not consulted, a text is accepted, and the validator left as it was,
    when it is within the maximum length, is not blank, parses as a
    [SELECT], has an upper-cased form that contains no blocked keyword as a
    whole word, contains no comment marker, has statement terminators only
    at its very end, and has an upper-cased form in which the words [FROM]
    and [JOIN] are counted at most [MAX_TABLES] times. *)
Theorem clean_select_accepted (now : Z) q uid v :
  truthy_id uid = None ->
  len q <= MAX_QUERY_LENGTH ->
  truthy (strip q) = true ->
  parses_as_select q ->
  (forall kw, In kw BLOCKED_KEYWORDS -> ~ occurs_as_word kw (upper q)) ->
  ~ occurs "--" q -> ~ occurs "/*" q -> ~ occurs "*/" q ->
  terminator_only_at_end q ->
  re_findall_word_count "FROM" (upper q) + re_findall_word_count "JOIN" (upper q)
    <= MAX_TABLES ->
  validate now q uid v = (accept, v).
Proof.
  intros Huid Hlen Hstrip Hparse Hkw Hc1 Hc2 Hc3 Hterm Hcount.
  unfold validate, rate_limited. rewrite Huid.
  rewrite (validate_text_from_scan q Hlen Hstrip Hparse).
  apply blocked_keyword_None in Hkw. rewrite Hkw.
  rewrite <- contains_occurs in Hc1, Hc2, Hc3.
  apply not_true_is_false in Hc1, Hc2, Hc3. rewrite Hc1, Hc2, Hc3. simpl.
  apply stacked_test_spec in Hterm. rewrite Hterm.
  destruct (Z.gtb_spec (_count_tables q) MAX_TABLES) as [Hgt|_]; [|done].
  unfold _count_tables in Hgt. lia.
Qed.

(** In particular a text that holds a blocked keyword in some letter
    case, between ASCII separators or ends of the text, is refused. *)
Lemma any_case_keyword_refused (now : Z) q uid v (kw : string) :
  In kw BLOCKED_KEYWORDS -> occurs_in_any_case kw q ->
  valid (validate now q uid v).1 = false.
Proof.
  intros Hin Hocc.
  assert (Hkw : kw <> EmptyString /\ starts_with_continuation kw = false).
  { revert Hin. unfold BLOCKED_KEYWORDS. simpl. intros Hin.
    repeat (destruct Hin as [<-|Hin]; [by split|]). done. }
  destruct Hkw as [Hne Hlead].
  pose proof (any_case_is_found kw q Hne Hlead Hocc) as Hw.
  destruct (validate_text_blocked q kw Hin Hw) as [reason Hreason].
  unfold validate. destruct (rate_limited now uid v) as [[] v']; cbn [fst]; [done|].
  by rewrite Hreason.
Qed.

End ValidatorTheorems.

Section ValidatorExamples.
#[local] Existing Instance Examples.sample_tables.
#[local] Existing Instance Examples.first_word_parser.

Lemma not_occurs_by_test sub s : contains sub s = false -> ~ occurs sub s.
Proof. intros Hc Ho. apply contains_occurs in Ho. congruence. Qed.





(** C3 fails as stated.  Each of the three texts below is one [SELECT]
    statement within the maximum length and without comment marker, and
    names one table.  The first is refused because a string literal in it
    reads [UPDATE]; the second, whose only terminator sits inside a
    literal, is refused as stacked statements; the third is refused for its
    tables, because [FROM] is also the word that [EXTRACT] takes. *)
Lemma clean_select_counterexample :
  (let q := "SELECT id FROM tickets WHERE action = 'update'" in
   sqlparse_parse q = Returns [q] /\ get_type q = Returns "SELECT" /\
   parses_as_select q /\ truthy (strip q) = true /\
   len q <= MAX_QUERY_LENGTH /\ _count_tables q <= MAX_TABLES /\
   ~ occurs "--" q /\ ~ occurs "/*" q /\ ~ occurs "*/" q /\
   terminator_only_at_end q /\
   validate 0 q None new_SQLQueryValidator
     = (reject "Blocked keyword detected: UPDATE", new_SQLQueryValidator))
  /\
  (let q := "SELECT ';' AS separator" in
   sqlparse_parse q = Returns [q] /\ get_type q = Returns "SELECT" /\
   parses_as_select q /\ truthy (strip q) = true /\
   len q <= MAX_QUERY_LENGTH /\ _count_tables q <= MAX_TABLES /\
   ~ occurs "--" q /\ ~ occurs "/*" q /\ ~ occurs "*/" q /\
   (forall kw, In kw BLOCKED_KEYWORDS -> ~ occurs_as_word kw (upper q)) /\
   validate 0 q None new_SQLQueryValidator
     = (reject "Multiple SQL statements are not allowed.", new_SQLQueryValidator))
  /\
  (let q := "SELECT EXTRACT(YEAR FROM d), EXTRACT(MONTH FROM d), EXTRACT(DAY FROM d), "
            +:+ "EXTRACT(HOUR FROM d), EXTRACT(MINUTE FROM d) FROM events" in
   sqlparse_parse q = Returns [q] /\ get_type q = Returns "SELECT" /\
   parses_as_select q /\ truthy (strip q) = true /\
   len q <= MAX_QUERY_LENGTH /\
   ~ occurs "--" q /\ ~ occurs "/*" q /\ ~ occurs "*/" q /\
   terminator_only_at_end q /\
   (forall kw, In kw BLOCKED_KEYWORDS -> ~ occurs_as_word kw (upper q)) /\
   re_findall_word_count "FROM" (upper q) = 6 /\
   re_findall_word_count "JOIN" (upper q) = 0 /\
   validate 0 q None new_SQLQueryValidator
     = (reject "Too many tables in query. Maximum is 5.", new_SQLQueryValidator)).
Proof.
  split; [|split]; intros q.
  - split; [done|]. split; [by vm_compute|]. split; [exists q, []; split; by vm_compute|].
    split; [by vm_compute|]. split; [by vm_compute|]. split; [by vm_compute|].
    split; [by apply not_occurs_by_test|].
    split; [by apply not_occurs_by_test|].
    split; [by apply not_occurs_by_test|].
    split; [by apply stacked_test_spec|].
    by vm_compute.
  - split; [done|]. split; [by vm_compute|]. split; [exists q, []; split; by vm_compute|].
    split; [by vm_compute|]. split; [by vm_compute|]. split; [by vm_compute|].
    split; [by apply not_occurs_by_test|].
    split; [by apply not_occurs_by_test|].
    split; [by apply not_occurs_by_test|].
    split; [apply blocked_keyword_None; by vm_compute|].
    by vm_compute.
  - split; [done|]. split; [by vm_compute|]. split; [exists q, []; split; by vm_compute|].
    split; [by vm_compute|]. split; [by vm_compute|].
    split; [by apply not_occurs_by_test|].
    split; [by apply not_occurs_by_test|].
    split; [by apply not_occurs_by_test|].
    split; [by apply stacked_test_spec|].
    split; [apply blocked_keyword_None; by vm_compute|].
    split; [by vm_compute|]. split; by vm_compute.
Qed.

(** C3 on the first query of the test suite. *)
Lemma clean_select_accepted_witness :
  let q := "SELECT * FROM users WHERE id = 1" in
  truthy_id None = None /\ len q <= MAX_QUERY_LENGTH /\ truthy (strip q) = true /\
  parses_as_select q /\
  (forall kw, In kw BLOCKED_KEYWORDS -> ~ occurs_as_word kw (upper q)) /\
  ~ occurs "--" q /\ ~ occurs "/*" q /\ ~ occurs "*/" q /\
  terminator_only_at_end q /\
  re_findall_word_count "FROM" (upper q) + re_findall_word_count "JOIN" (upper q)
    <= MAX_TABLES /\
  validate 0 q None new_SQLQueryValidator = (accept, new_SQLQueryValidator).
Proof.
  intros q.
  assert (H1 : truthy_id None = None) by reflexivity.
  assert (H2 : len q <= MAX_QUERY_LENGTH) by (by vm_compute).
  assert (H3 : truthy (strip q) = true) by (by vm_compute).
  assert (H4 : parses_as_select q) by (exists q, []; split; by vm_compute).
  assert (H5 : forall kw, In kw BLOCKED_KEYWORDS -> ~ occurs_as_word kw (upper q))
    by (apply blocked_keyword_None; by vm_compute).
  assert (H6 : ~ occurs "--" q) by (by apply not_occurs_by_test).
  assert (H7 : ~ occurs "/*" q) by (by apply not_occurs_by_test).
  assert (H8 : ~ occurs "*/" q) by (by apply not_occurs_by_test).
  assert (H9 : terminator_only_at_end q) by (by apply stacked_test_spec).
  assert (H10 : re_findall_word_count "FROM" (upper q)
                + re_findall_word_count "JOIN" (upper q) <= MAX_TABLES) by (by vm_compute).
  repeat (split; [assumption|]).
  exact (clean_select_accepted 0 q None new_SQLQueryValidator H1 H2 H3 H4 H5 H6 H7 H8 H9 H10).
Defined.

(** The keyword scan beyond ASCII: [ınsert], written with a dotless i,
    reads [INSERT] in upper case and is refused; [drop] right after the
    letter [é] is not a whole word and is let through. *)
Example keyword_scan_beyond_ascii :
  (validate 0 "SELECT ınsert FROM t" None new_SQLQueryValidator).1
    = reject "Blocked keyword detected: INSERT" /\
  (validate 0 "SELECT 'édrop'" None new_SQLQueryValidator).1 = accept.
Proof. split; by vm_compute. Qed.

(** A keyword in mixed case between a quote and a blank. *)
Example any_case_ex :
  occurs_in_any_case "TRUNCATE" "SELECT 'Truncate me'" /\
  valid (validate 0 "SELECT 'Truncate me'" None new_SQLQueryValidator).1 = false.
Proof.
  assert (Hocc : occurs_in_any_case "TRUNCATE" "SELECT 'Truncate me'").
  { exists "SELECT '", "Truncate", " me'". split; [done|]. split; [done|].
    split; [by vm_compute|]. split.
    - exists "'"%char. by vm_compute.
    - exists " "%char. by vm_compute. }
  split; [exact Hocc|].
  apply (any_case_keyword_refused 0 _ None new_SQLQueryValidator "TRUNCATE"); [|exact Hocc].
  simpl. tauto.
Qed.

End ValidatorExamples.

(** C4 on five calls of two identities, with limit 2 and window 60. *)
Lemma rate_limiter_rolling_window_witness :
  let calls := [(0, "ann"); (10, "ann"); (20, "bob"); (30, "ann"); (75, "ann")] in
  0 <= 2 /\
  StronglySorted Z.le calls.*1 /\
  (forall t,
     Z.of_nat (length (in_window 60 t
       (admitted_times "ann" (serve calls (new_RateLimiter 2 60)).1))) <= 2) /\
  (serve calls (new_RateLimiter 2 60)).1 =
    [(0, "ann", true); (10, "ann", true); (20, "bob", true);
     (30, "ann", false); (75, "ann", true)].
Proof.
  intros calls.
  assert (H0 : 0 <= 2) by lia.
  assert (Hs : StronglySorted Z.le calls.*1).
  { subst calls. simpl. repeat (constructor; [|repeat (constructor; [lia|]); constructor]).
    constructor. }
  split; [exact H0|]. split; [exact Hs|]. split.
  - exact (proj1 (rate_limiter_rolling_window 2 60 calls "ann" H0 Hs)).
  - by vm_compute.
Defined.

(* ===================================================================== *)
(** * Secure executor *)
(* ===================================================================== *)

Section ExecutorFacts.
Context `{UnicodeData} `{SqlParse} `{Database}.
Implicit Types (q : string) (v : SQLQueryValidator) (uid : option string)
  (ex : SecureSQLExecutor).

Lemma validate_text_shape q :
  validate_text q = accept \/ exists reason, validate_text q = reject reason.
Proof.
  unfold validate_text.
  destruct (len q >? MAX_QUERY_LENGTH); [right; by eexists|].
  destruct (negb (truthy q) || negb (truthy (strip q))); [right; by eexists|].
  destruct (parse_check q) as [r|] eqn:Hp.
  { right. by apply parse_check_rejects in Hp. }
  destruct (blocked_keyword q); [right; by eexists|].
  destruct (contains "--" q || contains "/*" q || contains "*/" q); [right; by eexists|].
  destruct (contains ";" (rstrip_char ";" q)); [right; by eexists|].
  destruct (_count_tables q >? MAX_TABLES); [right; by eexists|].
  by left.
Qed.

(** A verdict is [{'valid': True}] or carries its reason. *)
Lemma validate_shape (now : Z) q uid v :
  (validate now q uid v).1 = accept \/
  exists reason, (validate now q uid v).1 = reject reason.
Proof.
  unfold validate. destruct (rate_limited now uid v) as [[] v']; cbn [fst].
  - right. by eexists.
  - apply validate_text_shape.
Qed.

(** [execute_query] on a refused text. *)
Lemma execute_query_rejected (now : Z) q uid (max_rows : Z) ex reason :
  (validate now q uid (validator ex)).1 = reject reason ->
  execute_query now q uid max_rows ex =
  (Returns (Failure reason),
   mk_SecureSQLExecutor (validate now q uid (validator ex)).2 (executed ex)).
Proof.
  intros Hv. unfold execute_query.
  destruct (validate now q uid (validator ex)) as [verdict v']. cbn [fst snd] in *.
  by rewrite Hv.
Qed.

(** [execute_query] on an admitted text. *)
Lemma execute_query_admitted (now : Z) q uid (max_rows : Z) ex :
  (validate now q uid (validator ex)).1 = accept ->
  execute_query now q uid max_rows ex =
  (try_except
     ('(columns, rows) ← db_execute (add_limit q max_rows);
      let data := map (fun row => dict_of (zip columns row)) rows in
      Returns (Success data (Z.of_nat (length data))))
     on_error,
   mk_SecureSQLExecutor (validate now q uid (validator ex)).2
     (executed ex ++ [add_limit q max_rows])).
Proof.
  intros Hv. unfold execute_query.
  destruct (validate now q uid (validator ex)) as [verdict v']. cbn [fst snd] in *.
  by rewrite Hv.
Qed.

Lemma valid_true_accept (now : Z) q uid v :
  valid (validate now q uid v).1 = true -> (validate now q uid v).1 = accept.
Proof.
  destruct (validate_shape now q uid v) as [Ha|[reason Hr]]; [done|].
  rewrite Hr. done.
Qed.

Lemma valid_false_reject (now : Z) q uid v :
  valid (validate now q uid v).1 = false ->
  exists reason, (validate now q uid v).1 = reject reason.
Proof.
  destruct (validate_shape now q uid v) as [Ha|[reason Hr]]; [by rewrite Ha|].
  intros _. by exists reason.
Qed.

Lemma on_error_returns (e : exn) :
  on_error e =
  Returns (Failure ((match exn_kind e with
                     | SQLAlchemyError => "Database error: "
                     | OtherException => "Unexpected error: "
                     end) +:+ exn_str e)).
Proof. unfold on_error. by destruct (exn_kind e). Qed.

End ExecutorFacts.

Section ExecutorTheorems.
Context `{UnicodeData} `{SqlParse} `{Database}.
Implicit Types (q : string) (v : SQLQueryValidator) (uid : option string)
  (ex : SecureSQLExecutor).

Lemma add_limit_absent q (max_rows : Z) :
  contains "LIMIT" (upper q) = false ->
  add_limit q max_rows = rstrip_char ";" q +:+ " LIMIT " +:+ str_of_int max_rows.
Proof. intros Hc. unfold add_limit. by rewrite Hc. Qed.

Lemma add_limit_present q (max_rows : Z) :
  contains "LIMIT" (upper q) = true -> add_limit q max_rows = q.
Proof. intros Hc. unfold add_limit. by rewrite Hc. Qed.

(** The clause appended by the rewrite is found by the test of the
    rewrite. *)
Lemma own_clause_found base (n : Z) :
  contains "LIMIT" (upper (base +:+ " LIMIT " +:+ str_of_int n)) = true.
Proof.
  change (base +:+ " LIMIT " +:+ str_of_int n)
    with (base +:+ " LIMIT" +:+ " " +:+ str_of_int n).
  rewrite (upper_app base), (upper_app " LIMIT"), upper_limit_clause by done.
  apply contains_occurs. exists (upper base +:+ " "), (upper (" " +:+ str_of_int n)).
  by rewrite !app_assoc_str.
Qed.

(** What an admitted call returns, in terms of the answer of the engine
    to the text it is handed. *)
Lemma execute_query_success (now : Z) q uid (max_rows : Z) ex data (n : Z) :
  (validate now q uid (validator ex)).1 = accept ->
  (execute_query now q uid max_rows ex).1 = Returns (Success data n) ->
  exists columns rows,
    db_execute (add_limit q max_rows) = Returns (columns, rows) /\
    length data = length rows /\ n = Z.of_nat (length rows).
Proof.
  intros Hv. rewrite (execute_query_admitted now q uid max_rows ex Hv). cbn [fst].
  destruct (db_execute (add_limit q max_rows)) as [[columns rows]|e]; simpl.
  - intros [= <- <-]. exists columns, rows. by rewrite !length_map.
  - rewrite on_error_returns. done.
Qed.

(** What the rewrite comes to for an admitted text.  When the upper-cased
    form of the text does not contain [LIMIT], the engine is handed the
    text without its trailing terminators followed by [" LIMIT max_rows"],
    so that a result has at most [max_rows] rows whenever the database
    honours that clause.  When it contains [LIMIT] anywhere, the engine is
    handed the text as it is, and a result has the rows the database gives
    for it, whatever [max_rows] is. *)
Lemma limit_rewrite_cases (now : Z) q uid (max_rows : Z) ex :
  valid (validate now q uid (validator ex)).1 = true ->
  let result := (execute_query now q uid max_rows ex).1 in
  let sent := executed (execute_query now q uid max_rows ex).2 in
  (contains "LIMIT" (upper q) = false ->
   let capped := rstrip_char ";" q +:+ " LIMIT " +:+ str_of_int max_rows in
   sent = executed ex ++ [capped] /\
   ((forall columns rows,
       db_execute capped = Returns (columns, rows) -> Z.of_nat (length rows) <= max_rows) ->
    forall data n,
      result = Returns (Success data n) -> n = Z.of_nat (length data) /\ n <= max_rows))
  /\
  (contains "LIMIT" (upper q) = true ->
   sent = executed ex ++ [q] /\
   forall data n,
     result = Returns (Success data n) ->
     exists columns rows,
       db_execute q = Returns (columns, rows) /\
       length data = length rows /\ n = Z.of_nat (length rows)).
Proof.
  intros Hvalid result sent. apply valid_true_accept in Hvalid.
  pose proof (execute_query_admitted now q uid max_rows ex Hvalid) as Hex.
  split.
  - intros Habsent capped. subst sent result capped.
    rewrite <- (add_limit_absent q max_rows Habsent). split.
    + by rewrite Hex.
    + intros Hcap data n Hres.
      destruct (execute_query_success now q uid max_rows ex data n Hvalid Hres)
        as (columns & rows & Hdb & Hlen & ->).
      specialize (Hcap columns rows Hdb). rewrite Hlen. split; [done|lia].
  - intros Hhas. subst sent result.
    pose proof (add_limit_present q max_rows Hhas) as Hpresent.
    split.
    + rewrite Hex. cbn [snd executed]. by rewrite Hpresent.
    + intros data n Hres.
      destruct (execute_query_success now q uid max_rows ex data n Hvalid Hres)
        as (columns & rows & Hdb & Hlen & ->).
      rewrite Hpresent in Hdb. by exists columns, rows.
Qed.

(** ** C5 *)

(** C5.  When the validator refuses the text, [execute_query] returns a
    failure carrying the validator's reason as it is, and hands nothing to
    the engine.  On every input [execute_query] returns: no exception
    leaves it, and a failure of the engine comes back as a failure
    result. *)
Theorem refusal_verbatim_and_no_raise (now : Z) q uid (max_rows : Z) ex :
  let verdict := (validate now q uid (validator ex)).1 in
  let outcome := execute_query now q uid max_rows ex in
  (valid verdict = false ->
   exists reason,
     error verdict = Some reason /\
     outcome.1 = Returns (Failure reason) /\
     executed outcome.2 = executed ex) /\
  returned outcome.1 /\
  (forall e, valid verdict = true -> db_execute (add_limit q max_rows) = Raises e ->
             exists message, outcome.1 = Returns (Failure message)).
Proof.
  intros verdict outcome. subst verdict outcome. split; [|split].
  - intros Hinvalid. destruct (valid_false_reject now q uid _ Hinvalid) as [reason Hr].
    exists reason. rewrite (execute_query_rejected now q uid max_rows ex reason Hr).
    by rewrite Hr.
  - destruct (validate_shape now q uid (validator ex)) as [Ha|[reason Hr]].
    + rewrite (execute_query_admitted now q uid max_rows ex Ha). cbn [fst].
      destruct (db_execute (add_limit q max_rows)) as [[columns rows]|e]; simpl.
      * by eexists.
      * rewrite on_error_returns. by eexists.
    + rewrite (execute_query_rejected now q uid max_rows ex reason Hr). by eexists.
  - intros e Hvalid He. apply valid_true_accept in Hvalid.
    rewrite (execute_query_admitted now q uid max_rows ex Hvalid). cbn [fst].
    rewrite He. simpl. rewrite on_error_returns. by eexists.
Qed.

(** ** C7 *)

(** C7, as the code has it.  When the engine fails on an admitted text,
    [execute_query] returns a failure result; its message is
    ["Database error: "] for a [SQLAlchemyError], ["Unexpected error: "]
    for any other exception, followed by the text of the exception as the
    driver gave it. *)
Theorem database_failure_reported (now : Z) q uid (max_rows : Z) ex (e : exn) :
  valid (validate now q uid (validator ex)).1 = true ->
  db_execute (add_limit q max_rows) = Raises e ->
  let message :=
    (match exn_kind e with
     | SQLAlchemyError => "Database error: "
     | OtherException => "Unexpected error: "
     end) +:+ exn_str e in
  (execute_query now q uid max_rows ex).1 = Returns (Failure message) /\
  contains (exn_str e) message = true.
Proof.
  intros Hvalid He message. apply valid_true_accept in Hvalid.
  rewrite (execute_query_admitted now q uid max_rows ex Hvalid). cbn [fst].
  rewrite He. simpl. rewrite on_error_returns. split; [done|].
  apply contains_app_r.
Qed.

End ExecutorTheorems.

Section QueryTool.
Context `{UnicodeData} `{SqlParse} `{Database}.
Implicit Types (q : string) (ex : SecureSQLExecutor).

Lemma execute_query_validator (now : Z) q uid (max_rows : Z) ex :
  validator (execute_query now q uid max_rows ex).2 = (validate now q uid (validator ex)).2.
Proof.
  destruct (validate_shape now q uid (validator ex)) as [Ha|[reason Hr]].
  - by rewrite (execute_query_admitted now q uid max_rows ex Ha).
  - by rewrite (execute_query_rejected now q uid max_rows ex reason Hr).
Qed.

Lemma validate_limiter (now : Z) q (u : string) v :
  truthy u = true ->
  rate_limiter (validate now q (Some u) v).2 = (allow_request now u (rate_limiter v)).2 /\
  ((allow_request now u (rate_limiter v)).1 = false ->
   (validate now q (Some u) v).1 =
   reject "Rate limit exceeded. Please wait before making more queries.").
Proof.
  intros Hu. unfold validate, rate_limited, truthy_id. rewrite Hu.
  destruct (allow_request now u (rate_limiter v)) as [allowed rl]. cbn [fst snd].
  destruct allowed; cbn [negb]; split; try done.
Qed.

Lemma run_query_state (now : Z) q ex :
  (run_query now q ex).2 = (execute_query now q (Some "default_user") default_max_rows ex).2.
Proof.
  unfold run_query.
  by destruct (execute_query now q (Some "default_user") default_max_rows ex).
Qed.

(** ** C10 *)

(** C10.  [run_query] has no parameter for a caller.  Whatever the text,
    the limiter is left as one call of [allow_request] for the identity
    ["default_user"] leaves it, so the window of every other identity is
    as before; and when that one window is full the tool answers with the
    rate-limit refusal. *)
Theorem run_query_default_user (now : Z) q ex :
  let before := rate_limiter (validator ex) in
  let after := rate_limiter (validator (run_query now q ex).2) in
  after = (allow_request now "default_user" before).2 /\
  (forall u, u <> "default_user" -> requests_of after u = requests_of before u) /\
  ((allow_request now "default_user" before).1 = false ->
   (run_query now q ex).1 =
   Returns "❌ Query failed: Rate limit exceeded. Please wait before making more queries." /\
   executed (run_query now q ex).2 = executed ex).
Proof.
  intros before after. subst before after.
  destruct (validate_limiter now q "default_user" (validator ex) eq_refl) as [Hstate Hdenied].
  rewrite run_query_state, execute_query_validator.
  split; [done|]. split.
  - intros u Hu. rewrite Hstate.
    destruct (allow_request_spec now "default_user" (rate_limiter (validator ex)))
      as (_ & _ & Hother & _).
    apply Hother. congruence.
  - intros Hfull. specialize (Hdenied Hfull).
    unfold run_query.
    rewrite (execute_query_rejected now q (Some "default_user") default_max_rows ex _ Hdenied).
    done.
Qed.

End QueryTool.

Section RowCap.
Context `{UnicodeData}.
#[local] Existing Instance Examples.first_word_parser.

(** ** C1 *)

(** C1: the row cap is not enforced.  The table has 150 rows and the
    database honours limiting clauses.  Under the cap 100 the text without
    clause is handed over with [LIMIT 100] appended and gives 100 rows; the
    admitted text that brings [LIMIT 150] is handed over as it is and gives
    150 rows, as does the admitted text in which the letters [LIMIT] are
    part of a column name, which is handed over with no clause at all.
    The texts are ASCII: this holds whatever the tables beyond ASCII. *)
Theorem row_cap_not_enforced :
  let D := Examples.table_db in
  let capped := execute_query 0 "SELECT * FROM t" None 100 new_SecureSQLExecutor in
  let loose := execute_query 0 "SELECT * FROM t LIMIT 150" None 100 new_SecureSQLExecutor in
  let named :=
    execute_query 0 "SELECT id AS rate_limit FROM t" None 100 new_SecureSQLExecutor in
  let first_rows (n : nat) : list Row := map (fun i => [("id", Z.of_nat i)]) (seq 1 n) in
  valid (validate 0 "SELECT * FROM t LIMIT 150" None new_SQLQueryValidator).1 = true /\
  valid (validate 0 "SELECT id AS rate_limit FROM t" None new_SQLQueryValidator).1 = true /\
  capped.1 = Returns (Success (first_rows 100%nat) 100) /\
  executed capped.2 = ["SELECT * FROM t LIMIT 100"] /\
  loose.1 = Returns (Success (first_rows 150%nat) 150) /\
  executed loose.2 = ["SELECT * FROM t LIMIT 150"] /\
  named.1 = Returns (Success (first_rows 150%nat) 150) /\
  executed named.2 = ["SELECT id AS rate_limit FROM t"] /\
  length (first_rows 150%nat) = 150%nat /\
  100 < 150.
Proof.
  intros D capped loose named first_rows. repeat split; by vm_compute.
Qed.

(** The verdicts on the ASCII texts of the examples do not depend on the
    tables beyond ASCII either. *)
Example verdicts_on_ascii_texts :
  (validate 1 "DROP TABLE users" (Some "analyst") Examples.busy_validator).1
    = reject "Rate limit exceeded. Please wait before making more queries." /\
  (validate 0 "SELECT 'delete', 'drop'" None new_SQLQueryValidator).1
    = reject "Blocked keyword detected: DROP" /\
  (validate 0 "SELECT id FROM tickets WHERE action = 'update'" None new_SQLQueryValidator).1
    = reject "Blocked keyword detected: UPDATE" /\
  (validate 0 "SELECT ';' AS separator" None new_SQLQueryValidator).1
    = reject "Multiple SQL statements are not allowed." /\
  (validate 0 "SELECT * FROM users WHERE id = 1" None new_SQLQueryValidator).1 = accept.
Proof. repeat split; by vm_compute. Qed.

End RowCap.

Section ExecutorExamples.
#[local] Existing Instance Examples.sample_tables.
#[local] Existing Instance Examples.first_word_parser.

(** The rewrite on a text without clause: the cap is appended and is
    honoured. *)
Example limit_rewrite_on_plain_text :
  let D := Examples.table_db in
  let outcome := execute_query 0 "SELECT * FROM t;" None 100 new_SecureSQLExecutor in
  valid (validate 0 "SELECT * FROM t;" None new_SQLQueryValidator).1 = true /\
  contains "LIMIT" (upper "SELECT * FROM t;") = false /\
  executed outcome.2 = ["SELECT * FROM t LIMIT 100"] /\
  (forall data n, outcome.1 = Returns (Success data n) ->
                  n = Z.of_nat (length data) /\ n <= 100).
Proof.
  intros D outcome.
  assert (Hvalid : valid (validate 0 "SELECT * FROM t;" None
                            (validator new_SecureSQLExecutor)).1 = true) by (by vm_compute).
  assert (Habsent : contains "LIMIT" (upper "SELECT * FROM t;") = false) by (by vm_compute).
  destruct (limit_rewrite_cases 0 "SELECT * FROM t;" None 100 new_SecureSQLExecutor Hvalid)
    as [Hcap _].
  destruct (Hcap Habsent) as [Hsent Hrows].
  split; [exact Hvalid|]. split; [exact Habsent|]. split; [exact Hsent|].
  apply Hrows. intros columns rows Hdb. vm_compute in Hdb.
  injection Hdb as <- <-. by vm_compute.
Qed.

(** C7 fails as stated.  The engine fails on an admitted text with an
    error that names a column and a relation; the message returned
    contains that text in full. *)
Lemma database_failure_counterexample :
  let D := Examples.failing_db in
  let q := "SELECT salary FROM payroll" in
  valid (validate 0 q None new_SQLQueryValidator).1 = true /\
  db_execute (add_limit q 100) = Raises (mk_exn SQLAlchemyError Examples.driver_text) /\
  (execute_query 0 q None 100 new_SecureSQLExecutor).1
    = Returns (Failure ("Database error: " +:+ Examples.driver_text)) /\
  contains Examples.driver_text ("Database error: " +:+ Examples.driver_text) = true.
Proof. intros D q. repeat split; by vm_compute. Qed.

(** C7 on the database that fails. *)
Lemma database_failure_reported_witness :
  let D := Examples.failing_db in
  let q := "SELECT salary FROM payroll" in
  valid (validate 0 q None new_SQLQueryValidator).1 = true /\
  db_execute (add_limit q 100) = Raises (mk_exn SQLAlchemyError Examples.driver_text) /\
  (execute_query 0 q None 100 new_SecureSQLExecutor).1
    = Returns (Failure ("Database error: " +:+ Examples.driver_text)).
Proof.
  intros D q.
  assert (Hvalid : valid (validate 0 q None (validator new_SecureSQLExecutor)).1 = true)
    by (by vm_compute).
  assert (Hdb : db_execute (add_limit q 100)
                = Raises (mk_exn SQLAlchemyError Examples.driver_text)) by reflexivity.
  split; [exact Hvalid|]. split; [exact Hdb|].
  exact (proj1 (database_failure_reported 0 q None 100 new_SecureSQLExecutor _ Hvalid Hdb)).
Defined.

End ExecutorExamples.

(* ===================================================================== *)
(** * Splitting and joining *)
(* ===================================================================== *)

Section SplitFacts.
Implicit Types (s sep f : string) (cur : list ascii).

Lemma split_go_nonempty sep : forall s skip cur, split_go sep skip cur s <> [].
Proof.
  induction s as [|c s IH]; intros skip cur; simpl; [done|].
  destruct skip; [|apply IH]. destruct (startswith sep (String c s)); [done|apply IH].
Qed.

Lemma split_last_is_Some sep s : is_Some (item_last (split sep s)).
Proof.
  unfold item_last, split. pose proof (split_go_nonempty sep s 0%nat []) as Hne.
  destruct (split_go sep 0 [] s) as [|x l] eqn:E; [done|].
  rewrite last_is_Some. done.
Qed.

Lemma split_head_is_Some sep s : is_Some (item 0 (split sep s)).
Proof.
  unfold item, split. pose proof (split_go_nonempty sep s 0%nat []) as Hne.
  destruct (split_go sep 0 [] s) as [|x l]; [done|]. by eexists.
Qed.

(** A text that contains the separator splits into two pieces at least. *)
Lemma split_go_two sep : sep <> EmptyString -> forall s cur,
  contains sep s = true ->
  exists a b rest, split_go sep 0 cur s = a :: b :: rest.
Proof.
  intros Hsep. induction s as [|c s IH]; intros cur Hc.
  - simpl in Hc. destruct sep; [done|discriminate].
  - simpl in Hc |- *. destruct (startswith sep (String c s)) eqn:Hs.
    + pose proof (split_go_nonempty sep s (String.length sep - 1) []) as Hne.
      destruct (split_go sep (String.length sep - 1) [] s) as [|b rest]; [done|].
      by eexists _, _, _.
    + simpl in Hc. apply IH. exact Hc.
Qed.

Lemma split_second_is_Some sep s :
  sep <> EmptyString -> contains sep s = true -> is_Some (item 1 (split sep s)).
Proof.
  intros Hsep Hc. destruct (split_go_two sep Hsep s [] Hc) as (a & b & rest & Hsplit).
  unfold item, split. rewrite Hsplit. by eexists.
Qed.

Lemma string_of_snoc (l : list ascii) (c : ascii) s :
  string_of_list_ascii (l ++ [c]) +:+ s = string_of_list_ascii l +:+ String c s.
Proof. induction l as [|a l IH]; simpl; [done|]. by rewrite IH. Qed.

(** A text without the separator is its own single piece. *)
Lemma split_go_absent sep : forall s cur,
  contains sep s = false ->
  split_go sep 0 cur s = [string_of_list_ascii (rev cur) +:+ s].
Proof.
  induction s as [|c s IH]; intros cur Hc; simpl.
  - by rewrite app_empty_r.
  - simpl in Hc. apply orb_false_iff in Hc as [Hs Hc]. rewrite Hs.
    rewrite (IH _ Hc). simpl. by rewrite string_of_snoc.
Qed.

Lemma split_absent sep s : contains sep s = false -> split sep s = [s].
Proof. intros Hc. unfold split. by rewrite split_go_absent. Qed.

(** Passing over the rest of a separator. *)
Lemma split_go_skip sep p : forall cur s,
  split_go sep (String.length p) cur (p +:+ s) = split_go sep 0 cur s.
Proof.
  induction p as [|a p IH]; intros cur s; simpl; [|apply IH].
  by destruct s.
Qed.

Lemma split_go_match sep cur s :
  sep <> EmptyString ->
  split_go sep 0 cur (sep +:+ s) = string_of_list_ascii (rev cur) :: split_go sep 0 [] s.
Proof.
  intros Hsep. destruct sep as [|a p]; [done|]. simpl.
  rewrite Ascii.eqb_refl, startswith_app. simpl. rewrite Nat.sub_0_r.
  by rewrite split_go_skip.
Qed.

Lemma last_cons_cons {A} (x y : A) (l : list A) : last (x :: y :: l) = last (y :: l).
Proof. done. Qed.

(** The last piece of a split: it holds no separator, and it is the whole
    text, or what follows a separator in it. *)
Lemma split_go_last sep (n : nat) : sep <> EmptyString -> forall s cur f,
  (String.length s <= n)%nat ->
  last (split_go sep 0 cur s) = Some f ->
  (f = string_of_list_ascii (rev cur) +:+ s /\ contains sep s = false) \/
  (exists pre, s = pre +:+ sep +:+ f /\ contains sep f = false).
Proof.
  intros Hsep. induction n as [|n IH]; intros s cur f Hn Hlast.
  - destruct s; [|simpl in Hn; lia]. simpl in Hlast. injection Hlast as <-.
    left. rewrite app_empty_r. split; [done|]. simpl.
    destruct sep; [done|]. done.
  - destruct s as [|c s].
    { simpl in Hlast. injection Hlast as <-. left. rewrite app_empty_r.
      split; [done|]. simpl. by destruct sep. }
    destruct (startswith sep (String c s)) eqn:Hs.
    + destruct (startswith_inv _ _ Hs) as [s' Hs'].
      rewrite Hs' in Hlast. rewrite (split_go_match sep cur s' Hsep) in Hlast.
      pose proof (split_go_nonempty sep s' 0%nat []) as Hne.
      destruct (split_go sep 0 [] s') as [|x l] eqn:E; [done|].
      rewrite last_cons_cons, <- E in Hlast.
      assert (Hlen : (String.length s' <= n)%nat).
      { assert (String.length (String c s) = String.length sep + String.length s')%nat
          as Hl by (rewrite Hs'; apply length_app_str).
        destruct sep; [done|]. simpl in Hl, Hn. lia. }
      right. destruct (IH s' [] f Hlen Hlast) as [[-> Hno]|(pre & -> & Hno)].
      * exists EmptyString. simpl. rewrite Hs'. done.
      * exists (sep +:+ pre). rewrite Hs'. by rewrite !app_assoc_str.
    + simpl in Hlast. rewrite Hs in Hlast. simpl in Hn.
      destruct (IH s (c :: cur) f ltac:(lia) Hlast) as [[-> Hno]|(pre & -> & Hno)].
      * left. simpl. rewrite string_of_snoc. split; [done|].
        rewrite Hs. done.
      * right. exists (String c pre). done.
Qed.

Lemma split_last sep s f :
  sep <> EmptyString ->
  item_last (split sep s) = Some f ->
  contains sep f = false /\ (f = s \/ exists pre, s = pre +:+ sep +:+ f).
Proof.
  intros Hsep Hlast. unfold item_last, split in Hlast.
  destruct (split_go_last sep (String.length s) Hsep s [] f ltac:(lia) Hlast)
    as [[-> Hno]|(pre & -> & Hno)].
  - split; [done|]. by left.
  - split; [done|]. right. by exists pre.
Qed.

End SplitFacts.

(* ===================================================================== *)
(** * Agent loop controller *)
(* ===================================================================== *)

Section DictFacts.
Context {V : Type}.
Implicit Types (d : list (string * V)) (k : string) (v : V).

Lemma dict_get_set k k' v d :
  dict_get k' (dict_set k v d) = if String.eqb k' k then Some v else dict_get k' d.
Proof.
  induction d as [|[k0 v0] d IH]; simpl.
  - done.
  - destruct (String.eqb_spec k k0) as [->|Hne]; simpl.
    + by destruct (String.eqb k' k0).
    + destruct (String.eqb_spec k' k0) as [->|Hne'].
      * destruct (String.eqb_spec k0 k); congruence.
      * exact IH.
Qed.

Lemma dict_keys_set k v d k' :
  In k' (dict_keys (dict_set k v d)) <-> k' = k \/ In k' (dict_keys d).
Proof.
  unfold dict_keys. induction d as [|[k0 v0] d IH]; simpl.
  - intuition congruence.
  - destruct (String.eqb_spec k k0) as [->|Hne]; simpl.
    + intuition congruence.
    + rewrite IH. intuition congruence.
Qed.

Lemma dict_of_get_in (P : V -> Prop) (pairs : list (string * V)) : forall d,
  (forall k v, dict_get k d = Some v -> P v) ->
  (forall kv, In kv pairs -> P kv.2) ->
  forall k v, dict_get k (fold_left (fun d kv => dict_set kv.1 kv.2 d) pairs d) = Some v -> P v.
Proof.
  induction pairs as [|[k0 v0] pairs IH]; intros d Hd Hp k v; simpl; [apply Hd|].
  apply IH.
  - intros k1 v1. rewrite dict_get_set. destruct (String.eqb k1 k0).
    + intros [= <-]. apply (Hp (k0, v0)). by left.
    + apply Hd.
  - intros kv Hin. apply Hp. by right.
Qed.

Lemma dict_of_keys (pairs : list (string * V)) : forall d k,
  In k (dict_keys (fold_left (fun d kv => dict_set kv.1 kv.2 d) pairs d)) <->
  In k (map fst pairs) \/ In k (dict_keys d).
Proof.
  induction pairs as [|[k0 v0] pairs IH]; intros d k; simpl; [tauto|].
  rewrite IH, dict_keys_set. simpl. intuition congruence.
Qed.

End DictFacts.

Section JoinFacts.
Implicit Types (s x sep : string).

Lemma contains_app_left x a b : contains x a = true -> contains x (a +:+ b) = true.
Proof.
  rewrite !contains_occurs. intros (pre & post & ->).
  exists pre, (post +:+ b). by rewrite !app_assoc_str.
Qed.

Lemma contains_app_right x a b : contains x b = true -> contains x (a +:+ b) = true.
Proof.
  rewrite !contains_occurs. intros (pre & post & ->).
  exists (a +:+ pre), post. by rewrite !app_assoc_str.
Qed.

Lemma contains_refl x : contains x x = true.
Proof. apply contains_occurs. exists EmptyString, EmptyString. by rewrite app_empty_r. Qed.

Lemma join_contains sep x (l : list string) : In x l -> contains x (join sep l) = true.
Proof.
  induction l as [|y l IH]; [done|]. intros [->|Hin].
  - destruct l; simpl; [apply contains_refl|]. apply contains_app_left, contains_refl.
  - destruct l as [|z l]; [done|].
    change (join sep (y :: z :: l)) with (y +:+ sep +:+ join sep (z :: l)).
    apply contains_app_right, contains_app_right, IH, Hin.
Qed.

End JoinFacts.

Section AgentFacts.
Context {World : Type}.
Context (agent_invoke : AgentInput -> World -> py_result string * World).
Implicit Types (tools : list (Tool World)) (tool_map : list (string * Tool World))
  (response : string) (w : World).

Lemma action_markers_nonempty :
  "Action:" <> EmptyString /\ "Action Input:" <> EmptyString /\
  "Thought:" <> EmptyString /\ "Final Answer:" <> EmptyString.
Proof. by repeat split. Qed.

(** With both action markers in the reply, no index is out of range. *)
Lemma parse_action_returns response :
  contains "Action:" response = true ->
  contains "Action Input:" response = true ->
  returned (parse_action response).
Proof.
  intros HA HI. unfold parse_action, getitem.
  destruct (split_second_is_Some "Action:" response ltac:(done) HA) as [a1 ->].
  cbn [mbind py_result_bind py_bind].
  destruct (split_head_is_Some "Action Input:" a1) as [a0 ->].
  cbn [mbind py_result_bind py_bind].
  destruct (split_second_is_Some "Action Input:" response ltac:(done) HI) as [i1 ->].
  cbn [mbind py_result_bind py_bind].
  destruct (split_head_is_Some nl i1) as [i0 ->].
  cbn [mbind py_result_bind py_bind]. by eexists.
Qed.

Lemma tool_map_get_in tools k (t : Tool World) :
  dict_get k (make_tool_map tools) = Some t -> In t tools.
Proof.
  unfold make_tool_map, dict_of.
  apply (dict_of_get_in (fun t => In t tools)); [done|].
  intros [k0 t0] Hin. apply in_map_iff in Hin as (t1 & [= <- <-] & Hin). exact Hin.
Qed.

Lemma tool_map_keys tools (t : Tool World) :
  In t tools -> In (name t) (dict_keys (make_tool_map tools)).
Proof.
  intros Hin. unfold make_tool_map, dict_of. apply dict_of_keys. left.
  rewrite map_map. simpl. apply in_map_iff. by exists t.
Qed.

(** One pass on a reply that asks for a registered tool which returns. *)
Lemma iteration_known_tool tools input_text chat_history scratchpad steps w response w1 :
  agent_invoke (make_input tools input_text chat_history scratchpad) w
    = (Returns response, w1) ->
  action_on_known_tool (make_tool_map tools) response ->
  (forall tool arg w0, In tool tools -> returned (func tool arg w0).1) ->
  exists scratchpad' steps' w2,
    iteration agent_invoke tools (make_tool_map tools) input_text chat_history
      scratchpad steps w = (Next scratchpad' steps', w2).
Proof.
  intros Hinv (Hfa & HA & HI & action & arg & tool & Hparse & Hget) Htools.
  unfold iteration. rewrite Hinv. unfold handle_response.
  rewrite Hfa, HA, HI. cbn [andb]. rewrite Hparse, Hget.
  destruct (Htools tool arg w1 (tool_map_get_in _ _ _ Hget)) as [obs Hobs].
  destruct (func tool arg w1) as [r w2]. cbn [fst] in Hobs. subst r.
  by eexists _, _, _.
Qed.

End AgentFacts.

Section AgentTheorems.
Context {World : Type}.
Context (agent_invoke : AgentInput -> World -> py_result string * World).
Implicit Types (tools : list (Tool World)) (response : string) (w : World).

(** Whatever the model and the tools do, the loop makes at most
    [remaining] further passes. *)
Lemma agent_loop_bounded tools (input_text chat_history : string) :
  forall (remaining done : nat) (scratchpad : string)
         (steps : list (string * string * string)) w,
    (done <= iterations (agent_loop agent_invoke tools (make_tool_map tools) input_text
                           chat_history remaining done scratchpad steps w)
          <= done + remaining)%nat.
Proof.
  induction remaining as [|remaining IH]; intros done scratchpad steps w; simpl; [lia|].
  destruct (iteration agent_invoke tools (make_tool_map tools) input_text chat_history
              scratchpad steps w) as [[final|scratchpad' steps'] w1]; simpl; [lia|].
  specialize (IH (S done) scratchpad' steps' w1). lia.
Qed.

(** ** C6 *)

(** C6.  The model answers every invocation with a reply that carries no
    final-answer marker and asks for a registered tool, and the registered
    tools return.  Then [execute_agent] ends after [max_iterations] passes
    through the loop, five with the default budget, each invoking the
    model once, and returns the fixed message that asks to rephrase. *)
Theorem iteration_budget_exhausted tools (input_text chat_history : string)
    (max_iterations : Z) w :
  (forall inp w0, exists response w1,
      agent_invoke inp w0 = (Returns response, w1) /\
      action_on_known_tool (make_tool_map tools) response) ->
  (forall tool arg w0, In tool tools -> returned (func tool arg w0).1) ->
  let episode := run_episode agent_invoke tools input_text chat_history max_iterations w in
  execute_agent agent_invoke tools input_text chat_history max_iterations w
    = rephrase_message /\
  answer episode = rephrase_message /\
  iterations episode = Z.to_nat max_iterations /\
  (max_iterations = default_max_iterations -> iterations episode = 5%nat).
Proof.
  intros Hmodel Htools episode.
  assert (Hloop : forall remaining done scratchpad steps w0,
    let e := agent_loop agent_invoke tools (make_tool_map tools) input_text chat_history
               remaining done scratchpad steps w0 in
    answer e = rephrase_message /\ iterations e = (done + remaining)%nat).
  { induction remaining as [|remaining IH]; intros done scratchpad steps w0; simpl.
    - split; [done|lia].
    - destruct (Hmodel (make_input tools input_text chat_history scratchpad) w0)
        as (response & w1 & Hinv & Haction).
      destruct (iteration_known_tool agent_invoke tools input_text chat_history
                  scratchpad steps w0 response w1 Hinv Haction Htools)
        as (scratchpad' & steps' & w2 & ->).
      destruct (IH (S done) scratchpad' steps' w2) as [Ha Hi].
      split; [exact Ha|]. rewrite Hi. lia. }
  destruct (Hloop (Z.to_nat max_iterations) 0%nat EmptyString [] w) as [Ha Hi].
  unfold execute_agent. subst episode. unfold run_episode.
  split; [exact Ha|]. split; [exact Ha|]. split; [exact Hi|].
  intros ->. rewrite Hi. done.
Qed.

(** ** C8 *)

(** C8, as the code has it.  A reply without final-answer marker and
    without the pair of action markers ends the episode in that pass.  The
    answer is the reply cut after its last ["Thought:"] marker, the whole
    reply when it has none, with the blanks at both ends removed. *)
Theorem unmarked_reply_ends_episode tools (input_text chat_history scratchpad : string)
    (steps : list (string * string * string)) w response w1 :
  agent_invoke (make_input tools input_text chat_history scratchpad) w
    = (Returns response, w1) ->
  contains "Final Answer:" response = false ->
  contains "Action:" response && contains "Action Input:" response = false ->
  exists tail,
    item_last (split "Thought:" response) = Some tail /\
    contains "Thought:" tail = false /\
    (tail = response \/ exists pre, response = pre +:+ "Thought:" +:+ tail) /\
    (contains "Thought:" response = false -> tail = response) /\
    iteration agent_invoke tools (make_tool_map tools) input_text chat_history
      scratchpad steps w = (Return (strip tail), w1) /\
    forall remaining done,
      agent_loop agent_invoke tools (make_tool_map tools) input_text chat_history
        (S remaining) done scratchpad steps w
      = mk_Episode (strip tail) (S done) scratchpad w1.
Proof.
  intros Hinv Hfa Hact.
  destruct (split_last_is_Some "Thought:" response) as [tail Htail].
  destruct (split_last "Thought:" response tail ltac:(done) Htail) as [Hno Hwhere].
  assert (Hiter : iteration agent_invoke tools (make_tool_map tools) input_text chat_history
                    scratchpad steps w = (Return (strip tail), w1)).
  { unfold iteration. rewrite Hinv. unfold handle_response. rewrite Hfa, Hact.
    unfold getitem_last. by rewrite Htail. }
  exists tail. split; [done|]. split; [done|]. split; [done|]. split.
  - intros Habsent. rewrite (split_absent _ _ Habsent) in Htail. by injection Htail.
  - split; [done|]. intros remaining done. simpl. by rewrite Hiter.
Qed.

(** ** C9 *)

(** C9.  A reply without final-answer marker whose action names a tool
    that is not registered makes the pass add to the scratchpad the reply
    and an observation that says the tool was not found and lists the
    names of the registered tools; no tool is invoked, and the loop goes
    on with the passes that are left. *)
Theorem unknown_tool_observed tools (input_text chat_history scratchpad : string)
    (steps : list (string * string * string)) w response w1
    (action_part action_input_part : string) :
  agent_invoke (make_input tools input_text chat_history scratchpad) w
    = (Returns response, w1) ->
  contains "Final Answer:" response = false ->
  contains "Action:" response = true ->
  contains "Action Input:" response = true ->
  parse_action response = Returns (action_part, action_input_part) ->
  dict_get action_part (make_tool_map tools) = None ->
  let observation :=
    "Error - Tool '" +:+ action_part +:+ "' not found. Available tools: "
    +:+ join ", " (dict_keys (make_tool_map tools)) in
  let scratchpad' :=
    scratchpad +:+ nl +:+ response +:+ nl +:+ "Observation: " +:+ observation
    +:+ nl +:+ "Thought: " in
  iteration agent_invoke tools (make_tool_map tools) input_text chat_history
    scratchpad steps w = (Next scratchpad' steps, w1) /\
  (forall tool, In tool tools -> contains (name tool) observation = true) /\
  (forall remaining done,
     agent_loop agent_invoke tools (make_tool_map tools) input_text chat_history
       (S remaining) done scratchpad steps w
     = agent_loop agent_invoke tools (make_tool_map tools) input_text chat_history
         remaining (S done) scratchpad' steps w1).
Proof.
  intros Hinv Hfa HA HI Hparse Hget observation scratchpad'.
  assert (Hiter : iteration agent_invoke tools (make_tool_map tools) input_text chat_history
                    scratchpad steps w = (Next scratchpad' steps, w1)).
  { unfold iteration. rewrite Hinv. unfold handle_response.
    rewrite Hfa, HA, HI. cbn [andb]. by rewrite Hparse, Hget. }
  split; [done|]. split.
  - intros tool Hin. subst observation.
    do 3 apply contains_app_right. apply join_contains, tool_map_keys, Hin.
  - intros remaining done. simpl. by rewrite Hiter.
Qed.

End AgentTheorems.

Section AgentExamples.
Import Examples.

(** C6 on the model that always asks for the tool ["echo"]. *)
Lemma iteration_budget_exhausted_witness :
  let episode :=
    run_episode acting_model [echo_tool] "How many rows?" "No previous conversation." 5 0%nat in
  (forall inp w0, exists response w1,
      acting_model inp w0 = (Returns response, w1) /\
      action_on_known_tool (make_tool_map [echo_tool]) response) /\
  (forall tool arg w0, In tool [echo_tool] -> returned (func tool arg w0).1) /\
  answer episode = rephrase_message /\
  iterations episode = 5%nat /\
  last_world episode = 5%nat.
Proof.
  intros episode.
  assert (Hmodel : forall inp w0, exists response w1,
             acting_model inp w0 = (Returns response, w1) /\
             action_on_known_tool (make_tool_map [echo_tool]) response).
  { intros inp w0. exists acting_reply, (S w0). split; [reflexivity|].
    split; [by vm_compute|]. split; [by vm_compute|]. split; [by vm_compute|].
    exists "echo", "hello", echo_tool. split; by vm_compute. }
  assert (Htools : forall tool arg w0,
             In tool [echo_tool] -> returned (func tool arg w0).1).
  { intros tool arg w0 [<-|[]]. by exists arg. }
  split; [exact Hmodel|]. split; [exact Htools|].
  destruct (iteration_budget_exhausted acting_model [echo_tool] "How many rows?"
              "No previous conversation." 5 0%nat Hmodel Htools) as (_ & Ha & Hi & _).
  split; [exact Ha|]. split; [exact Hi|]. by vm_compute.
Defined.

(** C8 fails as stated.  The reply below has none of the markers that
    the loop acts on; the episode ends in the first pass, and the answer
    is not the reply as the model gave it: the leading ["Thought:"] and the
    blanks at the ends are gone. *)
Lemma raw_reply_counterexample :
  let episode :=
    run_episode musing_model [echo_tool] "How many rows?" "No previous conversation." 5 0%nat in
  musing_reply = "Thought: The table holds 42 rows. " /\
  contains "Final Answer:" musing_reply = false /\
  contains "Action:" musing_reply && contains "Action Input:" musing_reply = false /\
  iterations episode = 1%nat /\
  answer episode = "The table holds 42 rows." /\
  answer episode <> musing_reply.
Proof. intros episode. repeat split; by vm_compute. Qed.

(** C8 on the model that only muses. *)
Lemma unmarked_reply_ends_episode_witness :
  let inp := make_input [echo_tool] "How many rows?" "No previous conversation." EmptyString in
  musing_model inp 0%nat = (Returns musing_reply, 1%nat) /\
  contains "Final Answer:" musing_reply = false /\
  contains "Action:" musing_reply && contains "Action Input:" musing_reply = false /\
  exists tail,
    item_last (split "Thought:" musing_reply) = Some tail /\
    iteration musing_model [echo_tool] (make_tool_map [echo_tool]) "How many rows?"
      "No previous conversation." EmptyString [] 0%nat = (Return (strip tail), 1%nat).
Proof.
  intros inp.
  assert (H1 : musing_model inp 0%nat = (Returns musing_reply, 1%nat)) by reflexivity.
  assert (H2 : contains "Final Answer:" musing_reply = false) by (by vm_compute).
  assert (H3 : contains "Action:" musing_reply && contains "Action Input:" musing_reply = false)
    by (by vm_compute).
  split; [exact H1|]. split; [exact H2|]. split; [exact H3|].
  destruct (unmarked_reply_ends_episode musing_model [echo_tool] "How many rows?"
              "No previous conversation." EmptyString [] 0%nat musing_reply 1%nat H1 H2 H3)
    as (tail & Htail & _ & _ & _ & Hiter & _).
  exists tail. by split.
Defined.

(** C9 on the model that asks for a tool nobody registered. *)
Lemma unknown_tool_observed_witness :
  let inp := make_input [echo_tool] "How many rows?" "No previous conversation." EmptyString in
  stray_model inp 0%nat = (Returns stray_reply, 1%nat) /\
  contains "Final Answer:" stray_reply = false /\
  contains "Action:" stray_reply = true /\
  contains "Action Input:" stray_reply = true /\
  parse_action stray_reply = Returns ("search_web", "hello") /\
  dict_get "search_web" (make_tool_map [echo_tool]) = None /\
  iteration stray_model [echo_tool] (make_tool_map [echo_tool]) "How many rows?"
    "No previous conversation." EmptyString [] 0%nat
  = (Next (nl +:+ stray_reply +:+ nl
           +:+ "Observation: Error - Tool 'search_web' not found. Available tools: echo"
           +:+ nl +:+ "Thought: ") [], 1%nat).
Proof.
  intros inp.
  assert (H1 : stray_model inp 0%nat = (Returns stray_reply, 1%nat)) by reflexivity.
  assert (H2 : contains "Final Answer:" stray_reply = false) by (by vm_compute).
  assert (H3 : contains "Action:" stray_reply = true) by (by vm_compute).
  assert (H4 : contains "Action Input:" stray_reply = true) by (by vm_compute).
  assert (H5 : parse_action stray_reply = Returns ("search_web", "hello")) by (by vm_compute).
  assert (H6 : dict_get "search_web" (make_tool_map [echo_tool]) = None) by (by vm_compute).
  repeat (split; [assumption|]).
  exact (proj1 (unknown_tool_observed stray_model [echo_tool] "How many rows?"
                  "No previous conversation." EmptyString [] 0%nat stray_reply 1%nat
                  "search_web" "hello" H1 H2 H3 H4 H5 H6)).
Defined.

End AgentExamples.

(* ===================================================================== *)
(** * The scenarios of the specification *)
(* ===================================================================== *)

Section Scenarios.
#[local] Existing Instance Examples.sample_tables.
#[local] Existing Instance Examples.first_word_parser.

(** ["SELECT 1"] eleven times in a minute for one identity: the eleventh
    call is refused by the limiter, while another identity is served. *)
Example eleventh_call_refused :
  let v10 := Examples.busy_validator in
  (validate 59 "SELECT 1" (Some "analyst") v10).1
    = reject "Rate limit exceeded. Please wait before making more queries." /\
  (validate 59 "SELECT 1" (Some "auditor") v10).1 = accept /\
  (validate 60 "SELECT 1" (Some "analyst") v10).1 = accept.
Proof. repeat split; by vm_compute. Qed.

Example empty_text_refused :
  (validate 0 EmptyString None new_SQLQueryValidator).1 = reject "Query cannot be empty.".
Proof. by vm_compute. Qed.

Example comment_refused :
  (validate 0 "SELECT * FROM users -- WHERE admin = 1" None new_SQLQueryValidator).1
    = reject "SQL comments are not allowed.".
Proof. by vm_compute. Qed.

Example stacked_select_refused :
  (validate 0 "SELECT 1; SELECT 2" None new_SQLQueryValidator).1
    = reject "Multiple SQL statements are not allowed.".
Proof. by vm_compute. Qed.

(** The tool does not look at who is asking: it serves while the window
    of ["analyst"] is full, and refuses once ten calls have gone through
    the window of ["default_user"]. *)
Example tool_window_is_default_user :
  let D := Examples.table_db in
  let ex := mk_SecureSQLExecutor Examples.busy_validator [] in
  let ex10 :=
    mk_SecureSQLExecutor
      (mk_SQLQueryValidator
         (serve (repeat (0, "default_user") 10) (new_RateLimiter 10 60)).2) [] in
  requests_of (rate_limiter Examples.busy_validator) "analyst" = repeat 0 10 /\
  (run_query 5 "SELECT * FROM t" ex).1 = Returns
    ("✓ Query returned 100 row(s):" +:+ nl +:+ nl +:+ "id" +:+ nl
     +:+ "-------------------------------" +:+ nl
     +:+ "1" +:+ nl +:+ "2" +:+ nl +:+ "3" +:+ nl +:+ "4" +:+ nl +:+ "5" +:+ nl
     +:+ "6" +:+ nl +:+ "7" +:+ nl +:+ "8" +:+ nl +:+ "9" +:+ nl +:+ "10" +:+ nl
     +:+ nl +:+ "... and 90 more rows") /\
  (run_query 5 "SELECT * FROM t" ex10).1 = Returns
    "❌ Query failed: Rate limit exceeded. Please wait before making more queries.".
Proof. intros D ex ex10. repeat split; by vm_compute. Qed.

(** The letters [LIMIT] inside a column name are enough for the rewrite
    to leave the text alone, also when they read [LIMIT] in upper case
    only, as [lımıt] with its dotless i does. *)
Example limit_inside_a_name :
  add_limit "SELECT rate_limit FROM plans" 100 = "SELECT rate_limit FROM plans" /\
  add_limit "SELECT 1 AS lımıt FROM t" 100 = "SELECT 1 AS lımıt FROM t" /\
  add_limit "SELECT rate FROM plans;" 100 = "SELECT rate FROM plans LIMIT 100".
Proof. repeat split; by vm_compute. Qed.

(** The window is open at its old end: with limit 1 and window 60, calls
    at readings 0 and 60 are both admitted, a call at 59 is not. *)
Example window_boundary :
  (serve [(0, "ann"); (59, "ann"); (60, "ann")] (new_RateLimiter 1 60)).1
  = [(0, "ann", true); (59, "ann", false); (60, "ann", true)].
Proof. by vm_compute. Qed.

(** Why the clock must not run backwards: when the reading drops from 161
    to 102, the limiter with limit 2 admits a third call within two
    ticks of the first. *)
Example clock_running_backwards :
  (serve [(100, "ann"); (101, "ann"); (161, "ann"); (102, "ann")] (new_RateLimiter 2 60)).1
  = [(100, "ann", true); (101, "ann", true); (161, "ann", true); (102, "ann", true)].
Proof. by vm_compute. Qed.

(** A tool that raises ends the episode in that pass, with the text of
    the exception in the answer. *)
Example failing_tool_ends_episode :
  let episode :=
    run_episode Examples.acting_model [Examples.broken_tool] "How many rows?"
      "No previous conversation." 5 0%nat in
  iterations episode = 1%nat /\
  answer episode = "I encountered an error while processing your request: connection reset".
Proof. intros episode. split; by vm_compute. Qed.

(** Blanks beyond ASCII at the ends of the pieces of a reply are removed
    like the others: a tool name followed by a no-break blank (U+00A0) is
    found in the registry and the tool is invoked, and an answer followed
    by one is returned without it. *)
Example no_break_blank_is_stripped :
  let acting := "Action: echo" +:+ utf8 0xA0 +:+ nl +:+ "Action Input: hello" in
  let musing := "Thought: done" +:+ utf8 0xA0 in
  parse_action acting = Returns ("echo", "hello") /\
  iteration (fun _ (w : nat) => (Returns acting, S w)) [Examples.echo_tool]
    (make_tool_map [Examples.echo_tool]) "How many rows?" "No previous conversation."
    EmptyString [] 0%nat
  = (Next (nl +:+ acting +:+ nl +:+ "Observation: hello" +:+ nl +:+ "Thought: ")
       [("echo", "hello", "hello")], 1%nat) /\
  execute_agent (fun _ (w : nat) => (Returns musing, S w)) [Examples.echo_tool]
    "How many rows?" "No previous conversation." 5 0%nat = "done".
Proof. intros acting musing. repeat split; by vm_compute. Qed.

(** A reply with a final-answer marker ends the episode whatever else it
    carries. *)
Example final_answer_wins :
  let reply := "Action: search_web" +:+ nl +:+ "Action Input: x" +:+ nl
               +:+ "Final Answer: 42 rows. " in
  execute_agent (fun _ (w : nat) => (Returns reply, S w)) [Examples.echo_tool]
    "How many rows?" "No previous conversation." 5 0%nat = "42 rows.".
Proof. by vm_compute. Qed.

End Scenarios.

(* ===================================================================== *)
(** * Further properties of the validator *)
(* ===================================================================== *)

Section ValidatorMore.
Context `{UnicodeData} `{SqlParse}.
Implicit Types (q : string) (v : SQLQueryValidator) (uid : option string).

Lemma occurs_by_test sub s : contains sub s = false -> ~ occurs sub s.
Proof. intros Hc Ho. apply contains_occurs in Ho. congruence. Qed.

(** What an accepted text went through. *)
Lemma validate_accept_conditions (now : Z) q uid v :
  valid (validate now q uid v).1 = true ->
  (rate_limited now uid v).1 = false /\
  len q <= MAX_QUERY_LENGTH /\
  truthy (strip q) = true /\
  parses_as_select q /\
  (forall kw, In kw BLOCKED_KEYWORDS -> ~ occurs_as_word kw (upper q)) /\
  ~ occurs "--" q /\ ~ occurs "/*" q /\ ~ occurs "*/" q /\
  terminator_only_at_end q /\
  re_findall_word_count "FROM" (upper q) + re_findall_word_count "JOIN" (upper q)
    <= MAX_TABLES.
Proof.
  unfold validate. destruct (rate_limited now uid v) as [[] v']; cbn [fst]; [done|].
  unfold validate_text.
  destruct (Z.gtb_spec (len q) MAX_QUERY_LENGTH) as [|Hlen]; [done|].
  destruct (truthy q) eqn:Hq; [|done].
  destruct (truthy (strip q)) eqn:Hs; [|done]. cbn [negb orb].
  destruct (parse_check q) as [r|] eqn:Hp.
  { destruct (parse_check_rejects q r Hp) as [reason ->]. done. }
  destruct (blocked_keyword q) as [k|] eqn:Hk; [done|].
  destruct (contains "--" q) eqn:H1; [done|].
  destruct (contains "/*" q) eqn:H2; [done|].
  destruct (contains "*/" q) eqn:H3; [done|]. cbn [orb].
  destruct (contains ";" (rstrip_char ";" q)) eqn:H4; [done|].
  destruct (Z.gtb_spec (_count_tables q) MAX_TABLES) as [|Hcount]; [done|].
  intros _. split; [done|]. split; [done|]. split; [done|].
  split; [by apply parse_check_None|].
  split; [by apply blocked_keyword_None|].
  split; [by apply occurs_by_test|]. split; [by apply occurs_by_test|].
  split; [by apply occurs_by_test|].
  split; [by apply stacked_test_spec|]. done.
Qed.


(** X1.  What an accepted text is like: the limiter let the call through,
    and the text is within the maximum length, not blank, parses as a
    [SELECT], has an upper-cased form that holds no blocked keyword as a
    whole word, holds no comment marker and no terminator before its
    trailing ones, and has an upper-cased form in which the words [FROM]
    and [JOIN] are counted at most [MAX_TABLES] times. *)
Theorem accepted_text_is_clean (now : Z) q uid v :
  valid (validate now q uid v).1 = true ->
  (rate_limited now uid v).1 = false /\
  len q <= MAX_QUERY_LENGTH /\
  truthy (strip q) = true /\
  parses_as_select q /\
  (forall kw, In kw BLOCKED_KEYWORDS -> ~ occurs_as_word kw (upper q)) /\
  ~ occurs "--" q /\ ~ occurs "/*" q /\ ~ occurs "*/" q /\
  terminator_only_at_end q /\
  re_findall_word_count "FROM" (upper q) + re_findall_word_count "JOIN" (upper q)
    <= MAX_TABLES.
Proof. apply validate_accept_conditions. Qed.

(** X2.  A verdict either is valid and carries no reason, or is invalid
    and carries exactly one. *)
Theorem verdict_reason_iff_invalid (now : Z) q uid v :
  let verdict := (validate now q uid v).1 in
  (valid verdict = true /\ error verdict = None) \/
  (valid verdict = false /\ exists reason, error verdict = Some reason).
Proof.
  intros verdict. subst verdict.
  destruct (validate_shape now q uid v) as [->|[reason ->]].
  - by left.
  - right. split; [done|]. by exists reason.
Qed.

(** X3.  The limiter is asked before the text is looked at: for a truthy
    identity the limiter ends as [allow_request] leaves it whatever the
    text, so that a text refused for what it contains still takes one of
    the admissions of the window; without identity the validator is left
    as it was. *)
Theorem limiter_consulted_before_text (now : Z) q (u : string) v :
  truthy u = true ->
  let rl := rate_limiter v in
  rate_limiter (validate now q (Some u) v).2 = (allow_request now u rl).2 /\
  ((allow_request now u rl).1 = true ->
   (validate now q (Some u) v).1 = validate_text q /\
   requests_of (rate_limiter (validate now q (Some u) v).2) u
   = clean_old now (time_window rl) (requests_of rl u) ++ [now]) /\
  (validate now q None v).2 = v /\
  (validate now q (Some EmptyString) v).2 = v.
Proof.
  intros Hu rl. subst rl.
  destruct (validate_limiter now q u v Hu) as [Hstate _].
  split; [exact Hstate|]. split; [|by split].
  intros Hallowed. split.
  - unfold validate, rate_limited, truthy_id. rewrite Hu.
    destruct (allow_request now u (rate_limiter v)) as [allowed rl'].
    cbn [fst] in Hallowed. subst allowed. done.
  - rewrite Hstate.
    destruct (allow_request_spec now u (rate_limiter v)) as (Hd & Hs & _).
    rewrite Hs. rewrite Hd in Hallowed. by rewrite Hallowed.
Qed.

(** X4.  The scan for one blocked keyword: the pattern is found in the
    upper-cased text exactly when the characters of the keyword stand
    somewhere in that text with no word character, that is no letter or
    digit of any script and no underscore, right before or right after
    them. *)
Theorem keyword_scan_whole_words (kw : string) q :
  In kw BLOCKED_KEYWORDS ->
  re_search_word kw (upper q) = true <->
  exists pre post : list string,
    chars (upper q) = pre ++ chars kw ++ post /\
    is_word_opt (last pre) = false /\ is_word_opt (head post) = false.
Proof.
  intros Hin. apply re_search_word_spec. by apply blocked_keywords_word_delimited.
Qed.

End ValidatorMore.

Section ValidatorMoreExamples.
#[local] Existing Instance Examples.sample_tables.
#[local] Existing Instance Examples.first_word_parser.

(** X1 on the join query of the test suite. *)
Lemma accepted_text_is_clean_witness :
  let q := "SELECT u.name FROM users u LEFT JOIN messages m ON u.id = m.user_id" in
  valid (validate 0 q None new_SQLQueryValidator).1 = true /\
  parses_as_select q /\ terminator_only_at_end q /\
  (forall kw, In kw BLOCKED_KEYWORDS -> ~ occurs_as_word kw (upper q)) /\
  _count_tables q = 2.
Proof.
  intros q.
  assert (Hv : valid (validate 0 q None new_SQLQueryValidator).1 = true) by (by vm_compute).
  destruct (accepted_text_is_clean 0 q None new_SQLQueryValidator Hv)
    as (_ & _ & _ & Hp & Hk & _ & _ & _ & Ht & _).
  split; [exact Hv|]. split; [exact Hp|]. split; [exact Ht|]. split; [exact Hk|].
  by vm_compute.
Defined.

(** X3 on a text that is refused for a keyword: the call is recorded. *)
Lemma limiter_consulted_before_text_witness :
  truthy "analyst" = true /\
  (validate 7 "SELECT 'drop'" (Some "analyst") new_SQLQueryValidator).1
    = reject "Blocked keyword detected: DROP" /\
  requests_of
    (rate_limiter (validate 7 "SELECT 'drop'" (Some "analyst") new_SQLQueryValidator).2)
    "analyst" = [7].
Proof.
  assert (Hu : truthy "analyst" = true) by reflexivity.
  destruct (limiter_consulted_before_text 7 "SELECT 'drop'" "analyst"
              new_SQLQueryValidator Hu) as (_ & Hrec & _).
  split; [exact Hu|]. split; [by vm_compute|].
  destruct (Hrec ltac:(by vm_compute)) as [_ Hwin]. rewrite Hwin. by vm_compute.
Defined.

(** X4: [BACKUP] inside [backup_id] is not a whole word, [backup] in a
    literal is. *)
Lemma keyword_scan_whole_words_witness :
  In "BACKUP" BLOCKED_KEYWORDS /\
  ~ occurs_as_word "BACKUP" (upper "SELECT backup_id FROM runs") /\
  occurs_as_word "BACKUP" (upper "SELECT 'backup' FROM runs").
Proof.
  assert (Hin : In "BACKUP" BLOCKED_KEYWORDS) by (simpl; tauto).
  split; [exact Hin|]. split.
  - intros Hocc.
    apply (keyword_scan_whole_words "BACKUP" "SELECT backup_id FROM runs" Hin) in Hocc.
    by vm_compute in Hocc.
  - apply (keyword_scan_whole_words "BACKUP" "SELECT 'backup' FROM runs" Hin).
    by vm_compute.
Defined.

End ValidatorMoreExamples.

(* ===================================================================== *)
(** * Further properties of the rate limiter *)
(* ===================================================================== *)

Section RateLimiterMore.
Implicit Types (rl : RateLimiter) (u : string) (t : Z).

Lemma clean_old_length t W (l : list Z) : (length (clean_old t W l) <= length l)%nat.
Proof. unfold clean_old. apply length_filter. Qed.

Lemma allow_request_keeps_bound t u0 rl :
  (forall u, Z.of_nat (length (requests_of rl u)) <= max_requests rl) ->
  forall u, Z.of_nat (length (requests_of (allow_request t u0 rl).2 u))
            <= max_requests (allow_request t u0 rl).2.
Proof.
  intros Hinv u.
  destruct (allow_request_spec t u0 rl) as (_ & Hsame & Hother & -> & _).
  destruct (decide (u0 = u)) as [<-|Hne].
  - rewrite Hsame. case_bool_decide as Hlt.
    + rewrite length_app. simpl. lia.
    + pose proof (clean_old_length t (time_window rl) (requests_of rl u0)).
      specialize (Hinv u0). lia.
  - rewrite Hother by done. apply Hinv.
Qed.

Lemma serve_keeps_bound calls : forall rl,
  (forall u, Z.of_nat (length (requests_of rl u)) <= max_requests rl) ->
  forall u, Z.of_nat (length (requests_of (serve calls rl).2 u))
            <= max_requests (serve calls rl).2.
Proof.
  induction calls as [|[t0 u0] calls IH]; intros rl Hinv; [done|].
  rewrite serve_cons. cbn [snd]. apply IH. by apply allow_request_keeps_bound.
Qed.

(** X5.  A limiter created with a limit [N >= 0] never stores more than
    [N] times for an identity, whatever calls it serves and whatever the
    clock does. *)
Theorem window_never_exceeds_limit (N W : Z) (calls : list (Z * string)) (u : string) :
  0 <= N ->
  Z.of_nat (length (requests_of (serve calls (new_RateLimiter N W)).2 u)) <= N.
Proof.
  intros HN.
  pose proof (serve_keeps_bound calls (new_RateLimiter N W)) as Hb.
  destruct (serve_limits calls (new_RateLimiter N W)) as [HN' _].
  rewrite HN' in Hb. apply Hb.
  intros u'. rewrite requests_of_new. simpl. lia.
Qed.

Lemma clean_old_repeat t W (j : nat) : 0 < W -> clean_old t W (repeat t j) = repeat t j.
Proof.
  intros HW. unfold clean_old. induction j as [|j IH]; [done|].
  simpl. rewrite filter_cons. destruct (decide (t - t < W)); [by rewrite IH|lia].
Qed.

Lemma serve_burst t u (N W : Z) (k : nat) : forall rl (j : nat),
  0 < W -> max_requests rl = N -> time_window rl = W ->
  requests_of rl u = repeat t j ->
  (serve (repeat (t, u) k) rl).1
  = map (fun i => (t, u, bool_decide (Z.of_nat (j + i) < N))) (seq 0 k).
Proof.
  induction k as [|k IH]; intros rl j HW HN HWin Hreq; [done|].
  cbn [repeat]. rewrite serve_cons. cbn [fst seq map].
  destruct (allow_request_spec t u rl) as (Hd & Hs & _ & HN' & HW').
  rewrite Hreq, HWin, clean_old_repeat, repeat_length, HN in Hd, Hs by done.
  rewrite Hd. rewrite Nat.add_0_r. f_equal.
  rewrite <- seq_shift, map_map.
  case_bool_decide as Hlt.
  - rewrite (IH _ (S j)); [|done|congruence|congruence|].
    + apply map_ext. intros i. by replace (S j + i)%nat with (j + S i)%nat by lia.
    + rewrite Hs. by rewrite <- repeat_cons.
  - rewrite (IH _ j); [|done|congruence|congruence|done].
    apply map_ext. intros i. f_equal.
    rewrite !bool_decide_eq_false_2; [done|lia|lia].
Qed.

(** X6.  A burst: of [k] calls made for one identity at the same clock
    reading to a new limiter with a window [W > 0], call number [i]
    (from 0) is admitted exactly when [i < N]. *)
Theorem burst_admits_first_calls (N W t : Z) (u : string) (k : nat) :
  0 < W ->
  (serve (repeat (t, u) k) (new_RateLimiter N W)).1
  = map (fun i => (t, u, bool_decide (Z.of_nat i < N))) (seq 0 k).
Proof.
  intros HW.
  rewrite (serve_burst t u N W k (new_RateLimiter N W) 0 HW eq_refl eq_refl
             (requests_of_new N W u)).
  done.
Qed.

Lemma clean_old_all_old t W (l : list Z) :
  (forall r, r ∈ l -> r + W <= t) -> clean_old t W l = [].
Proof.
  unfold clean_old. induction l as [|r l IH]; intros Hold; [done|].
  rewrite filter_cons. destruct (decide (t - r < W)) as [Hlt|_].
  - specialize (Hold r ltac:(by left)). lia.
  - apply IH. intros r' Hr'. apply Hold. by right.
Qed.

(** X7.  Once every time stored for an identity is at least a window old,
    a limiter with a positive limit admits the identity again, and its
    window holds the new call only. *)
Theorem admitted_again_after_window t u rl :
  0 < max_requests rl ->
  (forall r, r ∈ requests_of rl u -> r + time_window rl <= t) ->
  (allow_request t u rl).1 = true /\
  requests_of (allow_request t u rl).2 u = [t].
Proof.
  intros HN Hold.
  destruct (allow_request_spec t u rl) as (Hd & Hs & _).
  pose proof (clean_old_all_old t (time_window rl) _ Hold) as Hkept.
  rewrite Hkept in Hd, Hs. simpl in Hd, Hs.
  rewrite bool_decide_eq_true_2 in Hd, Hs by lia. by split.
Qed.

End RateLimiterMore.

(** X5 with limit 2: five calls in a row leave two times in the window. *)
Lemma window_never_exceeds_limit_witness :
  0 <= 2 /\
  Z.of_nat (length (requests_of
    (serve (repeat (3, "ann") 5) (new_RateLimiter 2 60)).2 "ann")) <= 2 /\
  requests_of (serve (repeat (3, "ann") 5) (new_RateLimiter 2 60)).2 "ann" = [3; 3].
Proof.
  assert (H0 : 0 <= 2) by lia.
  split; [exact H0|]. split.
  - exact (window_never_exceeds_limit 2 60 (repeat (3, "ann") 5) "ann" H0).
  - by vm_compute.
Defined.

(** X6 for the limiter of the validator: the eleventh call of a burst is
    the first one denied. *)
Lemma burst_admits_first_calls_witness :
  0 < 60 /\
  (serve (repeat (0, "ann") 11) (new_RateLimiter 10 60)).1
  = map (fun i => (0, "ann", bool_decide (Z.of_nat i < 10))) (seq 0 11).
Proof.
  assert (HW : 0 < 60) by lia.
  split; [exact HW|]. exact (burst_admits_first_calls 10 60 0 "ann" 11 HW).
Defined.

(** X7 on the full window of ["analyst"], sixty ticks later. *)
Lemma admitted_again_after_window_witness :
  let rl := rate_limiter Examples.busy_validator in
  0 < max_requests rl /\
  (forall r, r ∈ requests_of rl "analyst" -> r + time_window rl <= 60) /\
  (allow_request 59 "analyst" rl).1 = false /\
  (allow_request 60 "analyst" rl).1 = true /\
  requests_of (allow_request 60 "analyst" rl).2 "analyst" = [60].
Proof.
  intros rl.
  assert (HN : 0 < max_requests rl) by (by vm_compute).
  assert (Hold : forall r, r ∈ requests_of rl "analyst" -> r + time_window rl <= 60).
  { intros r Hr. assert (Hreq : requests_of rl "analyst" = repeat 0 10) by (by vm_compute).
    rewrite Hreq in Hr. apply list_elem_of_In, repeat_spec in Hr. subst r.
    by vm_compute. }
  destruct (admitted_again_after_window 60 "analyst" rl HN Hold) as [Ha Hw].
  split; [exact HN|]. split; [exact Hold|]. split; [by vm_compute|]. by split.
Defined.

(* ===================================================================== *)
(** * Further properties of the executor and of the query tool *)
(* ===================================================================== *)

Section DictMore.
Context {V : Type}.
Implicit Types (d pairs : list (string * V)) (k : string) (v : V).

Lemma dict_get_app k d d' :
  dict_get k (d ++ d') = match dict_get k d with Some v => Some v | None => dict_get k d' end.
Proof.
  induction d as [|[k0 v0] d IH]; simpl; [done|]. by destruct (String.eqb k k0).
Qed.

Lemma dict_get_fold k pairs : forall d,
  dict_get k (fold_left (fun d kv => dict_set kv.1 kv.2 d) pairs d)
  = match dict_get k (rev pairs) with Some v => Some v | None => dict_get k d end.
Proof.
  induction pairs as [|[k0 v0] pairs IH]; intros d; simpl; [done|].
  rewrite IH, dict_get_app, dict_get_set. simpl.
  destruct (dict_get k (rev pairs)); [done|]. by destruct (String.eqb k k0).
Qed.

(** Looking a key up in [dict(pairs)] gives the value of the last pair
    with that key. *)
Lemma dict_get_dict_of k pairs : dict_get k (dict_of pairs) = dict_get k (rev pairs).
Proof.
  unfold dict_of. rewrite dict_get_fold. simpl. by destruct (dict_get k (rev pairs)).
Qed.

Lemma dict_set_fresh k v d : ~ In k (dict_keys d) -> dict_set k v d = d ++ [(k, v)].
Proof.
  unfold dict_keys. induction d as [|[k0 v0] d IH]; simpl; intros Hk; [done|].
  destruct (String.eqb_spec k k0) as [->|_]; [tauto|]. rewrite IH; [done|tauto].
Qed.

Lemma dict_fold_nodup pairs : forall d,
  NoDup (map fst d ++ map fst pairs) ->
  fold_left (fun d kv => dict_set kv.1 kv.2 d) pairs d = d ++ pairs.
Proof.
  induction pairs as [|[k0 v0] pairs IH]; intros d Hnd; simpl.
  - by rewrite app_nil_r.
  - simpl in Hnd. rewrite dict_set_fresh.
    + rewrite IH; [by rewrite <- app_assoc|].
      rewrite map_app. simpl. by rewrite <- app_assoc.
    + unfold dict_keys. apply NoDup_app in Hnd as (_ & Hdis & _).
      intros Hin. apply (Hdis k0); [by apply list_elem_of_In|by left].
Qed.

(** With pairwise distinct keys [dict(pairs)] is [pairs], in order. *)
Lemma dict_of_nodup pairs : NoDup (map fst pairs) -> dict_of pairs = pairs.
Proof. intros Hnd. unfold dict_of. by rewrite dict_fold_nodup. Qed.

Lemma dict_set_keys_nodup k v d : NoDup (dict_keys d) -> NoDup (dict_keys (dict_set k v d)).
Proof.
  unfold dict_keys. induction d as [|[k0 v0] d IH]; simpl; intros Hnd.
  - apply NoDup_singleton.
  - apply NoDup_cons in Hnd as [Hk0 Hnd].
    destruct (String.eqb_spec k k0) as [->|Hne]; simpl.
    + by apply NoDup_cons.
    + apply NoDup_cons. split; [|by apply IH].
      rewrite list_elem_of_In. fold (dict_keys (dict_set k v d)).
      rewrite (dict_keys_set k v d k0). intros [?|Hin]; [congruence|].
      apply Hk0. by apply list_elem_of_In.
Qed.

Lemma dict_of_keys_nodup pairs : NoDup (dict_keys (dict_of pairs)).
Proof.
  unfold dict_of.
  assert (Hgen : forall d, NoDup (dict_keys d) ->
            NoDup (dict_keys (fold_left (fun d kv => dict_set kv.1 kv.2 d) pairs d))).
  { induction pairs as [|[k0 v0] pairs IH]; intros d Hd; simpl; [done|].
    apply IH. by apply dict_set_keys_nodup. }
  apply Hgen. apply NoDup_nil_2.
Qed.

End DictMore.

Section TextFacts.
Implicit Types (s a b : string) (c : ascii).

Lemma contains_char_app c a b :
  contains (String c EmptyString) (a +:+ b)
  = contains (String c EmptyString) a || contains (String c EmptyString) b.
Proof.
  induction a as [|x a IH]; simpl.
  - by destruct b.
  - rewrite IH. by rewrite orb_assoc.
Qed.

Lemma digits_hold_no_terminator d : contains ";" (NilEmpty.string_of_uint d) = false.
Proof. induction d; simpl; done. Qed.

Lemma str_of_int_no_terminator (n : Z) : contains ";" (str_of_int n) = false.
Proof.
  unfold str_of_int, NilZero.string_of_int, NilZero.string_of_uint.
  destruct (Z.to_int n) as [d|d]; destruct d; simpl;
    rewrite ?digits_hold_no_terminator; done.
Qed.

End TextFacts.

Section ExecutorMore.
Context `{UnicodeData} `{SqlParse} `{Database}.
Implicit Types (q : string) (v : SQLQueryValidator) (uid : option string)
  (ex : SecureSQLExecutor).

(** X8.  The rewrite always gives a text that contains [LIMIT], and a
    second rewrite, with any cap, changes nothing: a text never gets two
    clauses. *)
Theorem add_limit_once q (max_rows other_cap : Z) :
  contains "LIMIT" (upper (add_limit q max_rows)) = true /\
  add_limit (add_limit q max_rows) other_cap = add_limit q max_rows.
Proof.
  assert (Hhas : contains "LIMIT" (upper (add_limit q max_rows)) = true).
  { unfold add_limit. destruct (contains "LIMIT" (upper q)) eqn:Hc; simpl; [done|].
    apply own_clause_found. }
  split; [exact Hhas|]. by apply add_limit_present.
Qed.

(** X9.  The text handed to the engine for an admitted text has
    terminators at its very end only, and none at all when the cap was
    appended: the appended clause is part of the one statement. *)
Theorem executed_text_is_one_statement (now : Z) q uid (max_rows : Z) ex :
  valid (validate now q uid (validator ex)).1 = true ->
  executed (execute_query now q uid max_rows ex).2 = executed ex ++ [add_limit q max_rows] /\
  terminator_only_at_end (add_limit q max_rows) /\
  (contains "LIMIT" (upper q) = false -> ~ occurs ";" (add_limit q max_rows)).
Proof.
  intros Hvalid.
  destruct (validate_accept_conditions now q uid _ Hvalid)
    as (_ & _ & _ & _ & _ & _ & _ & _ & Hterm & _).
  assert (Hcapped : contains "LIMIT" (upper q) = false ->
                    contains ";" (add_limit q max_rows) = false).
  { intros Habsent. rewrite (add_limit_absent q max_rows Habsent).
    rewrite !contains_char_app. apply stacked_test_spec in Hterm. rewrite Hterm.
    by rewrite str_of_int_no_terminator. }
  split; [|split].
  - apply valid_true_accept in Hvalid.
    by rewrite (execute_query_admitted now q uid max_rows ex Hvalid).
  - destruct (contains "LIMIT" (upper q)) eqn:Hc.
    + by rewrite (add_limit_present q max_rows Hc).
    + exists (add_limit q max_rows), EmptyString. rewrite app_empty_r.
      split; [done|]. split; [|done]. apply occurs_by_test. by apply Hcapped.
  - intros Habsent. apply occurs_by_test. by apply Hcapped.
Qed.

(** X10.  The shape of a result: when the engine answers an admitted text
    with pairwise distinct column names and rows as wide as the list of
    columns, [execute_query] returns every row as the list of its cells
    paired with the column names, in the order of the columns, and the
    number of rows as the row count. *)
Theorem rows_keep_column_order (now : Z) q uid (max_rows : Z) ex
    (columns : list string) (rows : list (list value)) :
  valid (validate now q uid (validator ex)).1 = true ->
  db_execute (add_limit q max_rows) = Returns (columns, rows) ->
  NoDup columns ->
  Forall (fun row => length row = length columns) rows ->
  (execute_query now q uid max_rows ex).1
  = Returns (Success (map (zip columns) rows) (Z.of_nat (length rows))).
Proof.
  intros Hvalid Hdb Hnd Hwide. apply valid_true_accept in Hvalid.
  rewrite (execute_query_admitted now q uid max_rows ex Hvalid). cbn [fst].
  assert (Hmap : map (fun row => dict_of (zip columns row)) rows = map (zip columns) rows).
  { apply map_ext_in. intros row Hrow. apply dict_of_nodup.
    rewrite Forall_forall in Hwide. specialize (Hwide row ltac:(by apply list_elem_of_In)).
    change (map fst (zip columns row)) with ((zip columns row).*1).
    rewrite fst_zip; [done|lia]. }
  rewrite Hdb. simpl. by rewrite Hmap, length_map.
Qed.

(** X11.  Column names that repeat: a row of the result never has two
    entries of one name, and the entry of a name holds the cell of the last
    column of that name. *)
Theorem repeated_column_last_wins (columns : list string) (row : list value) (c : string) :
  NoDup (dict_keys (dict_of (zip columns row))) /\
  dict_get c (dict_of (zip columns row)) = dict_get c (rev (zip columns row)).
Proof. split; [apply dict_of_keys_nodup|apply dict_get_dict_of]. Qed.

(** X12.  The tool always answers with a text.  A refusal of the
    validator and a failure of the engine come back after the mark of
    failure, word for word; an empty result gives the fixed message. *)
Theorem run_query_always_answers (now : Z) q ex :
  let verdict := (validate now q (Some "default_user") (validator ex)).1 in
  let sent := add_limit q default_max_rows in
  returned (run_query now q ex).1 /\
  (forall reason, verdict = reject reason ->
     (run_query now q ex).1 = Returns ("❌ Query failed: " +:+ reason)) /\
  (forall e, verdict = accept -> db_execute sent = Raises e ->
     (run_query now q ex).1
     = Returns ("❌ Query failed: "
                +:+ (match exn_kind e with
                     | SQLAlchemyError => "Database error: "
                     | OtherException => "Unexpected error: "
                     end) +:+ exn_str e)) /\
  (forall columns, verdict = accept -> db_execute sent = Returns (columns, []) ->
     (run_query now q ex).1
     = Returns "✓ Query executed successfully but returned no results.").
Proof.
  intros verdict sent. subst verdict sent. unfold run_query.
  destruct (validate_shape now q (Some "default_user") (validator ex)) as [Ha|[reason Hr]].
  - rewrite (execute_query_admitted now q _ default_max_rows ex Ha). cbn [fst].
    destruct (db_execute (add_limit q default_max_rows)) as [[columns rows]|e] eqn:Hdb.
    + split; [|split; [|split]].
      * simpl. destruct rows; by eexists.
      * intros reason Hr. rewrite Ha in Hr. discriminate.
      * intros e _ He. discriminate.
      * intros columns' _ Heq. injection Heq as -> ->. done.
    + split; [|split; [|split]].
      * simpl. rewrite on_error_returns. by eexists.
      * intros reason Hr. rewrite Ha in Hr. discriminate.
      * intros e' _ [= <-]. simpl. rewrite on_error_returns. simpl. done.
      * intros columns _ He. discriminate.
  - rewrite (execute_query_rejected now q _ default_max_rows ex reason Hr). cbn [fst].
    split; [by eexists|]. split; [|split].
    + intros reason' Hr'. rewrite Hr in Hr'. by injection Hr' as <-.
    + intros e Ha. rewrite Hr in Ha. discriminate.
    + intros columns Ha. rewrite Hr in Ha. discriminate.
Qed.

End ExecutorMore.

Section ToolWindow.
Context `{UnicodeData} `{SqlParse} `{Database}.
Implicit Types (q : string) (ex : SecureSQLExecutor).

Lemma filter_sublist_mono {A} (P : A -> Prop) `{!forall x, Decision (P x)} (l1 l2 : list A) :
  l1 `sublist_of` l2 -> filter P l1 `sublist_of` filter P l2.
Proof.
  induction 1 as [|x l1 l2 _ IH|x l1 l2 _ IH]; [constructor| |].
  - rewrite !filter_cons. destruct (decide (P x)); [by constructor|done].
  - rewrite filter_cons. destruct (decide (P x)); [by constructor|done].
Qed.

(** A limiter started empty, with a limit [N >= 0], under a clock that
    does not run backwards: no window holds more than [N] admissions. *)
Lemma new_limiter_window_bound (N W : Z) (calls : list (Z * string)) (u : string) (t : Z) :
  0 <= N -> StronglySorted Z.le calls.*1 ->
  Z.of_nat (length (in_window W t (admitted_times u (serve calls (new_RateLimiter N W)).1)))
  <= N.
Proof.
  intros HN Hsorted.
  assert (Hinv : window_inv (new_RateLimiter N W) u [] (hd 0 calls.*1)).
  { split; simpl.
    - intros t' _. by rewrite requests_of_new.
    - intros t'. unfold in_window. simpl. lia. }
  assert (Hs : StronglySorted Z.le (hd 0 calls.*1 :: calls.*1)).
  { constructor; [done|].
    destruct calls as [|[t0 u0] calls']; simpl; [constructor|].
    simpl in Hsorted. apply StronglySorted_inv in Hsorted as [_ Hall].
    constructor; [lia|]. done. }
  destruct (serve_window_inv u calls _ _ _ Hs Hinv) as [T' [_ Hbound]].
  specialize (Hbound t). rewrite app_nil_l in Hbound.
  destruct (serve_limits calls (new_RateLimiter N W)) as [HN' HW'].
  by rewrite HN', HW' in Hbound.
Qed.

(** One invocation of the tool, seen from the limiter. *)
Lemma run_query_step (now : Z) q ex :
  let rl := rate_limiter (validator ex) in
  rate_limiter (validator (run_query now q ex).2) = (allow_request now "default_user" rl).2 /\
  (length (executed (run_query now q ex).2) <> length (executed ex) ->
   (allow_request now "default_user" rl).1 = true).
Proof.
  intros rl. subst rl.
  destruct (validate_limiter now q "default_user" (validator ex) eq_refl) as [Hstate Hdenied].
  rewrite run_query_state, execute_query_validator. split; [done|].
  intros Hgrew.
  destruct (allow_request now "default_user" (rate_limiter (validator ex))).1 eqn:Hallowed;
    [done|].
  specialize (Hdenied eq_refl).
  rewrite (execute_query_rejected now q _ default_max_rows ex _ Hdenied) in Hgrew. done.
Qed.

Lemma run_queries_cons (now : Z) q (calls : list (Z * string)) ex :
  run_queries ((now, q) :: calls) ex =
  ((now, (run_query now q ex).1,
    negb (length (executed (run_query now q ex).2) =? length (executed ex))%nat)
     :: (run_queries calls (run_query now q ex).2).1,
   (run_queries calls (run_query now q ex).2).2).
Proof.
  simpl. destruct (run_query now q ex) as [r ex']. simpl.
  by destruct (run_queries calls ex').
Qed.

Lemma engine_times_admitted (calls : list (Z * string)) : forall ex,
  engine_times (run_queries calls ex).1
  `sublist_of`
  admitted_times "default_user"
    (serve (map (fun c => (c.1, "default_user")) calls) (rate_limiter (validator ex))).1.
Proof.
  induction calls as [|[now q] calls IH]; intros ex; [constructor|].
  rewrite run_queries_cons. cbn [map fst]. rewrite serve_cons. cbn [fst].
  rewrite admitted_times_cons_same.
  destruct (run_query_step now q ex) as [Hstate Hgrew].
  specialize (IH (run_query now q ex).2). rewrite Hstate in IH.
  unfold engine_times. rewrite filter_cons. cbn [snd].
  destruct (Nat.eqb_spec (length (executed (run_query now q ex).2)) (length (executed ex)))
    as [Hsame|Hdiff]; cbn [negb].
  - destruct (decide (false = true)); [done|].
    destruct (allow_request now "default_user" (rate_limiter (validator ex))).1; simpl.
    + by apply sublist_cons.
    + exact IH.
  - destruct (decide (true = true)); [|done].
    rewrite (Hgrew Hdiff). simpl. by apply sublist_skip.
Qed.

(** X13.  However many invocations the tool gets and whatever their
    texts, under a clock that does not run backwards no more than ten of
    them reach the engine within any sixty ticks: invocations that the
    validator refuses for their text use up admissions as well. *)
Theorem engine_calls_per_window (calls : list (Z * string)) (t : Z) :
  StronglySorted Z.le calls.*1 ->
  Z.of_nat (length (in_window 60 t
    (engine_times (run_queries calls new_SecureSQLExecutor).1))) <= 10.
Proof.
  intros Hsorted.
  pose proof (engine_times_admitted calls new_SecureSQLExecutor) as Hsub.
  apply (filter_sublist_mono (fun a => t - 60 < a /\ a <= t)) in Hsub.
  apply sublist_length in Hsub.
  pose proof (new_limiter_window_bound 10 60
                (map (fun c => (c.1, "default_user")) calls) "default_user" t) as Hb.
  assert (Htimes : (map (fun c : Z * string => (c.1, "default_user")) calls).*1 = calls.*1).
  { clear. induction calls as [|[t0 q0] calls IH]; [done|].
    cbn [map fmap list_fmap fst]. f_equal. exact IH. }
  rewrite Htimes in Hb. specialize (Hb ltac:(lia) Hsorted).
  unfold in_window in *. simpl in Hsub. lia.
Qed.

End ToolWindow.

Section ExecutorMoreExamples.
#[local] Existing Instance Examples.sample_tables.
#[local] Existing Instance Examples.first_word_parser.
#[local] Existing Instance Examples.table_db.

(** X9 on a text with two trailing terminators. *)
Lemma executed_text_is_one_statement_witness :
  valid (validate 0 "SELECT * FROM t;;" None (validator new_SecureSQLExecutor)).1 = true /\
  executed (execute_query 0 "SELECT * FROM t;;" None 5 new_SecureSQLExecutor).2
  = ["SELECT * FROM t LIMIT 5"] /\
  ~ occurs ";" (add_limit "SELECT * FROM t;;" 5).
Proof.
  assert (Hv : valid (validate 0 "SELECT * FROM t;;" None
                        (validator new_SecureSQLExecutor)).1 = true) by (by vm_compute).
  destruct (executed_text_is_one_statement 0 "SELECT * FROM t;;" None 5
              new_SecureSQLExecutor Hv) as (Hsent & _ & Hnone).
  split; [exact Hv|]. split; [exact Hsent|]. apply Hnone. by vm_compute.
Defined.

(** X10 on the table of the examples. *)
Lemma rows_keep_column_order_witness :
  valid (validate 0 "SELECT * FROM t LIMIT 2" None (validator new_SecureSQLExecutor)).1 = true /\
  db_execute (add_limit "SELECT * FROM t LIMIT 2" 100) = Returns (["id"], [[1]; [2]]) /\
  NoDup ["id"] /\
  Forall (fun row : list Z => length row = length ["id"]) [[1]; [2]] /\
  (execute_query 0 "SELECT * FROM t LIMIT 2" None 100 new_SecureSQLExecutor).1
  = Returns (Success [[("id", 1)]; [("id", 2)]] 2).
Proof.
  assert (Hv : valid (validate 0 "SELECT * FROM t LIMIT 2" None
                        (validator new_SecureSQLExecutor)).1 = true) by (by vm_compute).
  assert (Hdb : db_execute (add_limit "SELECT * FROM t LIMIT 2" 100)
                = Returns (["id"], [[1]; [2]])) by (by vm_compute).
  assert (Hnd : NoDup ["id"]) by (apply NoDup_singleton).
  assert (Hw : Forall (fun row : list Z => length row = length ["id"]) [[1]; [2]])
    by (by repeat constructor).
  split; [exact Hv|]. split; [exact Hdb|]. split; [exact Hnd|]. split; [exact Hw|].
  exact (rows_keep_column_order 0 "SELECT * FROM t LIMIT 2" None 100 new_SecureSQLExecutor
           ["id"] [[1]; [2]] Hv Hdb Hnd Hw).
Defined.

(** X13 on twelve invocations in a row: ten reach the engine. *)
Lemma engine_calls_per_window_witness :
  let calls := repeat (0, "SELECT * FROM t") 12 in
  StronglySorted Z.le calls.*1 /\
  Z.of_nat (length (in_window 60 0
    (engine_times (run_queries calls new_SecureSQLExecutor).1))) <= 10 /\
  length (engine_times (run_queries calls new_SecureSQLExecutor).1) = 10%nat.
Proof.
  intros calls.
  assert (Hs : StronglySorted Z.le calls.*1).
  { subst calls. simpl. repeat (constructor; [|repeat (constructor; [lia|]); constructor]).
    constructor. }
  split; [exact Hs|]. split.
  - exact (engine_calls_per_window calls 0 Hs).
  - by vm_compute.
Defined.

End ExecutorMoreExamples.

(* ===================================================================== *)
(** * Schema inspector *)
(* ===================================================================== *)

Section SchemaFacts.
Context `{SchemaReflection}.

(** X14.  The schema tool always answers with a text, the same whatever
    argument it is given.  The text names every table the reflection
    lists; when listing the tables fails the list is empty, and when
    describing them fails the text of the exception stands in for the
    description. *)
Theorem get_schema_info_always_answers (query : string) :
  exists output,
    get_schema_info query = Returns output /\
    (forall other, get_schema_info other = Returns output) /\
    (forall names table,
       db_get_usable_table_names = Returns names -> In table names ->
       contains table output = true) /\
    (forall e, db_get_usable_table_names = Raises e ->
       contains ("Available tables: " +:+ nl +:+ nl) output = true) /\
    (forall e, db_get_table_info = Raises e ->
       contains ("Error fetching table info: " +:+ exn_str e) output = true).
Proof.
  unfold get_schema_info, get_table_info, get_table_names.
  destruct db_get_table_info as [info|e1]; destruct db_get_usable_table_names as [names|e2];
    cbn [try_except mbind py_result_bind py_bind]; eexists; (split; [reflexivity|]);
    (split; [reflexivity|]); (split; [|split]).
  - intros names' table [= <-] Hin.
    apply contains_app_left, contains_app_right, contains_app_right, contains_app_left.
    by apply join_contains.
  - intros e He. discriminate.
  - intros e He. discriminate.
  - intros names' table Hn. discriminate.
  - intros e _. apply contains_app_left, contains_app_right, contains_refl.
  - intros e He. discriminate.
  - intros names' table [= <-] Hin.
    apply contains_app_left, contains_app_right, contains_app_right, contains_app_left.
    by apply join_contains.
  - intros e He. discriminate.
  - intros e [= <-]. apply contains_app_right, contains_refl.
  - intros names' table Hn. discriminate.
  - intros e _. apply contains_app_left, contains_app_right, contains_refl.
  - intros e [= <-]. apply contains_app_right, contains_refl.
Qed.

End SchemaFacts.

(* ===================================================================== *)
(** * Further properties of the agent loop *)
(* ===================================================================== *)

Section StripFacts.
Implicit Types (s x : string) (c : ascii).





Lemma string_of_snoc_char (l : list ascii) c :
  string_of_list_ascii (l ++ [c]) = string_of_list_ascii l +:+ String c EmptyString.
Proof.
  pose proof (string_of_snoc l c EmptyString) as Hs. by rewrite app_empty_r in Hs.
Qed.

(** The pieces of a split at a one-character separator hold no separator. *)
Lemma split_go_char_pieces c : forall s (cur : list ascii),
  contains (String c EmptyString) (string_of_list_ascii (rev cur)) = false ->
  Forall (fun p => contains (String c EmptyString) p = false)
         (split_go (String c EmptyString) 0 cur s).
Proof.
  induction s as [|x s IH]; intros cur Hcur; simpl.
  - by constructor.
  - destruct (Ascii.eqb_spec c x) as [<-|Hne]; simpl.
    + constructor; [done|]. by apply IH.
    + apply IH. simpl. rewrite string_of_snoc_char, contains_char_app, Hcur. simpl.
      destruct (Ascii.eqb_spec c x); [done|]. done.
Qed.



Lemma split_char_pieces c s :
  Forall (fun p => contains (String c EmptyString) p = false) (split (String c EmptyString) s).
Proof. unfold split. by apply split_go_char_pieces. Qed.

End StripFacts.

Section AgentMore.
Context {World : Type}.
Context (agent_invoke : AgentInput -> World -> py_result string * World).
Implicit Types (tools : list (Tool World)) (response : string) (w : World).

(** X15.  The budget is a ceiling whatever the model and the tools do:
    the loop never makes more than [max_iterations] passes, and with a
    budget of zero or less it returns the message that asks to rephrase
    without invoking the model. *)
Theorem budget_is_a_ceiling tools (input_text chat_history : string) (max_iterations : Z) w :
  let episode := run_episode agent_invoke tools input_text chat_history max_iterations w in
  (iterations episode <= Z.to_nat max_iterations)%nat /\
  (max_iterations <= 0 ->
   answer episode = rephrase_message /\ iterations episode = 0%nat /\ last_world episode = w).
Proof.
  intros episode. subst episode. unfold run_episode. split.
  - pose proof (agent_loop_bounded agent_invoke tools input_text chat_history
                  (Z.to_nat max_iterations) 0 EmptyString [] w). lia.
  - intros Hle. replace (Z.to_nat max_iterations) with 0%nat by lia. done.
Qed.

(** X16.  When the model raises, the pass ends the episode with the fixed
    sentence followed by the text of the exception; no tool is invoked and
    the scratchpad is left as it was. *)
Theorem model_failure_ends_episode tools (input_text chat_history scratchpad : string)
    (steps : list (string * string * string)) w (e : exn) w1 :
  agent_invoke (make_input tools input_text chat_history scratchpad) w = (Raises e, w1) ->
  forall remaining done,
    agent_loop agent_invoke tools (make_tool_map tools) input_text chat_history
      (S remaining) done scratchpad steps w
    = mk_Episode ("I encountered an error while processing your request: " +:+ exn_str e)
        (S done) scratchpad w1.
Proof.
  intros Hinv remaining done. simpl. unfold iteration. by rewrite Hinv.
Qed.

(** X17.  When the tool asked for raises, the pass ends the episode in
    the same way: the failure is not turned into an observation. *)
Theorem tool_failure_ends_episode tools (input_text chat_history scratchpad : string)
    (steps : list (string * string * string)) w response w1
    (action_part action_input_part : string) (tool : Tool World) (e : exn) w2 :
  agent_invoke (make_input tools input_text chat_history scratchpad) w
    = (Returns response, w1) ->
  contains "Final Answer:" response = false ->
  contains "Action:" response = true ->
  contains "Action Input:" response = true ->
  parse_action response = Returns (action_part, action_input_part) ->
  dict_get action_part (make_tool_map tools) = Some tool ->
  func tool action_input_part w1 = (Raises e, w2) ->
  forall remaining done,
    agent_loop agent_invoke tools (make_tool_map tools) input_text chat_history
      (S remaining) done scratchpad steps w
    = mk_Episode ("I encountered an error while processing your request: " +:+ exn_str e)
        (S done) scratchpad w2.
Proof.
  intros Hinv Hfa HA HI Hparse Hget Hfunc remaining done. simpl.
  unfold iteration. rewrite Hinv. unfold handle_response.
  rewrite Hfa, HA, HI. cbn [andb]. by rewrite Hparse, Hget, Hfunc.
Qed.

(** X18.  A reply with a final-answer marker ends the episode whatever
    else it holds: the answer is what follows the last marker, with the
    blanks at both ends removed, and no tool is invoked. *)
Theorem final_answer_extracted tools (input_text chat_history scratchpad : string)
    (steps : list (string * string * string)) w response w1 :
  agent_invoke (make_input tools input_text chat_history scratchpad) w
    = (Returns response, w1) ->
  contains "Final Answer:" response = true ->
  exists before tail,
    response = before +:+ "Final Answer:" +:+ tail /\
    contains "Final Answer:" tail = false /\
    forall remaining done,
      agent_loop agent_invoke tools (make_tool_map tools) input_text chat_history
        (S remaining) done scratchpad steps w
      = mk_Episode (strip tail) (S done) scratchpad w1.
Proof.
  intros Hinv Hfa.
  destruct (split_last_is_Some "Final Answer:" response) as [tail Htail].
  destruct (split_last "Final Answer:" response tail ltac:(done) Htail) as [Hno Hwhere].
  destruct Hwhere as [->|[before Hresp]]; [congruence|].
  exists before, tail. split; [done|]. split; [done|].
  intros remaining done. simpl. unfold iteration. rewrite Hinv.
  unfold handle_response. rewrite Hfa. unfold getitem_last. by rewrite Htail.
Qed.

Lemma iteration_next tools (input_text chat_history scratchpad : string)
    (steps : list (string * string * string)) w scratchpad' steps' w' :
  iteration agent_invoke tools (make_tool_map tools) input_text chat_history
    scratchpad steps w = (Next scratchpad' steps', w') ->
  exists response observation,
    scratchpad' = scratchpad +:+ nl +:+ response +:+ nl +:+ "Observation: "
                  +:+ observation +:+ nl +:+ "Thought: " /\
    (steps' = steps \/
     exists action_part action_input_part,
       steps' = steps ++ [(action_part, action_input_part, observation)]).
Proof.
  unfold iteration.
  destruct (agent_invoke (make_input tools input_text chat_history scratchpad) w)
    as [[response|e] w1]; [|done].
  unfold handle_response.
  destruct (contains "Final Answer:" response).
  { unfold getitem_last. by destruct (item_last (split "Final Answer:" response)). }
  destruct (contains "Action:" response && contains "Action Input:" response).
  - destruct (parse_action response) as [[action arg]|e]; [|done].
    destruct (dict_get action (make_tool_map tools)) as [tool|].
    + destruct (func tool arg w1) as [[observation|e] w2]; [|done].
      intros [= <- <- <-]. exists response, observation. split; [done|].
      right. by exists action, arg.
    + intros [= <- <- <-].
      exists response, (unknown_tool_observation action (make_tool_map tools)).
      split; [done|]. by left.
  - unfold getitem_last. by destruct (item_last (split "Thought:" response)).
Qed.

(** X19.  The scratchpad only grows.  A pass that goes on appends to it
    the reply of the model and one observation, in the layout
    [reply / "Observation: " observation / "Thought: "], and records at most
    one step; so the scratchpad at the end of a run starts with the
    scratchpad it began with. *)
Theorem scratchpad_only_grows tools (input_text chat_history : string) :
  (forall scratchpad steps w scratchpad' steps' w',
     iteration agent_invoke tools (make_tool_map tools) input_text chat_history
       scratchpad steps w = (Next scratchpad' steps', w') ->
     exists response observation,
       scratchpad' = scratchpad +:+ nl +:+ response +:+ nl +:+ "Observation: "
                     +:+ observation +:+ nl +:+ "Thought: " /\
       (steps' = steps \/
        exists action_part action_input_part,
          steps' = steps ++ [(action_part, action_input_part, observation)])) /\
  (forall remaining done scratchpad steps w,
     exists added,
       last_scratchpad
         (agent_loop agent_invoke tools (make_tool_map tools) input_text chat_history
            remaining done scratchpad steps w)
       = scratchpad +:+ added).
Proof.
  split; [intros *; apply iteration_next|].
  induction remaining as [|remaining IH]; intros done scratchpad steps w; simpl.
  - exists EmptyString. by rewrite app_empty_r.
  - destruct (iteration agent_invoke tools (make_tool_map tools) input_text chat_history
                scratchpad steps w) as [[final|scratchpad' steps'] w'] eqn:Hit; simpl.
    + exists EmptyString. by rewrite app_empty_r.
    + destruct (iteration_next _ _ _ _ _ _ _ _ _ Hit) as (response & observation & Hsp & _).
      destruct (IH (S done) scratchpad' steps' w') as [added ->].
      rewrite Hsp. eexists. rewrite app_assoc_str. reflexivity.
Qed.


End AgentMore.

(* ===================================================================== *)
(** * Chat history and streaming *)
(* ===================================================================== *)

Section JoinSplit.
Implicit Types (s sep : string).

Lemma join_cons sep p q (l : list string) :
  join sep (p :: q :: l) = p +:+ sep +:+ join sep (q :: l).
Proof. done. Qed.

Lemma split_go_join sep (n : nat) : sep <> EmptyString -> forall s (cur : list ascii),
  (String.length s <= n)%nat ->
  join sep (split_go sep 0 cur s) = string_of_list_ascii (rev cur) +:+ s.
Proof.
  intros Hsep. induction n as [|n IH]; intros s cur Hn.
  - destruct s; [|simpl in Hn; lia]. simpl. by rewrite app_empty_r.
  - destruct s as [|c s]; [simpl; by rewrite app_empty_r|].
    destruct (startswith sep (String c s)) eqn:Hs.
    + destruct (startswith_inv _ _ Hs) as [s' Hs']. rewrite Hs'.
      rewrite (split_go_match sep cur s' Hsep).
      pose proof (split_go_nonempty sep s' 0%nat []) as Hne.
      assert (Hlen : (String.length s' <= n)%nat).
      { assert (String.length (String c s) = String.length sep + String.length s')%nat
          as Hl by (rewrite Hs'; apply length_app_str).
        destruct sep; [done|]. simpl in Hl, Hn. lia. }
      specialize (IH s' [] Hlen).
      destruct (split_go sep 0 [] s') as [|x l]; [done|].
      rewrite join_cons, IH. done.
    + simpl. rewrite Hs. simpl in Hn. rewrite IH by lia. simpl. by rewrite string_of_snoc.
Qed.

(** Joining the pieces of a split with the separator gives the text
    back. *)
Lemma join_split sep s : sep <> EmptyString -> join sep (split sep s) = s.
Proof. intros Hsep. unfold split. by rewrite (split_go_join sep (String.length s)). Qed.

Lemma contains_trans a b c :
  contains a b = true -> contains b c = true -> contains a c = true.
Proof.
  rewrite !contains_occurs. intros (p1 & q1 & ->) (p2 & q2 & ->).
  exists (p2 +:+ p1), (q1 +:+ q2). by rewrite !app_assoc_str.
Qed.

Lemma filter_all_true {A} (f : A -> bool) (l : list A) :
  Forall (fun x => f x = true) l -> List.filter f l = l.
Proof.
  induction 1 as [|x l Hx _ IH]; [done|]. simpl. by rewrite Hx, IH.
Qed.

End JoinSplit.

Section HistoryFacts.

(** X21.  The filter that should take the current message out of the
    history works line by line: a message that holds a line break is in no
    single line, so the history comes back exactly as it was, with the
    message still in it. *)
Theorem multiline_message_not_filtered (user_message chat_history : string) :
  contains nl user_message = true ->
  filter_history user_message chat_history = chat_history.
Proof.
  intros Hnl. unfold filter_history.
  destruct (contains user_message chat_history); [|done].
  rewrite filter_all_true; [by apply join_split|].
  pose proof (split_char_pieces (ascii_of_nat 10) chat_history) as Hall.
  rewrite Forall_forall in Hall |- *. intros line Hline. specialize (Hall line Hline).
  destruct (contains user_message line) eqn:Hc; [|done].
  pose proof (contains_trans _ _ _ Hnl Hc) as Hbad.
  change (String (ascii_of_nat 10) EmptyString) with nl in Hall. congruence.
Qed.

Lemma history_parts_user (m : Message) (l : list Message) :
  In m l -> role m = "user" -> In ("Human: " +:+ content m) (history_parts l).
Proof.
  induction l as [|m0 l IH]; [done|]. intros [->|Hin] Hrole; simpl.
  - rewrite Hrole. simpl. by left.
  - destruct (String.eqb (role m0) "user"); [right; by apply IH|].
    destruct (String.eqb (role m0) "ai"); [right; by apply IH|]. by apply IH.
Qed.

Lemma history_parts_ai (m : Message) (l : list Message) :
  In m l -> role m = "ai" -> In ("Assistant: " +:+ content m) (history_parts l).
Proof.
  induction l as [|m0 l IH]; [done|]. intros [->|Hin] Hrole; simpl.
  - rewrite Hrole. simpl. by left.
  - destruct (String.eqb (role m0) "user"); [right; by apply IH|].
    destruct (String.eqb (role m0) "ai"); [right; by apply IH|]. by apply IH.
Qed.

Lemma history_parts_none (l : list Message) :
  Forall (fun m => role m <> "user" /\ role m <> "ai") l -> history_parts l = [].
Proof.
  induction 1 as [|m l [Hu Ha] _ IH]; [done|]. simpl.
  destruct (String.eqb_spec (role m) "user"); [done|].
  destruct (String.eqb_spec (role m) "ai"); [done|]. exact IH.
Qed.

Lemma history_parts_nonempty (l : list Message) :
  Forall (fun p => p <> EmptyString) (history_parts l).
Proof.
  induction l as [|m l IH]; simpl; [constructor|].
  destruct (String.eqb (role m) "user"); [by constructor|].
  destruct (String.eqb (role m) "ai"); [by constructor|]. exact IH.
Qed.

Lemma join_nonempty sep p (l : list string) : p <> EmptyString -> join sep (p :: l) <> EmptyString.
Proof. intros Hp. destruct l; simpl; [done|]. by destruct p. Qed.

(** X22.  The history handed to the model is never the empty text.  It
    holds every stored message of the user after ["Human: "] and every
    stored reply after ["Assistant: "]; messages of any other role are
    left out, and when nothing else is stored the history is the sentence
    that says so.  A failure of the query is not caught here. *)
Theorem history_is_never_empty `{ChatStore} (session_id limit : Z) :
  (forall e, select_messages session_id limit = Raises e ->
     load_chat_history session_id limit = Raises e) /\
  (forall db_messages, select_messages session_id limit = Returns db_messages ->
     exists history,
       load_chat_history session_id limit = Returns history /\
       history <> EmptyString /\
       (forall m, In m db_messages -> role m = "user" ->
                  contains ("Human: " +:+ content m) history = true) /\
       (forall m, In m db_messages -> role m = "ai" ->
                  contains ("Assistant: " +:+ content m) history = true) /\
       (Forall (fun m => role m <> "user" /\ role m <> "ai") db_messages ->
        history = "No previous conversation.")).
Proof.
  unfold load_chat_history. split.
  - intros e ->. done.
  - intros db_messages ->. cbn [mbind py_result_bind py_bind].
    eexists. split; [reflexivity|].
    pose proof (history_parts_nonempty (rev db_messages)) as Hne.
    split; [|split; [|split]].
    + destruct (history_parts (rev db_messages)) as [|p l]; [done|].
      apply Forall_cons in Hne as [Hp _]. by apply join_nonempty.
    + intros m Hin Hrole.
      pose proof (history_parts_user m (rev db_messages)
                    ltac:(by apply in_rev in Hin) Hrole) as Hpart.
      destruct (history_parts (rev db_messages)) as [|p l]; [done|].
      by apply join_contains.
    + intros m Hin Hrole.
      pose proof (history_parts_ai m (rev db_messages)
                    ltac:(by apply in_rev in Hin) Hrole) as Hpart.
      destruct (history_parts (rev db_messages)) as [|p l]; [done|].
      by apply join_contains.
    + intros Hnone. rewrite history_parts_none; [done|].
      rewrite Forall_forall in Hnone |- *. intros m Hm. apply Hnone.
      apply list_elem_of_In. apply list_elem_of_In in Hm. by apply in_rev.
Qed.

End HistoryFacts.

Section ChunkFacts.
Implicit Types (ws : list string).

Lemma range_step_zero (step : nat) : (0 < step)%nat -> range_step 0 step = [].
Proof.
  intros Hs. unfold range_step.
  replace ((0 + step - 1) / step)%nat with 0%nat; [done|].
  symmetry. apply Nat.div_small. lia.
Qed.

Lemma range_step_one (n step : nat) :
  (0 < n <= step)%nat -> range_step n step = [0%nat].
Proof.
  intros Hn. unfold range_step.
  replace ((n + step - 1) / step)%nat with 1%nat; [done|].
  apply (Nat.div_unique _ _ _ (n - 1)); lia.
Qed.

Lemma range_step_more (n step : nat) :
  (0 < step < n)%nat ->
  range_step n step = 0%nat :: map (fun i => (i + step)%nat) (range_step (n - step) step).
Proof.
  intros Hn. unfold range_step.
  replace (n + step - 1)%nat with ((n - step + step - 1) + 1 * step)%nat by lia.
  rewrite Nat.div_add by lia. rewrite Nat.add_1_r. cbn [seq map].
  f_equal. rewrite <- seq_shift, !map_map. apply map_ext. intros k. lia.
Qed.

Lemma full_reply_acc (chunks : list string) : forall acc,
  fold_left (fun reply chunk => reply +:+ chunk) chunks acc = acc +:+ full_reply chunks.
Proof.
  unfold full_reply. induction chunks as [|c chunks IH]; intros acc; simpl.
  - by rewrite app_empty_r.
  - rewrite IH, (IH c). by rewrite app_assoc_str.
Qed.

Lemma full_reply_cons (c : string) (chunks : list string) :
  full_reply (c :: chunks) = c +:+ full_reply chunks.
Proof. unfold full_reply at 1. simpl. apply (full_reply_acc chunks c). Qed.

Lemma join_app sep (l1 l2 : list string) :
  l1 <> [] -> l2 <> [] -> join sep (l1 ++ l2) = join sep l1 +:+ sep +:+ join sep l2.
Proof.
  intros H1 H2. induction l1 as [|p l1 IH]; [done|].
  destruct l1 as [|q l1].
  - simpl. by destruct l2.
  - change ((p :: q :: l1) ++ l2) with (p :: q :: (l1 ++ l2)).
    rewrite !join_cons. change (q :: l1 ++ l2) with ((q :: l1) ++ l2).
    rewrite IH by done. by rewrite !app_assoc_str.
Qed.

Lemma chunks_of_short ws :
  (0 < length ws <= chunk_size)%nat -> chunks_of ws = [join " " ws].
Proof.
  intros Hn. unfold chunks_of. rewrite range_step_one by done. cbn [map].
  unfold slice. rewrite Nat.add_0_l, Nat.sub_0_r, drop_0, firstn_all2 by (unfold chunk_size in *; lia).
  destruct (Nat.ltb_spec chunk_size (length ws)); [lia|done].
Qed.

Lemma chunks_of_long ws :
  (chunk_size < length ws)%nat ->
  chunks_of ws = (join " " (take chunk_size ws) +:+ " ") :: chunks_of (drop chunk_size ws).
Proof.
  intros Hn. unfold chunks_of at 1.
  rewrite range_step_more by (unfold chunk_size in *; lia). cbn [map]. f_equal.
  - unfold slice. rewrite Nat.add_0_l, Nat.sub_0_r, drop_0.
    destruct (Nat.ltb_spec chunk_size (length ws)); [done|lia].
  - unfold chunks_of. rewrite map_map, length_drop. apply map_ext. intros i.
    unfold slice. rewrite drop_drop.
    replace (i + chunk_size + chunk_size - (i + chunk_size))%nat with chunk_size by lia.
    replace (i + chunk_size - i)%nat with chunk_size by lia.
    replace (chunk_size + i)%nat with (i + chunk_size)%nat by lia.
    destruct (Nat.ltb_spec (i + chunk_size + chunk_size) (length ws));
      destruct (Nat.ltb_spec (i + chunk_size) (length ws - chunk_size)); (done || lia).
Qed.

Lemma chunks_give_words (n : nat) : forall ws,
  (length ws <= n)%nat -> full_reply (chunks_of ws) = join " " ws.
Proof.
  induction n as [|n IH]; intros ws Hn.
  - destruct ws; [|simpl in Hn; lia]. reflexivity.
  - destruct (decide (length ws = 0%nat)) as [H0|H0].
    { destruct ws; [|done]. reflexivity. }
    destruct (decide (length ws <= chunk_size)%nat) as [Hshort|Hlong].
    + rewrite chunks_of_short by lia. rewrite full_reply_cons. unfold full_reply. simpl.
      by rewrite app_empty_r.
    + rewrite chunks_of_long by lia. rewrite full_reply_cons.
      rewrite IH by (rewrite length_drop; unfold chunk_size in *; lia).
      rewrite <- (take_drop chunk_size ws) at 3.
      rewrite join_app; [by rewrite app_assoc_str| |].
      * intros Ht. apply (f_equal length) in Ht. rewrite length_take in Ht.
        change (length (@nil string)) with 0%nat in Ht. unfold chunk_size in *. lia.
      * intros Hd. apply (f_equal length) in Hd. rewrite length_drop in Hd.
        change (length (@nil string)) with 0%nat in Hd. lia.
Qed.

Lemma chunks_give_words_of_answer_aux (output : string) :
  full_reply (stream_chunks output) = join " " (words output).
Proof. unfold stream_chunks. by apply (chunks_give_words (length (words output))). Qed.

(** X23.  What the chunks add up to: put together, as [chat_stream] does
    for the reply it stores, they are the words of the answer with one
    blank between two words; line breaks and runs of blanks in the answer
    are gone. *)
Theorem chunks_give_words_of_answer (output : string) :
  full_reply (stream_chunks output) = join " " (words output).
Proof. apply chunks_give_words_of_answer_aux. Qed.

End ChunkFacts.

Section StreamFacts.
Context {World : Type} `{ChatStore}.

(** X24.  The stream never fails.  When creating the agent or reading
    the history raises, it is the one sentence of apology followed by the
    text of the exception; otherwise the chunks put together are the words
    of the answer that [execute_agent] gives for the filtered history with
    a budget of five passes. *)
Theorem stream_never_fails
    (create_agent :
       py_result ((AgentInput -> World -> py_result string * World) * list (Tool World)))
    (session_id : Z) (user_message : string) (w : World) :
  let stream := stream_chat_response create_agent session_id user_message w in
  (forall e, create_agent = Raises e ->
     stream = (["I apologize, but I encountered an error: " +:+ exn_str e], w)) /\
  (forall agent tools e,
     create_agent = Returns (agent, tools) ->
     load_chat_history session_id 10 = Raises e ->
     stream = (["I apologize, but I encountered an error: " +:+ exn_str e], w)) /\
  (forall agent tools chat_history,
     create_agent = Returns (agent, tools) ->
     load_chat_history session_id 10 = Returns chat_history ->
     full_reply stream.1
     = join " " (words (execute_agent agent tools user_message
                          (filter_history user_message chat_history) 5 w))).
Proof.
  intros stream. subst stream. unfold stream_chat_response, stream_agent_response.
  split; [|split].
  - intros e ->. done.
  - intros agent tools e -> ->. done.
  - intros agent tools chat_history -> ->. cbn [fst].
    apply chunks_give_words_of_answer_aux.
Qed.

End StreamFacts.

(* ===================================================================== *)
(** * Session title *)
(* ===================================================================== *)

Section TitleFacts.
Implicit Types (s : string).

Lemma count_take (n : nat) s :
  count_code_points (take_code_points n s) = Nat.min n (count_code_points s).
Proof.
  revert n. induction s as [|c s IH]; intros n; simpl.
  - by rewrite Nat.min_0_r.
  - destruct (is_continuation c) eqn:Hc; simpl.
    + by rewrite Hc, IH.
    + destruct n as [|k]; simpl; [done|]. by rewrite Hc, IH.
Qed.

Lemma count_app s1 s2 :
  count_code_points (s1 +:+ s2) = (count_code_points s1 + count_code_points s2)%nat.
Proof.
  induction s1 as [|c s1 IH]; simpl; [done|].
  destruct (is_continuation c); simpl; by rewrite IH.
Qed.

Lemma take_code_points_prefix (n : nat) s : startswith (take_code_points n s) s = true.
Proof.
  revert n. induction s as [|c s IH]; intros n; simpl; [done|].
  destruct (is_continuation c); simpl.
  - by rewrite Ascii.eqb_refl, IH.
  - destruct n; simpl; [done|]. by rewrite Ascii.eqb_refl, IH.
Qed.

(** X25.  The title of a new session is the message itself when it has
    at most 50 characters, and otherwise its first 50 characters followed
    by three dots; it never has more than 53 characters. *)
Theorem session_title_is_short (user_message : string) :
  len (session_title user_message) <= 53 /\
  (len user_message <= 50 -> session_title user_message = user_message) /\
  (50 < len user_message ->
   session_title user_message = take_code_points 50 user_message +:+ "..." /\
   len (take_code_points 50 user_message) = 50 /\
   startswith (take_code_points 50 user_message) user_message = true /\
   len (session_title user_message) = 53).
Proof.
  unfold session_title, len.
  destruct (Z.gtb_spec (Z.of_nat (count_code_points user_message)) 50) as [Hlong|Hshort].
  - assert (Htake : count_code_points (take_code_points 50 user_message) = 50%nat)
      by (rewrite count_take; lia).
    assert (Hdots : count_code_points "..." = 3%nat) by reflexivity.
    rewrite count_app, Htake, Hdots. split; [lia|]. split; [lia|].
    intros _. split; [done|]. split; [lia|]. split; [apply take_code_points_prefix|lia].
  - split; [lia|]. split; [done|]. lia.
Qed.

End TitleFacts.

(* ===================================================================== *)
(** * Examples for the further properties *)
(* ===================================================================== *)

Section MoreAgentExamples.
Import Examples.

Example words_ex :
  words ("  The table" +:+ nl +:+ "holds   42 rows. ") = ["The"; "table"; "holds"; "42"; "rows."].
Proof. by vm_compute. Qed.

Example stream_chunks_ex :
  stream_chunks "a b c d e f g h i j k l" = ["a b c d e f g h i j "; "k l"] /\
  stream_chunks "a b c d e f g h i j" = ["a b c d e f g h i j"] /\
  stream_chunks " " = [].
Proof. repeat split; by vm_compute. Qed.

(** A no-break blank (U+00A0) and an ideographic blank (U+3000) separate
    words like any other blank, and come out as one plain blank. *)
Example words_beyond_ascii :
  words ("a" +:+ utf8 0xA0 +:+ "b" +:+ utf8 0x3000 +:+ " c") = ["a"; "b"; "c"] /\
  full_reply (stream_chunks ("a" +:+ utf8 0xA0 +:+ "b")) = "a b".
Proof. split; by vm_compute. Qed.

Example range_step_ex :
  range_step 0 10 = [] /\ range_step 10 10 = [0%nat] /\ range_step 11 10 = [0; 10]%nat /\
  range_step 25 10 = [0; 10; 20]%nat.
Proof. repeat split; by vm_compute. Qed.

Example session_title_ex :
  session_title "How many users signed up in the last thirty days, by country?"
  = "How many users signed up in the last thirty days, ..." /\
  session_title "ééé" = "ééé" /\ len "ééé" = 3.
Proof. repeat split; by vm_compute. Qed.

(** A one-line message is taken out of the history, together with every
    other line of the user that holds it; replies are kept. *)
Example filter_history_ex :
  filter_history "hi"
    ("Human: hi" +:+ nl +:+ "Assistant: hi there" +:+ nl +:+ "Human: hi again" +:+ nl
     +:+ "Human: bye")
  = "Assistant: hi there" +:+ nl +:+ "Human: bye".
Proof. by vm_compute. Qed.

Example load_chat_history_ex :
  let S := MoreExamples.small_store in
  load_chat_history 1 10 = Returns ("Human: How many rows?" +:+ nl +:+ "Assistant: 42 rows.") /\
  load_chat_history 1 0 = Returns "No previous conversation.".
Proof. intros S. split; by vm_compute. Qed.

Example get_schema_info_ex :
  @get_schema_info MoreExamples.two_tables "users"
  = Returns ("📊 Database Schema Information:" +:+ nl +:+ nl
             +:+ "Available tables: users, orders" +:+ nl +:+ nl
             +:+ "CREATE TABLE users (id INTEGER)") /\
  @get_schema_info MoreExamples.no_reflection EmptyString
  = Returns ("📊 Database Schema Information:" +:+ nl +:+ nl
             +:+ "Available tables: " +:+ nl +:+ nl
             +:+ "Error fetching table info: connection refused").
Proof. split; by vm_compute. Qed.

(** X16 on a model that cannot be reached. *)
Lemma model_failure_ends_episode_witness :
  let model := fun (_ : AgentInput) (w : nat) =>
    (Raises (mk_exn OtherException "503 service unavailable"), S w) : py_result string * nat in
  let inp := make_input [echo_tool] "How many rows?" "No previous conversation." EmptyString in
  model inp 0%nat = (Raises (mk_exn OtherException "503 service unavailable"), 1%nat) /\
  run_episode model [echo_tool] "How many rows?" "No previous conversation." 5 0%nat
  = mk_Episode
      "I encountered an error while processing your request: 503 service unavailable"
      1 EmptyString 1%nat.
Proof.
  intros model inp.
  assert (Hinv : model inp 0%nat
                 = (Raises (mk_exn OtherException "503 service unavailable"), 1%nat))
    by reflexivity.
  split; [exact Hinv|].
  exact (model_failure_ends_episode model [echo_tool] "How many rows?"
           "No previous conversation." EmptyString [] 0%nat _ 1%nat Hinv 4%nat 0%nat).
Defined.

(** X17 on the tool that raises. *)
Lemma tool_failure_ends_episode_witness :
  let inp := make_input [broken_tool] "How many rows?" "No previous conversation." EmptyString in
  acting_model inp 0%nat = (Returns acting_reply, 1%nat) /\
  contains "Final Answer:" acting_reply = false /\
  contains "Action:" acting_reply = true /\
  contains "Action Input:" acting_reply = true /\
  parse_action acting_reply = Returns ("echo", "hello") /\
  dict_get "echo" (make_tool_map [broken_tool]) = Some broken_tool /\
  func broken_tool "hello" 1%nat = (Raises (mk_exn OtherException "connection reset"), 1%nat) /\
  run_episode acting_model [broken_tool] "How many rows?" "No previous conversation." 5 0%nat
  = mk_Episode "I encountered an error while processing your request: connection reset"
      1 EmptyString 1%nat.
Proof.
  intros inp.
  assert (H1 : acting_model inp 0%nat = (Returns acting_reply, 1%nat)) by reflexivity.
  assert (H2 : contains "Final Answer:" acting_reply = false) by (by vm_compute).
  assert (H3 : contains "Action:" acting_reply = true) by (by vm_compute).
  assert (H4 : contains "Action Input:" acting_reply = true) by (by vm_compute).
  assert (H5 : parse_action acting_reply = Returns ("echo", "hello")) by (by vm_compute).
  assert (H6 : dict_get "echo" (make_tool_map [broken_tool]) = Some broken_tool)
    by reflexivity.
  assert (H7 : func broken_tool "hello" 1%nat
               = (Raises (mk_exn OtherException "connection reset"), 1%nat)) by reflexivity.
  repeat (split; [assumption|]).
  exact (tool_failure_ends_episode acting_model [broken_tool] "How many rows?"
           "No previous conversation." EmptyString [] 0%nat acting_reply 1%nat
           "echo" "hello" broken_tool _ 1%nat H1 H2 H3 H4 H5 H6 H7 4%nat 0%nat).
Defined.

(** X18 on a reply that asks for a tool and gives a final answer. *)
Lemma final_answer_extracted_witness :
  let reply := "Action: echo" +:+ nl +:+ "Action Input: x" +:+ nl
               +:+ "Final Answer: draft" +:+ nl +:+ "Final Answer: 42 rows. " in
  let model := fun (_ : AgentInput) (w : nat) => (Returns reply, S w) in
  let inp := make_input [echo_tool] "How many rows?" "No previous conversation." EmptyString in
  model inp 0%nat = (Returns reply, 1%nat) /\
  contains "Final Answer:" reply = true /\
  exists before tail,
    reply = before +:+ "Final Answer:" +:+ tail /\
    contains "Final Answer:" tail = false /\
    run_episode model [echo_tool] "How many rows?" "No previous conversation." 5 0%nat
    = mk_Episode (strip tail) 1 EmptyString 1%nat.
Proof.
  intros reply model inp.
  assert (H1 : model inp 0%nat = (Returns reply, 1%nat)) by reflexivity.
  assert (H2 : contains "Final Answer:" reply = true) by (by vm_compute).
  split; [exact H1|]. split; [exact H2|].
  destruct (final_answer_extracted model [echo_tool] "How many rows?"
              "No previous conversation." EmptyString [] 0%nat reply 1%nat H1 H2)
    as (before & tail & Hreply & Hno & Hloop).
  exists before, tail. split; [exact Hreply|]. split; [exact Hno|].
  exact (Hloop 4%nat 0%nat).
Defined.


(** X21 on a message of two lines that is in the history. *)
Lemma multiline_message_not_filtered_witness :
  let message := "first line" +:+ nl +:+ "second line" in
  let history := "Human: " +:+ message +:+ nl +:+ "Assistant: noted" in
  contains nl message = true /\
  contains message history = true /\
  filter_history message history = history.
Proof.
  intros message history.
  assert (Hnl : contains nl message = true) by (by vm_compute).
  split; [exact Hnl|]. split; [by vm_compute|].
  exact (multiline_message_not_filtered message history Hnl).
Defined.

End MoreAgentExamples.

(* ===================================================================== *)
(** * Identities seen by the limiter *)
(* ===================================================================== *)

Section LimiterKeys.
Implicit Types (rl : RateLimiter) (u : string) (t : Z).

Lemma allow_request_keys t u rl :
  is_Some (requests (allow_request t u rl).2 !! u) /\
  (forall u', is_Some (requests rl !! u') -> is_Some (requests (allow_request t u rl).2 !! u')).
Proof.
  unfold allow_request.
  destruct (Z.of_nat (length (requests_of (set_requests rl u _) u)) >=? _); cbn [snd];
    unfold set_requests; cbn [requests]; split.
  - rewrite lookup_insert_eq. by eexists.
  - intros u' Hu'. destruct (decide (u = u')) as [->|Hne].
    + rewrite lookup_insert_eq. by eexists.
    + by rewrite lookup_insert_ne.
  - rewrite lookup_insert_eq. by eexists.
  - intros u' Hu'. destruct (decide (u = u')) as [->|Hne].
    + rewrite lookup_insert_eq. by eexists.
    + rewrite !lookup_insert_ne by done. exact Hu'.
Qed.

Lemma serve_keeps_keys (calls : list (Z * string)) : forall rl u,
  is_Some (requests rl !! u) -> is_Some (requests (serve calls rl).2 !! u).
Proof.
  induction calls as [|[t0 u0] calls IH]; intros rl u Hu; [done|].
  rewrite serve_cons. cbn [snd]. apply IH.
  by apply (proj2 (allow_request_keys t0 u0 rl)).
Qed.

(** X26.  The limiter never forgets an identity: every identity that has
    called keeps an entry in the table of windows, also after a call that
    was denied and after its window has emptied, and no call removes the
    entry of another identity. *)
Theorem identities_are_never_forgotten (calls : list (Z * string)) rl :
  (forall t u, In (t, u) calls -> is_Some (requests (serve calls rl).2 !! u)) /\
  (forall u, is_Some (requests rl !! u) -> is_Some (requests (serve calls rl).2 !! u)).
Proof.
  split; [|intros u; apply serve_keeps_keys].
  revert rl. induction calls as [|[t0 u0] calls IH]; intros rl t u Hin; [done|].
  rewrite serve_cons. cbn [snd]. destruct Hin as [[= -> ->]|Hin].
  - apply serve_keeps_keys. apply (proj1 (allow_request_keys t u rl)).
  - by apply (IH _ t).
Qed.

End LimiterKeys.

(** After its window has emptied, the identity is still in the table, with
    an empty list. *)
Example emptied_window_is_kept :
  requests (serve [(0, "ann"); (100, "bob")] (new_RateLimiter 0 60)).2 !! "ann" = Some [] /\
  requests (serve [(0, "ann"); (100, "bob")] (new_RateLimiter 0 60)).2 !! "bob" = Some [].
Proof. split; by vm_compute. Qed.
